(** * PhysicsFS Unicode support (physfs_unicode.c): model and properties

    A shallow embedding of the UTF-8 decoder [utf8codepoint], the encoder
    [utf8fromcodepoint], the transcoding entry points and the
    case-insensitive comparators, followed by the properties the
    specification states about them.

    - C integers are [Z] with the wrap-around of their width written out
      ([u8], [u16], [u32], [u64]).
    - A C buffer is a [list Z] of elements; a pointer into it is an index
      ([nat]).  An access outside the buffer is undefined behaviour in C and
      is the outcome [OutOfBounds] here.
    - A [while] loop is a [Fixpoint] on a bound of iterations; running out
      of that bound is the outcome [OutOfFuel], and the entry points are
      shown never to produce it. *)

From Stdlib Require Import ZArith Lia Bool.
From stdpp Require Import base list numbers.

Local Open Scope Z_scope.

(** ** Outcomes of a C computation *)

Inductive result (A : Type) : Type :=
  | Ok (a : A)
  | OutOfBounds
  | OutOfFuel.

Arguments Ok {A} a.
Arguments OutOfBounds {A}.
Arguments OutOfFuel {A}.

#[global] Instance result_ret : MRet result := fun A a => Ok a.

#[global] Instance result_bind : MBind result := fun A B f m =>
  match m with
  | Ok a => f a
  | OutOfBounds => OutOfBounds
  | OutOfFuel => OutOfFuel
  end.

#[global] Instance result_fmap : FMap result := fun A B f m =>
  match m with
  | Ok a => Ok (f a)
  | OutOfBounds => OutOfBounds
  | OutOfFuel => OutOfFuel
  end.

(** ** Machine integers *)

Definition u8 (x : Z) : Z := x mod 2 ^ 8.
Definition u16 (x : Z) : Z := x mod 2 ^ 16.
Definition u32 (x : Z) : Z := x mod 2 ^ 32.
Definition u64 (x : Z) : Z := x mod 2 ^ 64.

(** ** Buffers *)

Definition load (m : list Z) (i : nat) : result Z :=
  match m !! i with
  | Some v => Ok v
  | None => OutOfBounds
  end.

Definition store (m : list Z) (i : nat) (v : Z) : result (list Z) :=
  if decide (i < length m)%nat then Ok (<[i:=v]> m) else OutOfBounds.

(** ** The decoder *)

Definition UNICODE_BOGUS_CHAR_VALUE : Z := 0xFFFFFFFF.
Definition UNICODE_BOGUS_CHAR_CODEPOINT : Z := 63. (* '?' *)

(** The seven values of the [switch] in [utf8codepoint] and
    [utf8fromcodepoint]. *)
Definition surrogate_case (cp : Z) : bool :=
  (cp =? 0xD800) || (cp =? 0xDB7F) || (cp =? 0xDB80) || (cp =? 0xDBFF)
  || (cp =? 0xDC00) || (cp =? 0xDF80) || (cp =? 0xDFFF).

(** [(octet & (128+64)) != 128]: the format is not 10xxxxxx. *)
Definition not_continuation (octet : Z) : bool :=
  negb (Z.land octet (128 + 64) =? 128).

(** [utf8codepoint s _str] reads at the cursor [_str] of the buffer [s] and
    returns the codepoint with the new cursor.  [str] is the local read
    pointer of the C function, [_str] the caller's cursor it updates. *)
Definition utf8codepoint (s : list Z) (_str : nat) : result (Z * nat) :=
  let str := _str in
  c ← load s str;
  let octet := u8 c in
  if octet =? 0 then Ok (0, _str)
  else if octet <? 128 then Ok (octet, S _str)
  else if (127 <? octet) && (octet <? 192) then
    Ok (UNICODE_BOGUS_CHAR_VALUE, S _str)
  else if octet <? 224 then
    let _str := S _str in
    let octet := u32 (octet - (128 + 64)) in
    let str := S str in
    c ← load s str;
    let octet2 := u8 c in
    if not_continuation octet2 then Ok (UNICODE_BOGUS_CHAR_VALUE, _str) else
    let _str := (_str + 1)%nat in
    let retval := Z.lor (u32 (octet ≪ 6)) (u32 (octet2 - 128)) in
    if (0x80 <=? retval) && (retval <=? 0x7FF) then Ok (retval, _str)
    else Ok (UNICODE_BOGUS_CHAR_VALUE, _str)
  else if octet <? 240 then
    let _str := S _str in
    let octet := u32 (octet - (128 + 64 + 32)) in
    let str := S str in
    c ← load s str;
    let octet2 := u8 c in
    if not_continuation octet2 then Ok (UNICODE_BOGUS_CHAR_VALUE, _str) else
    let str := S str in
    c ← load s str;
    let octet3 := u8 c in
    if not_continuation octet3 then Ok (UNICODE_BOGUS_CHAR_VALUE, _str) else
    let _str := (_str + 2)%nat in
    let retval :=
      Z.lor (Z.lor (u32 (octet ≪ 12)) (u32 (u32 (octet2 - 128) ≪ 6)))
            (u32 (octet3 - 128)) in
    if surrogate_case retval then Ok (UNICODE_BOGUS_CHAR_VALUE, _str)
    else if (0x800 <=? retval) && (retval <=? 0xFFFD) then Ok (retval, _str)
    else Ok (UNICODE_BOGUS_CHAR_VALUE, _str)
  else if octet <? 248 then
    let _str := S _str in
    let octet := u32 (octet - (128 + 64 + 32 + 16)) in
    let str := S str in
    c ← load s str;
    let octet2 := u8 c in
    if not_continuation octet2 then Ok (UNICODE_BOGUS_CHAR_VALUE, _str) else
    let str := S str in
    c ← load s str;
    let octet3 := u8 c in
    if not_continuation octet3 then Ok (UNICODE_BOGUS_CHAR_VALUE, _str) else
    let str := S str in
    c ← load s str;
    let octet4 := u8 c in
    if not_continuation octet4 then Ok (UNICODE_BOGUS_CHAR_VALUE, _str) else
    let _str := (_str + 3)%nat in
    let retval :=
      Z.lor (Z.lor (Z.lor (u32 (octet ≪ 18)) (u32 (u32 (octet2 - 128) ≪ 12)))
                   (u32 (u32 (octet3 - 128) ≪ 6)))
            (u32 (octet4 - 128)) in
    if (0x10000 <=? retval) && (retval <=? 0x10FFFF) then Ok (retval, _str)
    else Ok (UNICODE_BOGUS_CHAR_VALUE, _str)
  else if octet <? 252 then
    let _str := S _str in
    let str := S str in
    c ← load s str;
    if not_continuation (u8 c) then Ok (UNICODE_BOGUS_CHAR_VALUE, _str) else
    let str := S str in
    c ← load s str;
    if not_continuation (u8 c) then Ok (UNICODE_BOGUS_CHAR_VALUE, _str) else
    let str := S str in
    c ← load s str;
    if not_continuation (u8 c) then Ok (UNICODE_BOGUS_CHAR_VALUE, _str) else
    let str := S str in
    c ← load s str;
    if not_continuation (u8 c) then Ok (UNICODE_BOGUS_CHAR_VALUE, _str) else
    let _str := (_str + 4)%nat in
    Ok (UNICODE_BOGUS_CHAR_VALUE, _str)
  else
    let _str := S _str in
    let str := S str in
    c ← load s str;
    if not_continuation (u8 c) then Ok (UNICODE_BOGUS_CHAR_VALUE, _str) else
    let str := S str in
    c ← load s str;
    if not_continuation (u8 c) then Ok (UNICODE_BOGUS_CHAR_VALUE, _str) else
    let str := S str in
    c ← load s str;
    if not_continuation (u8 c) then Ok (UNICODE_BOGUS_CHAR_VALUE, _str) else
    let str := S str in
    c ← load s str;
    if not_continuation (u8 c) then Ok (UNICODE_BOGUS_CHAR_VALUE, _str) else
    let str := S str in
    c ← load s str;
    if not_continuation (u8 c) then Ok (UNICODE_BOGUS_CHAR_VALUE, _str) else
    let _str := (_str + 6)%nat in
    Ok (UNICODE_BOGUS_CHAR_VALUE, _str).

(** ** UTF-8 to UCS-4, UCS-2 and UTF-16

    [len] is the size of the destination in bytes, an unsigned 64-bit
    integer; [dst] is indexed by elements. *)

Fixpoint utf8ToUcs4_loop (fuel : nat) (src : list Z) (sp : nat)
    (dst : list Z) (dp : nat) (len : Z) : result (list Z * nat) :=
  match fuel with
  | O => OutOfFuel
  | S fuel =>
    if 4 <=? len then
      '(cp, sp) ← utf8codepoint src sp;
      if cp =? 0 then Ok (dst, dp)
      else
        let cp := if cp =? UNICODE_BOGUS_CHAR_VALUE
                  then UNICODE_BOGUS_CHAR_CODEPOINT else cp in
        dst ← store dst dp cp;
        utf8ToUcs4_loop fuel src sp dst (S dp) (u64 (len - 4))
    else Ok (dst, dp)
  end.

Definition PHYSFS_utf8ToUcs4 (src dst : list Z) (len : Z) : result (list Z) :=
  let len := u64 (len - 4) in
  '(dst, dp) ← utf8ToUcs4_loop (S (length src)) src 0 dst 0 len;
  store dst dp 0.

Fixpoint utf8ToUcs2_loop (fuel : nat) (src : list Z) (sp : nat)
    (dst : list Z) (dp : nat) (len : Z) : result (list Z * nat) :=
  match fuel with
  | O => OutOfFuel
  | S fuel =>
    if 2 <=? len then
      '(cp, sp) ← utf8codepoint src sp;
      if cp =? 0 then Ok (dst, dp)
      else
        let cp := if cp =? UNICODE_BOGUS_CHAR_VALUE
                  then UNICODE_BOGUS_CHAR_CODEPOINT else cp in
        let cp := if 0xFFFF <? cp then UNICODE_BOGUS_CHAR_CODEPOINT else cp in
        dst ← store dst dp (u16 cp);
        utf8ToUcs2_loop fuel src sp dst (S dp) (u64 (len - 2))
    else Ok (dst, dp)
  end.

Definition PHYSFS_utf8ToUcs2 (src dst : list Z) (len : Z) : result (list Z) :=
  let len := u64 (len - 2) in
  '(dst, dp) ← utf8ToUcs2_loop (S (length src)) src 0 dst 0 len;
  store dst dp 0.

Fixpoint utf8ToUtf16_loop (fuel : nat) (src : list Z) (sp : nat)
    (dst : list Z) (dp : nat) (len : Z) : result (list Z * nat) :=
  match fuel with
  | O => OutOfFuel
  | S fuel =>
    if 2 <=? len then
      '(cp, sp) ← utf8codepoint src sp;
      if cp =? 0 then Ok (dst, dp)
      else
        let cp := if cp =? UNICODE_BOGUS_CHAR_VALUE
                  then UNICODE_BOGUS_CHAR_CODEPOINT else cp in
        if 0xFFFF <? cp then
          if len <? 2 * 2 then Ok (dst, dp)
          else
            let cp := u32 (cp - 0x10000) in
            dst ← store dst dp (u16 (0xD800 + Z.land (cp ≫ 10) 0x3FF));
            let dp := S dp in
            let len := u64 (len - 2) in
            let cp := u32 (0xDC00 + Z.land cp 0x3FF) in
            dst ← store dst dp (u16 cp);
            utf8ToUtf16_loop fuel src sp dst (S dp) (u64 (len - 2))
        else
          dst ← store dst dp (u16 cp);
          utf8ToUtf16_loop fuel src sp dst (S dp) (u64 (len - 2))
    else Ok (dst, dp)
  end.

Definition PHYSFS_utf8ToUtf16 (src dst : list Z) (len : Z) : result (list Z) :=
  let len := u64 (len - 2) in
  '(dst, dp) ← utf8ToUtf16_loop (S (length src)) src 0 dst 0 len;
  store dst dp 0.

(** ** The encoder

    [utf8fromcodepoint cp dst dp len] returns the buffer, the advanced write
    pointer and the remaining capacity. *)

Definition utf8fromcodepoint (cp : Z) (dst : list Z) (dp : nat) (len : Z)
    : result (list Z * nat * Z) :=
  if len =? 0 then Ok (dst, dp, len)
  else
    let cp :=
      if 0x10FFFF <? cp then UNICODE_BOGUS_CHAR_CODEPOINT
      else if (cp =? 0xFFFE) || (cp =? 0xFFFF) then UNICODE_BOGUS_CHAR_CODEPOINT
      else if surrogate_case cp then UNICODE_BOGUS_CHAR_CODEPOINT
      else cp in
    if cp <? 0x80 then
      dst ← store dst dp (u8 cp);
      Ok (dst, S dp, u64 (len - 1))
    else if cp <? 0x800 then
      if len <? 2 then Ok (dst, dp, 0)
      else
        dst ← store dst dp (u8 (Z.lor (Z.lor (cp ≫ 6) 128) 64));
        dst ← store dst (dp + 1) (u8 (Z.lor (u8 (Z.land cp 0x3F)) 128));
        Ok (dst, (dp + 2)%nat, u64 (len - 2))
    else if cp <? 0x10000 then
      if len <? 3 then Ok (dst, dp, 0)
      else
        dst ← store dst dp (u8 (Z.lor (Z.lor (Z.lor (cp ≫ 12) 128) 64) 32));
        dst ← store dst (dp + 1) (u8 (Z.lor (u8 (Z.land (cp ≫ 6) 0x3F)) 128));
        dst ← store dst (dp + 2) (u8 (Z.lor (u8 (Z.land cp 0x3F)) 128));
        Ok (dst, (dp + 3)%nat, u64 (len - 3))
    else
      if len <? 4 then Ok (dst, dp, 0)
      else
        dst ← store dst dp
                (u8 (Z.lor (Z.lor (Z.lor (Z.lor (cp ≫ 18) 128) 64) 32) 16));
        dst ← store dst (dp + 1) (u8 (Z.lor (u8 (Z.land (cp ≫ 12) 0x3F)) 128));
        dst ← store dst (dp + 2) (u8 (Z.lor (u8 (Z.land (cp ≫ 6) 0x3F)) 128));
        dst ← store dst (dp + 3) (u8 (Z.lor (u8 (Z.land cp 0x3F)) 128));
        Ok (dst, (dp + 4)%nat, u64 (len - 4)).

(** ** UCS-4, UCS-2 and Latin-1 to UTF-8: the macro UTF8FROMTYPE

    [typ] is the cast the macro applies to a source element. *)

Fixpoint UTF8FROMTYPE_loop (typ : Z -> Z) (fuel : nat) (src : list Z) (sp : nat)
    (dst : list Z) (dp : nat) (len : Z) : result (list Z * nat) :=
  match fuel with
  | O => OutOfFuel
  | S fuel =>
    if len =? 0 then Ok (dst, dp)
    else
      c ← load src sp;
      let cp := u32 (typ c) in
      let sp := S sp in
      if cp =? 0 then Ok (dst, dp)
      else
        '(dst, dp, len) ← utf8fromcodepoint cp dst dp len;
        UTF8FROMTYPE_loop typ fuel src sp dst dp len
  end.

Definition UTF8FROMTYPE (typ : Z -> Z) (src dst : list Z) (len : Z)
    : result (list Z) :=
  if len =? 0 then Ok dst
  else
    let len := u64 (len - 1) in
    '(dst, dp) ← UTF8FROMTYPE_loop typ (S (length src)) src 0 dst 0 len;
    store dst dp 0.

Definition PHYSFS_utf8FromUcs4 := UTF8FROMTYPE u32.
Definition PHYSFS_utf8FromUcs2 := UTF8FROMTYPE u64.
Definition PHYSFS_utf8FromLatin1 := UTF8FROMTYPE u8.

(** ** UTF-16 to UTF-8 *)

Fixpoint utf8FromUtf16_loop (fuel : nat) (src : list Z) (sp : nat)
    (dst : list Z) (dp : nat) (len : Z) : result (list Z * nat) :=
  match fuel with
  | O => OutOfFuel
  | S fuel =>
    if len =? 0 then Ok (dst, dp)
    else
      c ← load src sp;
      let cp := u32 (u16 c) in
      let sp := S sp in
      if cp =? 0 then Ok (dst, dp)
      else if (0xDC00 <=? cp) && (cp <=? 0xDFFF) then
        '(dst, dp, len) ←
          utf8fromcodepoint UNICODE_BOGUS_CHAR_CODEPOINT dst dp len;
        utf8FromUtf16_loop fuel src sp dst dp len
      else if (0xD800 <=? cp) && (cp <=? 0xDBFF) then
        c ← load src sp;
        let pair := u32 (u16 c) in
        if (pair <? 0xDC00) || (0xDFFF <? pair) then
          '(dst, dp, len) ←
            utf8fromcodepoint UNICODE_BOGUS_CHAR_CODEPOINT dst dp len;
          utf8FromUtf16_loop fuel src sp dst dp len
        else
          let sp := S sp in
          let cp := Z.lor (u32 (u32 (cp - 0xD800) ≪ 10)) (u32 (pair - 0xDC00)) in
          '(dst, dp, len) ← utf8fromcodepoint cp dst dp len;
          utf8FromUtf16_loop fuel src sp dst dp len
      else
        '(dst, dp, len) ← utf8fromcodepoint cp dst dp len;
        utf8FromUtf16_loop fuel src sp dst dp len
  end.

Definition PHYSFS_utf8FromUtf16 (src dst : list Z) (len : Z)
    : result (list Z) :=
  if len =? 0 then Ok dst
  else
    let len := u64 (len - 1) in
    '(dst, dp) ← utf8FromUtf16_loop (S (length src)) src 0 dst 0 len;
    store dst dp 0.

(** ** Case folding *)

Record CaseFoldMapping : Type := {
  from : Z;
  to0 : Z;
  to1 : Z;
  to2 : Z
}.

(** A [CaseFoldHashBucket] is the C pair of a [count] and a pointer [list]
    to an array of that many mappings; it is the [list CaseFoldMapping] of
    those [count] mappings here. *)
Definition CaseFoldHashBucket : Type := list CaseFoldMapping.

Section CaseFolding.

(** The table [case_fold_hash] comes from physfs_casefolding.h, which is
    generated data and not part of the sources at hand: it is a parameter.
    It has 256 buckets and is indexed by the 8-bit hash. *)
Variable case_fold_hash : Z -> CaseFoldHashBucket.

Fixpoint scan_bucket (from0 : Z) (mapping : list CaseFoldMapping)
    : option (Z * Z * Z) :=
  match mapping with
  | [] => None
  | m :: mapping =>
    if from m =? from0 then Some (to0 m, to1 m, to2 m)
    else scan_bucket from0 mapping
  end.

(** [locate_case_fold_mapping from0] returns the three cells of [to]. *)
Definition locate_case_fold_mapping (from0 : Z) : Z * Z * Z :=
  let hashed := u8 (Z.land (Z.lxor from0 (from0 ≫ 8)) 0xFF) in
  let bucket := case_fold_hash hashed in
  match scan_bucket from0 bucket with
  | Some to => to
  | None => (from0, 0, 0)
  end.

Definition utf8codepointcmp (cp1 cp2 : Z) : Z :=
  if cp1 =? cp2 then 0
  else
    let '(f10, f11, f12) := locate_case_fold_mapping cp1 in
    let '(f20, f21, f22) := locate_case_fold_mapping cp2 in
    if f10 <? f20 then -1
    else if f20 <? f10 then 1
    else if f11 <? f21 then -1
    else if f21 <? f11 then 1
    else if f12 <? f22 then -1
    else if f22 <? f12 then 1
    else 0.

Fixpoint utf8stricmp_loop (fuel : nat) (str1 : list Z) (p1 : nat)
    (str2 : list Z) (p2 : nat) : result Z :=
  match fuel with
  | O => OutOfFuel
  | S fuel =>
    '(cp1, p1) ← utf8codepoint str1 p1;
    '(cp2, p2) ← utf8codepoint str2 p2;
    let rc := utf8codepointcmp cp1 cp2 in
    if negb (rc =? 0) then Ok rc
    else if cp1 =? 0 then Ok 0
    else utf8stricmp_loop fuel str1 p1 str2 p2
  end.

Definition __PHYSFS_utf8stricmp (str1 str2 : list Z) : result Z :=
  utf8stricmp_loop (S (length str1)) str1 0 str2 0.

(** The bound [n] of [__PHYSFS_utf8strnicmp] is the loop counter itself. *)
Fixpoint utf8strnicmp_loop (n : nat) (str1 : list Z) (p1 : nat)
    (str2 : list Z) (p2 : nat) : result Z :=
  match n with
  | O => Ok 0
  | S n =>
    '(cp1, p1) ← utf8codepoint str1 p1;
    '(cp2, p2) ← utf8codepoint str2 p2;
    let rc := utf8codepointcmp cp1 cp2 in
    if negb (rc =? 0) then Ok rc
    else if cp1 =? 0 then Ok 0
    else utf8strnicmp_loop n str1 p1 str2 p2
  end.

Definition __PHYSFS_utf8strnicmp (str1 str2 : list Z) (n : Z) : result Z :=
  utf8strnicmp_loop (Z.to_nat (u32 n)) str1 0 str2 0.

(** What the specification says of the comparators: a decoded sentinel is
    replaced by the placeholder before it is compared. *)
Definition placeholder_for_bogus (cp : Z) : Z :=
  if cp =? UNICODE_BOGUS_CHAR_VALUE then UNICODE_BOGUS_CHAR_CODEPOINT else cp.

Fixpoint spec_stricmp_loop (fuel : nat) (str1 : list Z) (p1 : nat)
    (str2 : list Z) (p2 : nat) : result Z :=
  match fuel with
  | O => OutOfFuel
  | S fuel =>
    '(cp1, p1) ← utf8codepoint str1 p1;
    '(cp2, p2) ← utf8codepoint str2 p2;
    let cp1 := placeholder_for_bogus cp1 in
    let cp2 := placeholder_for_bogus cp2 in
    let rc := utf8codepointcmp cp1 cp2 in
    if negb (rc =? 0) then Ok rc
    else if cp1 =? 0 then Ok 0
    else spec_stricmp_loop fuel str1 p1 str2 p2
  end.

Definition spec_stricmp (str1 str2 : list Z) : result Z :=
  spec_stricmp_loop (S (length str1)) str1 0 str2 0.

(** No mapping of the table is from, or starts with, the terminator 0. *)
Definition nul_free_table : Prop :=
  forall h m, m ∈ case_fold_hash h -> from m <> 0 /\ to0 m <> 0.

End CaseFolding.

(** ** ASCII-only comparison

    Whether [char] is signed is the choice of the C implementation: the
    comparators take it as the parameter [char_signed]. *)

Definition s8 (x : Z) : Z :=
  let y := u8 x in if y <? 128 then y else y - 256.

(** The value of a byte, or of an [int], converted to [char]. *)
Definition char_value (char_signed : bool) (x : Z) : Z :=
  if char_signed then s8 x else u8 x.

(** [((ch >= 'A') && (ch <= 'Z')) ? (ch+32) : ch], converted to [char]. *)
Definition ascii_lower (char_signed : bool) (ch : Z) : Z :=
  if (65 <=? ch) && (ch <=? 90) then char_value char_signed (ch + 32) else ch.

Fixpoint stricmpASCII_loop (char_signed : bool) (fuel : nat)
    (str1 : list Z) (p1 : nat) (str2 : list Z) (p2 : nat) : result Z :=
  match fuel with
  | O => OutOfFuel
  | S fuel =>
    c ← load str1 p1;
    let ch1 := char_value char_signed c in
    let p1 := S p1 in
    c ← load str2 p2;
    let ch2 := char_value char_signed c in
    let p2 := S p2 in
    let cp1 := ascii_lower char_signed ch1 in
    let cp2 := ascii_lower char_signed ch2 in
    if cp1 <? cp2 then Ok (-1)
    else if cp2 <? cp1 then Ok 1
    else if cp1 =? 0 then Ok 0
    else stricmpASCII_loop char_signed fuel str1 p1 str2 p2
  end.

Definition __PHYSFS_stricmpASCII (char_signed : bool) (str1 str2 : list Z)
    : result Z :=
  stricmpASCII_loop char_signed (S (length str1)) str1 0 str2 0.

(** The counter [n] of [while (n-- > 0)] is the bound of the loop. *)
Fixpoint strnicmpASCII_loop (char_signed : bool) (n : nat)
    (str1 : list Z) (p1 : nat) (str2 : list Z) (p2 : nat) : result Z :=
  match n with
  | O => Ok 0
  | S n =>
    c ← load str1 p1;
    let ch1 := char_value char_signed c in
    let p1 := S p1 in
    c ← load str2 p2;
    let ch2 := char_value char_signed c in
    let p2 := S p2 in
    let cp1 := ascii_lower char_signed ch1 in
    let cp2 := ascii_lower char_signed ch2 in
    if cp1 <? cp2 then Ok (-1)
    else if cp2 <? cp1 then Ok 1
    else if cp1 =? 0 then Ok 0
    else strnicmpASCII_loop char_signed n str1 p1 str2 p2
  end.

Definition __PHYSFS_strnicmpASCII (char_signed : bool) (str1 str2 : list Z)
    (n : Z) : result Z :=
  strnicmpASCII_loop char_signed (Z.to_nat (u32 n)) str1 0 str2 0.

(** Modelled from the spec: the data of physfs_casefolding.h is missing; this
    is a small table in the format of section 3 (CaseFoldEntry, buckets keyed
    by [(cp ^ (cp >> 8)) & 0xFF]), with the entries for 'A' (to 'a') and for
    U+00DF (to "ss").  The examples run on it; the theorems hold for every
    table. *)
Definition sample_fold_hash (hashed : Z) : CaseFoldHashBucket :=
  if hashed =? 0x41 then [ {| from := 0x41; to0 := 0x61; to1 := 0; to2 := 0 |} ]
  else if hashed =? 0xDF then
    [ {| from := 0xDF; to0 := 0x73; to1 := 0x73; to2 := 0 |} ]
  else [].

(** ** Notions the properties are stated with *)

(** The buffer [s] holds the bytes [bs] from position [p] on. *)
Definition holds_at (s : list Z) (p : nat) (bs : list Z) : Prop :=
  take (length bs) (drop p s) = bs.

(** The value a two-, three- or four-octet form carries, by the table of
    rfc3629 quoted at the head of physfs_unicode.c. *)
Definition payload2 (l c1 : Z) : Z := (l - 0xC0) * 64 + (c1 - 0x80).
Definition payload3 (l c1 c2 : Z) : Z :=
  (l - 0xE0) * 4096 + (c1 - 0x80) * 64 + (c2 - 0x80).
Definition payload4 (l c1 c2 c3 : Z) : Z :=
  (l - 0xF0) * 262144 + (c1 - 0x80) * 4096 + (c2 - 0x80) * 64 + (c3 - 0x80).

(** A well-formed two-, three- or four-octet form whose value is below the
    least value that needs that many octets. *)
Inductive overlong : list Z -> Prop :=
  | overlong2 (l c1 : Z) :
      0xC0 <= l <= 0xDF -> 0x80 <= c1 <= 0xBF ->
      payload2 l c1 < 0x80 -> overlong [l; c1]
  | overlong3 (l c1 c2 : Z) :
      0xE0 <= l <= 0xEF -> 0x80 <= c1 <= 0xBF -> 0x80 <= c2 <= 0xBF ->
      payload3 l c1 c2 < 0x800 -> overlong [l; c1; c2]
  | overlong4 (l c1 c2 c3 : Z) :
      0xF0 <= l <= 0xF7 ->
      0x80 <= c1 <= 0xBF -> 0x80 <= c2 <= 0xBF -> 0x80 <= c3 <= 0xBF ->
      payload4 l c1 c2 c3 < 0x10000 -> overlong [l; c1; c2; c3].

(** The number of bytes of the canonical form of a codepoint, by the table
    of rfc3629. *)
Definition utf8_width (cp : Z) : nat :=
  if cp <? 0x80 then 1
  else if cp <? 0x800 then 2
  else if cp <? 0x10000 then 3
  else 4.

(** The codepoints the encoder does not replace by the placeholder. *)
Definition encodable (cp : Z) : Prop :=
  0 <= cp <= 0x10FFFF /\ cp <> 0xFFFE /\ cp <> 0xFFFF
  /\ surrogate_case cp = false.

(** No cell of [dst'] holds the sentinel unless it already did in [dst]. *)
Definition no_new_bogus (dst dst' : list Z) : Prop :=
  forall i : nat,
    dst' !! i = Some UNICODE_BOGUS_CHAR_VALUE ->
    dst !! i = Some UNICODE_BOGUS_CHAR_VALUE.

(** [check_below f n] checks [f] on every value from 0 below [n]; it settles
    facts about single bytes by enumeration. *)
Fixpoint check_below (f : Z -> bool) (n : nat) : bool :=
  match n with
  | O => true
  | S n => f (Z.of_nat n) && check_below f n
  end.

(** The element at [z] of the buffer [s] is a terminator: [s], read from
    any position up to [z], is a zero-terminated string. *)
Definition terminator_at (s : list Z) (z : nat) : Prop :=
  exists c, s !! z = Some c /\ u8 c = 0.

(** The number of continuation bytes a lead byte announces, by the branches
    of [utf8codepoint]. *)
Definition continuation_count (lead : Z) : nat :=
  if lead <? 0xC0 then 0
  else if lead <? 0xE0 then 1
  else if lead <? 0xF0 then 2
  else if lead <? 0xF8 then 3
  else if lead <? 0xFC then 4
  else 5.

(** The bytes of the canonical UTF-8 form of a scalar value, by the table of
    rfc3629. *)
Definition utf8_bytes (cp : Z) : list Z :=
  if cp <? 0x80 then [cp]
  else if cp <? 0x800 then [0xC0 + cp / 64; 0x80 + cp mod 64]
  else if cp <? 0x10000 then
    [0xE0 + cp / 4096; 0x80 + (cp / 64) mod 64; 0x80 + cp mod 64]
  else
    [0xF0 + cp / 262144; 0x80 + (cp / 4096) mod 64; 0x80 + (cp / 64) mod 64;
     0x80 + cp mod 64].

(** The value the encoder encodes in place of [cp]: the placeholder for a
    value beyond 0x10FFFF, for 0xFFFE and 0xFFFF and for the seven values of
    [surrogate_case]. *)
Definition encoded_codepoint (cp : Z) : Z :=
  if (0x10FFFF <? cp) || (cp =? 0xFFFE) || (cp =? 0xFFFF) || surrogate_case cp
  then UNICODE_BOGUS_CHAR_CODEPOINT
  else cp.

(** The UTF-8 text of a sequence of codepoints. *)
Fixpoint utf8_string (cps : list Z) : list Z :=
  match cps with
  | [] => []
  | cp :: cps => utf8_bytes (encoded_codepoint cp) ++ utf8_string cps
  end.

(** The longest prefix of [cps] whose UTF-8 text takes at most [room]
    bytes. *)
Fixpoint fitting (cps : list Z) (room : Z) : list Z :=
  match cps with
  | [] => []
  | cp :: cps =>
    let w := Z.of_nat (length (utf8_bytes (encoded_codepoint cp))) in
    if w <=? room then cp :: fitting cps (room - w) else []
  end.

(** The buffer [dst] with the elements [bs] written from position [dp]. *)
Definition write_at (dst : list Z) (dp : nat) (bs : list Z) : list Z :=
  take dp dst ++ bs ++ drop (dp + length bs) dst.

(** The UCS-2 element of a codepoint: the placeholder for a codepoint
    beyond 0xFFFF. *)
Definition ucs2_unit (cp : Z) : Z :=
  if 0xFFFF <? cp then UNICODE_BOGUS_CHAR_CODEPOINT else cp.

(** The UTF-16 elements of a scalar value: itself, or the surrogate pair of
    a value beyond 0xFFFF. *)
Definition utf16_units (cp : Z) : list Z :=
  if 0xFFFF <? cp then
    [0xD800 + (cp - 0x10000) / 1024; 0xDC00 + (cp - 0x10000) mod 1024]
  else [cp].

Fixpoint utf16_string (cps : list Z) : list Z :=
  match cps with
  | [] => []
  | cp :: cps => utf16_units cp ++ utf16_string cps
  end.

(** The longest prefix of [cps] whose UTF-16 elements number at most
    [room]. *)
Fixpoint fitting16 (cps : list Z) (room : Z) : list Z :=
  match cps with
  | [] => []
  | cp :: cps =>
    let w := Z.of_nat (length (utf16_units cp)) in
    if w <=? room then cp :: fitting16 cps (room - w) else []
  end.

(** The codepoints [PHYSFS_utf8FromUtf16] makes of a sequence of nonzero
    UTF-16 elements, by the branches of its loop: a low surrogate met
    alone, and a high surrogate not followed by a low one, give the
    placeholder; a high surrogate followed by a low one gives
    [((hi - 0xD800) << 10) | (lo - 0xDC00)], as the code combines them (a
    value up to 0xFFFFF: the code does not add 0x10000); any other element
    gives itself. *)
Fixpoint utf16_codepoints (units : list Z) : list Z :=
  match units with
  | [] => []
  | u :: rest =>
    if (0xDC00 <=? u) && (u <=? 0xDFFF) then
      UNICODE_BOGUS_CHAR_CODEPOINT :: utf16_codepoints rest
    else if (0xD800 <=? u) && (u <=? 0xDBFF) then
      match rest with
      | lo :: rest' =>
        if (0xDC00 <=? lo) && (lo <=? 0xDFFF) then
          ((u - 0xD800) * 1024 + (lo - 0xDC00)) :: utf16_codepoints rest'
        else UNICODE_BOGUS_CHAR_CODEPOINT :: utf16_codepoints rest
      | [] => [UNICODE_BOGUS_CHAR_CODEPOINT]
      end
    else u :: utf16_codepoints rest
  end.


(** The characters of the zero-terminated string at the head of a buffer,
    lowered by [ascii_lower], without the terminator. *)
Fixpoint lowered_text (char_signed : bool) (s : list Z) : list Z :=
  match s with
  | [] => []
  | c :: s =>
    if u8 c =? 0 then []
    else ascii_lower char_signed (char_value char_signed c)
         :: lowered_text char_signed s
  end.

(** The order of two texts of nonzero characters, each followed by its
    terminator 0: -1, 0 or 1 by the first position where they differ. *)
Fixpoint text_order (xs ys : list Z) : Z :=
  match xs, ys with
  | [], [] => 0
  | [], y :: _ => if 0 <? y then -1 else 1
  | x :: _, [] => if x <? 0 then -1 else 1
  | x :: xs, y :: ys =>
    if x <? y then -1 else if y <? x then 1 else text_order xs ys
  end.

(** [text_order xs ys] is settled by the first characters. *)
Definition settled_at_head (xs ys : list Z) : Prop :=
  match xs, ys with
  | x :: _, y :: _ => x <> y
  | _, _ => True
  end.

(** [dst'] is [dst] with a zero-terminated string written in its first
    [cap] elements and nothing changed from element [cap] on. *)
Definition string_written_within (dst dst' : list Z) (cap : nat) : Prop :=
  length dst' = length dst
  /\ (forall i : nat, (cap <= i)%nat -> dst' !! i = dst !! i)
  /\ exists k : nat, (k < cap)%nat /\ dst' !! k = Some 0.

(** What a loop of a transcoder from UTF-8 leaves: the buffer keeps its
    length, the write pointer [dp'] has moved forward by at most [room]
    elements, and nothing is changed from [dp'] on. *)
Definition loop_written (dst : list Z) (dp : nat) (room : Z)
    (r : result (list Z * nat)) : Prop :=
  exists dst' dp',
    r = Ok (dst', dp')
    /\ length dst' = length dst
    /\ (dp <= dp')%nat /\ Z.of_nat dp' <= Z.of_nat dp + room
    /\ forall i : nat, (dp' <= i)%nat -> dst' !! i = dst !! i.

(** * Properties *)

(** ** The model on sample inputs *)

Example utf8codepoint_ascii : utf8codepoint [0x41; 0] 0 = Ok (0x41, 1%nat).
Proof. reflexivity. Qed.

Example utf8codepoint_two : utf8codepoint [0xC3; 0x9F; 0] 0 = Ok (0xDF, 2%nat).
Proof. reflexivity. Qed.

Example utf8codepoint_three :
  utf8codepoint [0xE2; 0x82; 0xAC; 0] 0 = Ok (0x20AC, 3%nat).
Proof. reflexivity. Qed.

Example utf8codepoint_four :
  utf8codepoint [0xF0; 0x9F; 0x98; 0x80; 0] 0 = Ok (0x1F600, 4%nat).
Proof. reflexivity. Qed.

Example utf8codepoint_truncated :
  utf8codepoint [0xE2; 0x82; 0] 0 = Ok (UNICODE_BOGUS_CHAR_VALUE, 1%nat).
Proof. reflexivity. Qed.

Example utf8ToUcs4_hi :
  PHYSFS_utf8ToUcs4 [0x68; 0x69; 0] [7; 7; 7; 7] 16 = Ok [0x68; 0x69; 0; 7].
Proof. reflexivity. Qed.

Example utf8ToUtf16_emoji :
  PHYSFS_utf8ToUtf16 [0xF0; 0x9F; 0x98; 0x80; 0] [7; 7; 7; 7] 8
  = Ok [0xD83D; 0xDE00; 0; 7].
Proof. reflexivity. Qed.

Example utf8FromUcs4_euro :
  PHYSFS_utf8FromUcs4 [0x20AC; 0] [7; 7; 7; 7; 7] 5 = Ok [0xE2; 0x82; 0xAC; 0; 7].
Proof. reflexivity. Qed.

Example utf8FromLatin1_truncates :
  PHYSFS_utf8FromLatin1 [0x41; 0xE9; 0] [7; 7; 7] 3 = Ok [0x41; 0; 7].
Proof. reflexivity. Qed.

Example stricmp_Ab_aB :
  __PHYSFS_utf8stricmp sample_fold_hash [0x41; 0x62; 0] [0x61; 0x62; 0] = Ok 0.
Proof. reflexivity. Qed.

Example stricmp_a_b :
  __PHYSFS_utf8stricmp sample_fold_hash [0x61; 0] [0x62; 0] = Ok (-1).
Proof. reflexivity. Qed.

Example strnicmp_prefix :
  __PHYSFS_utf8strnicmp sample_fold_hash [0x61; 0x62; 0] [0x61; 0x63; 0] 1 = Ok 0.
Proof. reflexivity. Qed.

(** ** Buffers *)

Lemma load_Some (m : list Z) (i : nat) (v : Z) :
  m !! i = Some v -> load m i = Ok v.
Proof. intros H. unfold load. by rewrite H. Qed.

Lemma load_Ok_lt (m : list Z) (i : nat) (v : Z) :
  load m i = Ok v -> (i < length m)%nat.
Proof.
  unfold load. destruct (m !! i) eqn:E; [|discriminate].
  intros _. eapply lookup_lt_Some; eauto.
Qed.

Lemma load_not_OutOfFuel (m : list Z) (i : nat) : load m i <> OutOfFuel.
Proof. unfold load. by destruct (m !! i). Qed.

Lemma load_ge (m : list Z) (i : nat) :
  (length m <= i)%nat -> load m i = OutOfBounds.
Proof. intros H. unfold load. by rewrite lookup_ge_None_2. Qed.

Lemma store_lt (m : list Z) (i : nat) (v : Z) :
  (i < length m)%nat -> store m i v = Ok (<[i:=v]> m).
Proof. intros H. unfold store. by rewrite decide_True. Qed.

Lemma store_Ok (m m' : list Z) (i : nat) (v : Z) :
  store m i v = Ok m' -> (i < length m)%nat /\ m' = <[i:=v]> m.
Proof. unfold store. case_decide; [|discriminate]. by intros [= <-]. Qed.

Lemma store_not_OutOfFuel (m : list Z) (i : nat) (v : Z) :
  store m i v <> OutOfFuel.
Proof. unfold store. by case_decide. Qed.

(** ** Machine integers and bit operations *)

Lemma u8_range (x : Z) : 0 <= u8 x < 256.
Proof. unfold u8. apply Z.mod_pos_bound. lia. Qed.

Lemma u8_small (x : Z) : 0 <= x < 256 -> u8 x = x.
Proof. intros H. unfold u8. apply Z.mod_small. lia. Qed.

Lemma u16_small (x : Z) : 0 <= x < 65536 -> u16 x = x.
Proof. intros H. unfold u16. apply Z.mod_small. lia. Qed.

Lemma u32_small (x : Z) : 0 <= x < 4294967296 -> u32 x = x.
Proof. intros H. unfold u32. apply Z.mod_small. lia. Qed.

Lemma u64_small (x : Z) : 0 <= x < 18446744073709551616 -> u64 x = x.
Proof. intros H. unfold u64. apply Z.mod_small. lia. Qed.

Lemma check_below_spec (f : Z -> bool) (n : nat) :
  check_below f n = true -> forall x, 0 <= x < Z.of_nat n -> f x = true.
Proof.
  induction n as [|n IH]; simpl; intros H x Hx; [lia|].
  apply andb_true_iff in H as [H1 H2].
  destruct (Z.eq_dec x (Z.of_nat n)) as [->|Hne]; [done|].
  apply IH; [done|lia].
Qed.

Lemma byte_continuation (x : Z) :
  0 <= x < 256 -> not_continuation x = negb ((128 <=? x) && (x <? 192)).
Proof.
  intros Hx.
  pose proof (check_below_spec
    (fun x => eqb (not_continuation x) (negb ((128 <=? x) && (x <? 192))))
    256 eq_refl x Hx) as H.
  by apply eqb_prop in H.
Qed.

Lemma lor_disjoint (hi lo k : Z) :
  0 <= k -> 0 <= lo < 2 ^ k -> Z.lor (hi * 2 ^ k) lo = hi * 2 ^ k + lo.
Proof.
  intros Hk Hlo. symmetry. apply Z.add_nocarry_lor.
  apply Z.bits_inj'. intros n Hn.
  rewrite Z.land_spec, Z.bits_0.
  destruct (Z.lt_ge_cases n k) as [Hlt|Hge].
  - rewrite Z.mul_pow2_bits_low by lia. done.
  - destruct (Z.eq_dec lo 0) as [->|Hne].
    + rewrite Z.bits_0. apply andb_false_r.
    + rewrite (Z.bits_above_log2 lo n); [apply andb_false_r|lia|].
      apply Z.log2_lt_pow2; [lia|].
      apply Z.lt_le_trans with (2 ^ k); [lia|].
      apply Z.pow_le_mono_r; lia.
Qed.

Lemma lor_shiftl (hi lo k : Z) :
  0 <= k -> 0 <= lo < 2 ^ k -> Z.lor (hi ≪ k) lo = hi * 2 ^ k + lo.
Proof. intros. rewrite Z.shiftl_mul_pow2 by done. by apply lor_disjoint. Qed.

Lemma land_low_bits (x k : Z) : 0 <= k -> Z.land x (Z.ones k) = x mod 2 ^ k.
Proof. apply Z.land_ones. Qed.

Lemma land_0x3F (x : Z) : Z.land x 0x3F = x mod 64.
Proof. apply (land_low_bits x 6). lia. Qed.

Lemma land_0x3FF (x : Z) : Z.land x 0x3FF = x mod 1024.
Proof. apply (land_low_bits x 10). lia. Qed.

(** ** Reading a known byte sequence *)

Lemma holds_at_load (s : list Z) (p : nat) (bs : list Z) (i : nat) (b : Z) :
  holds_at s p bs -> bs !! i = Some b -> load s (i + p) = Ok b.
Proof.
  intros H Hi. apply load_Some.
  rewrite <- H in Hi. apply lookup_take_Some in Hi as [Hi _].
  rewrite lookup_drop in Hi. by rewrite Nat.add_comm.
Qed.

(** Rewrites the loads of the bytes that [H : holds_at s p bs] names. *)
Ltac load_byte H i :=
  let E := fresh "E" in
  pose proof (holds_at_load _ _ _ i _ H eq_refl) as E;
  simpl Nat.add in E; rewrite E; clear E.

Ltac load_known H :=
  repeat first
    [ load_byte H 0%nat | load_byte H 1%nat | load_byte H 2%nat
    | load_byte H 3%nat | load_byte H 4%nat | load_byte H 5%nat ];
  cbn [mbind result_bind].

(** Decides the integer tests of the goal from the hypotheses. *)
Ltac ztest :=
  repeat match goal with
  | |- context [?a =? ?b] =>
    first [ rewrite (proj2 (Z.eqb_eq a b)) by lia
          | rewrite (proj2 (Z.eqb_neq a b)) by lia ]
  | |- context [?a <? ?b] =>
    first [ rewrite (proj2 (Z.ltb_lt a b)) by lia
          | rewrite (proj2 (Z.ltb_ge a b)) by lia ]
  | |- context [?a <=? ?b] =>
    first [ rewrite (proj2 (Z.leb_le a b)) by lia
          | rewrite (proj2 (Z.leb_gt a b)) by lia ]
  end; cbn [andb orb negb].

Lemma utf8codepoint_five_octets (s : list Z) (p : nat) (l c1 c2 c3 c4 : Z) :
  holds_at s p [l; c1; c2; c3; c4] ->
  0xF8 <= l <= 0xFB ->
  0x80 <= c1 <= 0xBF -> 0x80 <= c2 <= 0xBF ->
  0x80 <= c3 <= 0xBF -> 0x80 <= c4 <= 0xBF ->
  utf8codepoint s p = Ok (UNICODE_BOGUS_CHAR_VALUE, (p + 5)%nat).
Proof.
  intros H Hl H1 H2 H3 H4. unfold utf8codepoint.
  load_known H.
  rewrite !u8_small, !byte_continuation by lia. ztest.
  do 2 f_equal. lia.
Qed.

Lemma utf8codepoint_six_octets (s : list Z) (p : nat) (l c1 c2 c3 c4 c5 : Z) :
  holds_at s p [l; c1; c2; c3; c4; c5] ->
  0xFC <= l <= 0xFF ->
  0x80 <= c1 <= 0xBF -> 0x80 <= c2 <= 0xBF -> 0x80 <= c3 <= 0xBF ->
  0x80 <= c4 <= 0xBF -> 0x80 <= c5 <= 0xBF ->
  utf8codepoint s p = Ok (UNICODE_BOGUS_CHAR_VALUE, (p + 7)%nat).
Proof.
  intros H Hl H1 H2 H3 H4 H5. unfold utf8codepoint.
  load_known H.
  rewrite !u8_small, !byte_continuation by lia. ztest.
  do 2 f_equal. lia.
Qed.

(** ** The decoder on the two-, three- and four-octet forms *)

Lemma utf8codepoint_two_octets (s : list Z) (p : nat) (l c1 : Z) :
  holds_at s p [l; c1] ->
  0xC0 <= l <= 0xDF -> 0x80 <= c1 <= 0xBF ->
  utf8codepoint s p =
    Ok (let v := payload2 l c1 in
        if (0x80 <=? v) && (v <=? 0x7FF) then v else UNICODE_BOGUS_CHAR_VALUE,
        (p + 2)%nat).
Proof.
  intros H Hl H1. unfold utf8codepoint.
  load_known H.
  rewrite !u8_small, !byte_continuation by lia. ztest.
  rewrite (u32_small (l - _)), (u32_small (c1 - _)) by lia.
  rewrite Z.shiftl_mul_pow2, u32_small, (lor_disjoint _ _ 6) by lia.
  replace (S p + 1)%nat with (p + 2)%nat by lia.
  replace ((l - (128 + 64)) * 2 ^ 6 + (c1 - 128)) with (payload2 l c1)
    by (unfold payload2; lia).
  simpl. by destruct (_ && _).
Qed.

Lemma utf8codepoint_three_octets (s : list Z) (p : nat) (l c1 c2 : Z) :
  holds_at s p [l; c1; c2] ->
  0xE0 <= l <= 0xEF -> 0x80 <= c1 <= 0xBF -> 0x80 <= c2 <= 0xBF ->
  utf8codepoint s p =
    Ok (let v := payload3 l c1 c2 in
        if surrogate_case v then UNICODE_BOGUS_CHAR_VALUE
        else if (0x800 <=? v) && (v <=? 0xFFFD) then v
        else UNICODE_BOGUS_CHAR_VALUE,
        (p + 3)%nat).
Proof.
  intros H Hl H1 H2. unfold utf8codepoint.
  load_known H.
  rewrite !u8_small, !byte_continuation by lia. ztest.
  rewrite (u32_small (l - _)), (u32_small (c1 - _)), (u32_small (c2 - _))
    by lia.
  rewrite !Z.shiftl_mul_pow2, !u32_small by lia.
  rewrite (lor_disjoint _ _ 12) by lia.
  replace ((l - (128 + 64 + 32)) * 2 ^ 12 + (c1 - 128) * 2 ^ 6)
    with (((l - 224) * 64 + (c1 - 128)) * 2 ^ 6) by lia.
  rewrite (lor_disjoint _ _ 6) by lia.
  replace (S p + 2)%nat with (p + 3)%nat by lia.
  replace (((l - 224) * 64 + (c1 - 128)) * 2 ^ 6 + (c2 - 128))
    with (payload3 l c1 c2) by (unfold payload3; lia).
  simpl. destruct (surrogate_case _); [done|]. by destruct (_ && _).
Qed.

Lemma utf8codepoint_four_octets (s : list Z) (p : nat) (l c1 c2 c3 : Z) :
  holds_at s p [l; c1; c2; c3] ->
  0xF0 <= l <= 0xF7 ->
  0x80 <= c1 <= 0xBF -> 0x80 <= c2 <= 0xBF -> 0x80 <= c3 <= 0xBF ->
  utf8codepoint s p =
    Ok (let v := payload4 l c1 c2 c3 in
        if (0x10000 <=? v) && (v <=? 0x10FFFF) then v
        else UNICODE_BOGUS_CHAR_VALUE,
        (p + 4)%nat).
Proof.
  intros H Hl H1 H2 H3. unfold utf8codepoint.
  load_known H.
  rewrite !u8_small, !byte_continuation by lia. ztest.
  rewrite (u32_small (l - _)), (u32_small (c1 - _)), (u32_small (c2 - _)),
    (u32_small (c3 - _)) by lia.
  rewrite !Z.shiftl_mul_pow2, !u32_small by lia.
  rewrite (lor_disjoint _ _ 18) by lia.
  replace ((l - (128 + 64 + 32 + 16)) * 2 ^ 18 + (c1 - 128) * 2 ^ 12)
    with (((l - 240) * 64 + (c1 - 128)) * 2 ^ 12) by lia.
  rewrite (lor_disjoint _ _ 12) by lia.
  replace (((l - 240) * 64 + (c1 - 128)) * 2 ^ 12 + (c2 - 128) * 2 ^ 6)
    with (((l - 240) * 4096 + (c1 - 128) * 64 + (c2 - 128)) * 2 ^ 6) by lia.
  rewrite (lor_disjoint _ _ 6) by lia.
  replace (S p + 3)%nat with (p + 4)%nat by lia.
  replace (((l - 240) * 4096 + (c1 - 128) * 64 + (c2 - 128)) * 2 ^ 6
           + (c3 - 128))
    with (payload4 l c1 c2 c3) by (unfold payload4; lia).
  simpl. by destruct (_ && _).
Qed.

(** ** Progress of the decoder *)

(** Turns the boolean tests among the hypotheses into (in)equalities. *)
Ltac zbool_hyps :=
  repeat match goal with
  | H : (_ && _) = true |- _ => apply andb_true_iff in H as [? ?]
  | H : (_ || _) = false |- _ => apply orb_false_iff in H as [? ?]
  | H : negb _ = true |- _ => apply negb_true_iff in H
  | H : negb _ = false |- _ => apply negb_false_iff in H
  | H : (_ =? _) = true |- _ => apply Z.eqb_eq in H
  | H : (_ =? _) = false |- _ => apply Z.eqb_neq in H
  | H : (_ <? _) = true |- _ => apply Z.ltb_lt in H
  | H : (_ <? _) = false |- _ => apply Z.ltb_ge in H
  | H : (_ <=? _) = true |- _ => apply Z.leb_le in H
  | H : (_ <=? _) = false |- _ => apply Z.leb_gt in H
  end.

(** Splits the hypothesis [H], a run of the decoder, into its paths. *)
Ltac decoder_paths H :=
  repeat match type of H with
  | (load ?s ?q ≫= _) = _ =>
    destruct (load s q) eqn:?; cbn [mbind result_bind] in H;
    try discriminate H
  | (if ?b then _ else _) = _ => destruct b eqn:?
  end.

Lemma utf8codepoint_not_OutOfFuel (s : list Z) (p : nat) :
  utf8codepoint s p <> OutOfFuel.
Proof.
  intros H. unfold utf8codepoint in H.
  repeat match type of H with
  | (load ?s ?q ≫= _) = _ =>
    let E := fresh "E" in
    destruct (load s q) eqn:E; cbn [mbind result_bind] in H;
    [ | discriminate H | by apply load_not_OutOfFuel in E ]
  | (if ?b then _ else _) = _ => destruct b
  end; discriminate H.
Qed.

(** A successful decode reads inside the buffer; it returns 0 without
    moving, or a nonzero value with the cursor moved forward by one to seven
    bytes. *)
Lemma utf8codepoint_progress (s : list Z) (p : nat) (cp : Z) (p' : nat) :
  utf8codepoint s p = Ok (cp, p') ->
  (p < length s)%nat
  /\ ((cp = 0 /\ p' = p) \/ (cp <> 0 /\ (p < p' <= p + 7)%nat)).
Proof.
  unfold utf8codepoint. intros H.
  destruct (load s p) as [c| |] eqn:E0; cbn [mbind result_bind] in H;
    try discriminate H.
  split; [by eapply load_Ok_lt|].
  decoder_paths H; injection H as <- <-; zbool_hyps;
    unfold UNICODE_BOGUS_CHAR_VALUE; first [left; split; lia | right; split; lia].
Qed.

(** ** The decoder at the terminator *)

(** C10. When the cursor is on a zero byte, [utf8codepoint] returns 0 and
    leaves the cursor where it is; decoding again any number of times from
    there keeps returning 0 at the same position. *)
Theorem utf8codepoint_terminator_fixed (s : list Z) (p : nat) (c : Z) :
  s !! p = Some c -> u8 c = 0 ->
  utf8codepoint s p = Ok (0, p)
  /\ forall n : nat,
       Nat.iter n (fun r => '(_, q) ← r; utf8codepoint s q) (utf8codepoint s p)
       = Ok (0, p).
Proof.
  intros Hc H0.
  assert (Hstep : utf8codepoint s p = Ok (0, p)).
  { unfold utf8codepoint. rewrite (load_Some _ _ _ Hc).
    cbn [mbind result_bind]. by rewrite H0. }
  split; [done|].
  induction n as [|n IH]; simpl; [done|].
  rewrite IH. exact Hstep.
Qed.

Lemma utf8codepoint_terminator_fixed_witness :
  utf8codepoint [0x41; 0] 1 = Ok (0, 1%nat)
  /\ forall n : nat,
       Nat.iter n (fun r => '(_, q) ← r; utf8codepoint [0x41; 0] q)
         (utf8codepoint [0x41; 0] 1)
       = Ok (0, 1%nat).
Proof. apply (utf8codepoint_terminator_fixed [0x41; 0] 1 0); reflexivity. Defined.

(** ** U+FFFE and U+FFFF *)

(** C2, as stated, fails: the well-formed encodings of U+FFFE and U+FFFF
    decode to the sentinel, not to those codepoints. *)
Lemma utf8codepoint_FFFE_FFFF_not_decoded :
  utf8codepoint [0xEF; 0xBF; 0xBE; 0] 0 = Ok (UNICODE_BOGUS_CHAR_VALUE, 3%nat)
  /\ utf8codepoint [0xEF; 0xBF; 0xBF; 0] 0 = Ok (UNICODE_BOGUS_CHAR_VALUE, 3%nat)
  /\ utf8codepoint [0xEF; 0xBF; 0xBE; 0] 0 <> Ok (0xFFFE, 3%nat)
  /\ utf8codepoint [0xEF; 0xBF; 0xBF; 0] 0 <> Ok (0xFFFF, 3%nat).
Proof. repeat split; (reflexivity || discriminate). Qed.

(** C2, amended. The decoder returns the sentinel for the three-byte
    encodings EF BF BE and EF BF BF of U+FFFE and U+FFFF, with the cursor
    moved past the three bytes; the encoder replaces both values by the
    placeholder.  The two values are rejected on both sides. *)
Theorem FFFE_FFFF_rejected_on_both_sides (s : list Z) (p : nat) (b : Z) :
  holds_at s p [0xEF; 0xBF; b] -> b = 0xBE \/ b = 0xBF ->
  utf8codepoint s p = Ok (UNICODE_BOGUS_CHAR_VALUE, (p + 3)%nat)
  /\ forall (cp : Z) (dst : list Z) (dp : nat) (len : Z),
       cp = 0xFFFE \/ cp = 0xFFFF ->
       utf8fromcodepoint cp dst dp len
       = utf8fromcodepoint UNICODE_BOGUS_CHAR_CODEPOINT dst dp len.
Proof.
  intros H Hb. split.
  - rewrite (utf8codepoint_three_octets s p 0xEF 0xBF b H) by lia.
    by destruct Hb as [-> | ->].
  - intros cp dst dp len [-> | ->]; reflexivity.
Qed.

Lemma FFFE_FFFF_rejected_on_both_sides_witness :
  utf8codepoint [0x41; 0xEF; 0xBF; 0xBF; 0] 1
  = Ok (UNICODE_BOGUS_CHAR_VALUE, (1 + 3)%nat)
  /\ forall (cp : Z) (dst : list Z) (dp : nat) (len : Z),
       cp = 0xFFFE \/ cp = 0xFFFF ->
       utf8fromcodepoint cp dst dp len
       = utf8fromcodepoint UNICODE_BOGUS_CHAR_CODEPOINT dst dp len.
Proof.
  apply (FFFE_FFFF_rejected_on_both_sides [0x41; 0xEF; 0xBF; 0xBF; 0] 1 0xBF).
  - reflexivity.
  - right. reflexivity.
Defined.

(** ** The obsolete five- and six-octet forms *)

(** C4 holds for the five-octet form and fails for the six-octet one: after
    the lead byte the code adds 6, not 5, so a complete six-octet form moves
    the cursor by seven bytes, one byte past the form (here past the 'A'
    that follows it). *)
Theorem utf8codepoint_six_octet_form_moves_seven :
  utf8codepoint [0xF8; 0x80; 0x80; 0x80; 0x80; 0x41; 0] 0
  = Ok (UNICODE_BOGUS_CHAR_VALUE, 5%nat)
  /\ utf8codepoint [0xFC; 0x80; 0x80; 0x80; 0x80; 0x80; 0x41; 0] 0
     = Ok (UNICODE_BOGUS_CHAR_VALUE, 7%nat).
Proof. split; reflexivity. Qed.

(** ** Overlong forms *)

(** C7. Every overlong form decodes to the sentinel (the cursor moves past
    the form), and so does every complete five- or six-octet form, whatever
    value it carries; the overlong NUL C0 80 decodes to the sentinel with
    the cursor moved by 2, and each UTF-8-source transcoder turns it into
    one output element, the placeholder, followed by the terminator. *)
Theorem overlong_decodes_to_bogus :
  (forall (s : list Z) (p : nat) (bs : list Z),
     overlong bs -> holds_at s p bs ->
     utf8codepoint s p = Ok (UNICODE_BOGUS_CHAR_VALUE, (p + length bs)%nat))
  /\ (forall (s : list Z) (p : nat) (l c1 c2 c3 c4 c5 : Z),
        0x80 <= c1 <= 0xBF -> 0x80 <= c2 <= 0xBF -> 0x80 <= c3 <= 0xBF ->
        0x80 <= c4 <= 0xBF -> 0x80 <= c5 <= 0xBF ->
        (0xF8 <= l <= 0xFB /\ holds_at s p [l; c1; c2; c3; c4])
        \/ (0xFC <= l <= 0xFF /\ holds_at s p [l; c1; c2; c3; c4; c5]) ->
        fst <$> utf8codepoint s p = Ok UNICODE_BOGUS_CHAR_VALUE)
  /\ utf8codepoint [0xC0; 0x80; 0] 0 = Ok (UNICODE_BOGUS_CHAR_VALUE, 2%nat)
  /\ PHYSFS_utf8ToUcs4 [0xC0; 0x80; 0] [7; 7; 7] 12
     = Ok [UNICODE_BOGUS_CHAR_CODEPOINT; 0; 7]
  /\ PHYSFS_utf8ToUcs2 [0xC0; 0x80; 0] [7; 7; 7] 6
     = Ok [UNICODE_BOGUS_CHAR_CODEPOINT; 0; 7]
  /\ PHYSFS_utf8ToUtf16 [0xC0; 0x80; 0] [7; 7; 7] 6
     = Ok [UNICODE_BOGUS_CHAR_CODEPOINT; 0; 7].
Proof.
  split; [|split; [|repeat split; reflexivity]].
  2:{ intros s p l c1 c2 c3 c4 c5 H1 H2 H3 H4 H5 [[Hl H]|[Hl H]].
      - by rewrite (utf8codepoint_five_octets s p l c1 c2 c3 c4).
      - by rewrite (utf8codepoint_six_octets s p l c1 c2 c3 c4 c5). }
  intros s p bs Hbs H. destruct Hbs as
    [l c1 Hl H1 Hv | l c1 c2 Hl H1 H2 Hv | l c1 c2 c3 Hl H1 H2 H3 Hv].
  - rewrite (utf8codepoint_two_octets s p l c1 H Hl H1). cbv zeta.
    by rewrite (proj2 (Z.leb_gt _ _)) by lia.
  - rewrite (utf8codepoint_three_octets s p l c1 c2 H Hl H1 H2). cbv zeta.
    unfold surrogate_case. ztest. done.
  - rewrite (utf8codepoint_four_octets s p l c1 c2 c3 H Hl H1 H2 H3). cbv zeta.
    by rewrite (proj2 (Z.leb_gt _ _)) by lia.
Qed.

Lemma overlong_decodes_to_bogus_witness :
  overlong [0xE0; 0x80; 0xAF]
  /\ utf8codepoint [0x41; 0xE0; 0x80; 0xAF; 0] 1
     = Ok (UNICODE_BOGUS_CHAR_VALUE, (1 + length [0xE0; 0x80; 0xAF])%nat)
  /\ fst <$> utf8codepoint [0xF8; 0x80; 0x80; 0x80; 0xAF; 0] 0
     = Ok UNICODE_BOGUS_CHAR_VALUE.
Proof.
  assert (Hover : overlong [0xE0; 0x80; 0xAF]).
  { apply overlong3; unfold payload3; lia. }
  split; [exact Hover|split].
  - apply (proj1 overlong_decodes_to_bogus [0x41; 0xE0; 0x80; 0xAF; 0] 1%nat
             [0xE0; 0x80; 0xAF] Hover).
    reflexivity.
  - apply (proj1 (proj2 overlong_decodes_to_bogus)
             [0xF8; 0x80; 0x80; 0x80; 0xAF; 0] 0%nat 0xF8 0x80 0x80 0x80 0xAF
             0x80); [lia..|].
    left. split; [lia|reflexivity].
Defined.

(** ** Destination capacity 0 *)

(** C1 holds for the four transcoders to UTF-8, which return at once on
    [len = 0], and fails for the three transcoders from UTF-8: their
    [len -= sizeof ...] wraps around below 0, the loop runs unbounded, and
    source characters and the terminator are written (outside the buffer
    when it really is empty). *)
Theorem zero_capacity_is_not_a_no_op_from_utf8 :
  PHYSFS_utf8ToUcs4 [0x41; 0] [7; 7] 0 = Ok [0x41; 0]
  /\ PHYSFS_utf8ToUcs2 [0x41; 0] [7; 7] 0 = Ok [0x41; 0]
  /\ PHYSFS_utf8ToUtf16 [0x41; 0] [7; 7] 0 = Ok [0x41; 0]
  /\ PHYSFS_utf8ToUcs4 [0] [7] 0 = Ok [0]
  /\ PHYSFS_utf8ToUcs4 [0x41; 0] [] 0 = OutOfBounds
  /\ (forall src dst : list Z,
        PHYSFS_utf8FromUcs4 src dst 0 = Ok dst
        /\ PHYSFS_utf8FromUcs2 src dst 0 = Ok dst
        /\ PHYSFS_utf8FromLatin1 src dst 0 = Ok dst
        /\ PHYSFS_utf8FromUtf16 src dst 0 = Ok dst).
Proof. repeat split; reflexivity. Qed.

(** ** Surrogates in UTF-16 input *)

(** C6. One turn of the loop of [PHYSFS_utf8FromUtf16] with room left:
    a high surrogate followed by a low one consumes both and encodes the
    combined value ((hi - 0xD800) << 10) | (lo - 0xDC00); a high surrogate
    followed by anything else consumes the high surrogate alone and encodes
    the placeholder; a low surrogate met on its own encodes the placeholder.
    The input D800 0041 0000 becomes "?A". *)
Theorem utf8FromUtf16_surrogates :
  (forall (fuel : nat) (src : list Z) (sp : nat) (dst : list Z) (dp : nat)
          (len hi lo : Z),
     len <> 0 -> holds_at src sp [hi; lo] ->
     0xD800 <= hi <= 0xDBFF -> 0xDC00 <= lo <= 0xDFFF ->
     utf8FromUtf16_loop (S fuel) src sp dst dp len
     = '(dst, dp, len) ←
         utf8fromcodepoint (Z.lor ((hi - 0xD800) ≪ 10) (lo - 0xDC00))
           dst dp len;
       utf8FromUtf16_loop fuel src (sp + 2) dst dp len)
  /\ (forall (fuel : nat) (src : list Z) (sp : nat) (dst : list Z) (dp : nat)
             (len hi next : Z),
        len <> 0 -> holds_at src sp [hi; next] ->
        0xD800 <= hi <= 0xDBFF ->
        0 <= next < 0xDC00 \/ 0xDFFF < next <= 0xFFFF ->
        utf8FromUtf16_loop (S fuel) src sp dst dp len
        = '(dst, dp, len) ←
            utf8fromcodepoint UNICODE_BOGUS_CHAR_CODEPOINT dst dp len;
          utf8FromUtf16_loop fuel src (sp + 1) dst dp len)
  /\ (forall (fuel : nat) (src : list Z) (sp : nat) (dst : list Z) (dp : nat)
             (len lo : Z),
        len <> 0 -> holds_at src sp [lo] ->
        0xDC00 <= lo <= 0xDFFF ->
        utf8FromUtf16_loop (S fuel) src sp dst dp len
        = '(dst, dp, len) ←
            utf8fromcodepoint UNICODE_BOGUS_CHAR_CODEPOINT dst dp len;
          utf8FromUtf16_loop fuel src (sp + 1) dst dp len)
  /\ PHYSFS_utf8FromUtf16 [0xD800; 0x41; 0] [7; 7; 7; 7] 4
     = Ok [0x3F; 0x41; 0; 7].
Proof.
  split; [|split; [|split]]; [| | |reflexivity].
  - intros fuel src sp dst dp len hi lo Hlen H Hhi Hlo.
    cbn [utf8FromUtf16_loop]. load_known H.
    rewrite !u16_small, !u32_small by lia. ztest.
    rewrite (u32_small (hi - _)), (u32_small (lo - _)) by lia.
    rewrite (u32_small (_ ≪ 10)) by (rewrite Z.shiftl_mul_pow2; lia).
    by replace (S (S sp)) with (sp + 2)%nat by lia.
  - intros fuel src sp dst dp len hi next Hlen H Hhi Hnext.
    cbn [utf8FromUtf16_loop]. load_known H.
    rewrite !u16_small, !u32_small by lia.
    destruct Hnext; ztest; by replace (S sp) with (sp + 1)%nat by lia.
  - intros fuel src sp dst dp len lo Hlen H Hlo.
    cbn [utf8FromUtf16_loop]. load_known H.
    rewrite !u16_small, !u32_small by lia. ztest.
    by replace (S sp) with (sp + 1)%nat by lia.
Qed.

Lemma utf8FromUtf16_surrogates_witness :
  utf8FromUtf16_loop 4 [0xD83D; 0xDE00; 0] 0 [7; 7; 7; 7; 7] 0 4
  = ('(dst, dp, len) ←
       utf8fromcodepoint (Z.lor ((0xD83D - 0xD800) ≪ 10) (0xDE00 - 0xDC00))
         [7; 7; 7; 7; 7] 0 4;
     utf8FromUtf16_loop 3 [0xD83D; 0xDE00; 0] (0 + 2) dst dp len)
  /\ utf8FromUtf16_loop 4 [0xD800; 0x41; 0] 0 [7; 7; 7; 7] 0 3
     = ('(dst, dp, len) ←
          utf8fromcodepoint UNICODE_BOGUS_CHAR_CODEPOINT [7; 7; 7; 7] 0 3;
        utf8FromUtf16_loop 3 [0xD800; 0x41; 0] (0 + 1) dst dp len)
  /\ utf8FromUtf16_loop 4 [0xDC00; 0x41; 0] 0 [7; 7; 7; 7] 0 3
     = ('(dst, dp, len) ←
          utf8fromcodepoint UNICODE_BOGUS_CHAR_CODEPOINT [7; 7; 7; 7] 0 3;
        utf8FromUtf16_loop 3 [0xDC00; 0x41; 0] (0 + 1) dst dp len).
Proof.
  split; [|split].
  - apply (proj1 utf8FromUtf16_surrogates 3%nat [0xD83D; 0xDE00; 0] 0%nat
             [7; 7; 7; 7; 7] 0%nat 4 0xD83D 0xDE00);
      [lia | reflexivity | lia | lia].
  - apply (proj1 (proj2 utf8FromUtf16_surrogates) 3%nat [0xD800; 0x41; 0] 0%nat
             [7; 7; 7; 7] 0%nat 3 0xD800 0x41);
      [lia | reflexivity | lia | lia].
  - apply (proj1 (proj2 (proj2 utf8FromUtf16_surrogates)) 3%nat
             [0xDC00; 0x41; 0] 0%nat [7; 7; 7; 7] 0%nat 3 0xDC00);
      [lia | reflexivity | lia].
Defined.

(** ** The encoder on the four widths *)

(** Linear arithmetic with division and remainder by constants. *)
Ltac lia_div := Z.to_euclidean_division_equations; lia.

Lemma lor_lead2 (a : Z) : 0 <= a < 32 -> Z.lor (Z.lor a 128) 64 = 0xC0 + a.
Proof.
  intros Ha. apply Z.eqb_eq.
  exact (check_below_spec (fun a => Z.lor (Z.lor a 128) 64 =? 0xC0 + a)
           32 eq_refl a Ha).
Qed.

Lemma lor_lead3 (a : Z) :
  0 <= a < 16 -> Z.lor (Z.lor (Z.lor a 128) 64) 32 = 0xE0 + a.
Proof.
  intros Ha. apply Z.eqb_eq.
  exact (check_below_spec
           (fun a => Z.lor (Z.lor (Z.lor a 128) 64) 32 =? 0xE0 + a)
           16 eq_refl a Ha).
Qed.

Lemma lor_lead4 (a : Z) :
  0 <= a < 8 -> Z.lor (Z.lor (Z.lor (Z.lor a 128) 64) 32) 16 = 0xF0 + a.
Proof.
  intros Ha. apply Z.eqb_eq.
  exact (check_below_spec
           (fun a => Z.lor (Z.lor (Z.lor (Z.lor a 128) 64) 32) 16 =? 0xF0 + a)
           8 eq_refl a Ha).
Qed.

Lemma lor_continuation (a : Z) : 0 <= a < 64 -> Z.lor a 128 = 0x80 + a.
Proof.
  intros Ha. apply Z.eqb_eq.
  exact (check_below_spec (fun a => Z.lor a 128 =? 0x80 + a) 64 eq_refl a Ha).
Qed.

(** The byte [(char) (x & 0x3F) | 128] of the encoder. *)
Lemma continuation_byte (x : Z) :
  u8 (Z.lor (u8 (Z.land x 0x3F)) 128) = 0x80 + x mod 64.
Proof.
  rewrite land_0x3F.
  rewrite (u8_small (x mod 64)) by lia_div.
  rewrite lor_continuation by lia_div.
  apply u8_small. lia_div.
Qed.

Lemma utf8fromcodepoint_one (cp : Z) (dst : list Z) (dp : nat) (len : Z) :
  0 <= cp < 0x80 -> 1 <= len < 2 ^ 64 -> (dp < length dst)%nat ->
  utf8fromcodepoint cp dst dp len = Ok (<[dp:=cp]> dst, S dp, len - 1).
Proof.
  intros Hcp Hlen Hdp. unfold utf8fromcodepoint, surrogate_case.
  ztest. cbv zeta. ztest.
  rewrite store_lt by done. cbn [mbind result_bind].
  by rewrite u8_small, u64_small by lia.
Qed.

Lemma utf8fromcodepoint_two (cp : Z) (dst : list Z) (dp : nat) (len : Z) :
  0x80 <= cp < 0x800 -> 2 <= len < 2 ^ 64 -> (dp + 1 < length dst)%nat ->
  utf8fromcodepoint cp dst dp len
  = Ok (<[(dp + 1)%nat:=0x80 + cp mod 64]> (<[dp:=0xC0 + cp / 64]> dst),
        (dp + 2)%nat, len - 2).
Proof.
  intros Hcp Hlen Hdp. unfold utf8fromcodepoint, surrogate_case.
  ztest. cbv zeta. ztest.
  rewrite continuation_byte.
  rewrite Z.shiftr_div_pow2 by lia. change (2 ^ 6) with 64.
  rewrite lor_lead2, u8_small by lia_div.
  rewrite store_lt by lia. cbn [mbind result_bind].
  rewrite store_lt by (rewrite length_insert; lia). cbn [mbind result_bind].
  by rewrite u64_small by lia.
Qed.

Lemma utf8fromcodepoint_three (cp : Z) (dst : list Z) (dp : nat) (len : Z) :
  encodable cp -> 0x800 <= cp < 0x10000 ->
  3 <= len < 2 ^ 64 -> (dp + 2 < length dst)%nat ->
  utf8fromcodepoint cp dst dp len
  = Ok (<[(dp + 2)%nat:=0x80 + cp mod 64]>
          (<[(dp + 1)%nat:=0x80 + (cp / 64) mod 64]>
             (<[dp:=0xE0 + cp / 4096]> dst)),
        (dp + 3)%nat, len - 3).
Proof.
  intros (Hr & Hfffe & Hffff & Hsur) Hcp Hlen Hdp. unfold utf8fromcodepoint.
  rewrite Hsur. ztest. cbv zeta. ztest.
  rewrite !continuation_byte.
  rewrite !Z.shiftr_div_pow2 by lia.
  change (2 ^ 6) with 64. change (2 ^ 12) with 4096.
  rewrite lor_lead3, u8_small by lia_div.
  rewrite store_lt by lia. cbn [mbind result_bind].
  rewrite store_lt by (rewrite length_insert; lia). cbn [mbind result_bind].
  rewrite store_lt by (rewrite !length_insert; lia). cbn [mbind result_bind].
  by rewrite u64_small by lia.
Qed.

Lemma utf8fromcodepoint_four (cp : Z) (dst : list Z) (dp : nat) (len : Z) :
  0x10000 <= cp <= 0x10FFFF ->
  4 <= len < 2 ^ 64 -> (dp + 3 < length dst)%nat ->
  utf8fromcodepoint cp dst dp len
  = Ok (<[(dp + 3)%nat:=0x80 + cp mod 64]>
          (<[(dp + 2)%nat:=0x80 + (cp / 64) mod 64]>
             (<[(dp + 1)%nat:=0x80 + (cp / 4096) mod 64]>
                (<[dp:=0xF0 + cp / 262144]> dst))),
        (dp + 4)%nat, len - 4).
Proof.
  intros Hcp Hlen Hdp. unfold utf8fromcodepoint, surrogate_case.
  ztest. cbv zeta. ztest.
  rewrite !continuation_byte.
  rewrite !Z.shiftr_div_pow2 by lia.
  change (2 ^ 6) with 64. change (2 ^ 12) with 4096.
  change (2 ^ 18) with 262144.
  rewrite lor_lead4, u8_small by lia_div.
  rewrite store_lt by lia. cbn [mbind result_bind].
  rewrite store_lt by (rewrite length_insert; lia). cbn [mbind result_bind].
  rewrite store_lt by (rewrite !length_insert; lia). cbn [mbind result_bind].
  rewrite store_lt by (rewrite !length_insert; lia). cbn [mbind result_bind].
  by rewrite u64_small by lia.
Qed.

Lemma holds_at_intro (s : list Z) (p : nat) (bs : list Z) :
  (forall i b, bs !! i = Some b -> s !! (p + i)%nat = Some b) ->
  holds_at s p bs.
Proof.
  intros H. unfold holds_at. apply list_eq. intros i.
  rewrite lookup_take. case_decide as Hi.
  - rewrite lookup_drop. destruct (bs !! i) as [b|] eqn:E; [by apply H|].
    apply lookup_ge_None in E. lia.
  - symmetry. apply lookup_ge_None_2. lia.
Qed.

(** Reads back the bytes just stored by a chain of inserts. *)
Ltac read_back :=
  apply holds_at_intro;
  let i := fresh "i" in
  let b := fresh "b" in
  let Hi := fresh "Hi" in
  intros i b Hi;
  repeat (destruct i as [|i];
          [ injection Hi as <-; rewrite ?Nat.add_0_r;
            repeat (rewrite list_lookup_insert_ne by lia);
            apply list_lookup_insert_eq; rewrite ?length_insert; lia
          | ]);
  discriminate Hi.

(** ** Encoding, then decoding *)

(** C5. For every scalar value up to 0x10FFFF outside the surrogate range
    and other than 0xFFFE and 0xFFFF, [utf8fromcodepoint] with room for the
    encoded width plus one writes that many bytes, and [utf8codepoint] at
    the start of those bytes returns the same value (leaving the cursor
    after them, or in place for the value 0). *)
Theorem encode_decode_roundtrip (cp : Z) (dst : list Z) (dp : nat) (len : Z) :
  0 <= cp <= 0x10FFFF ->
  ~ (0xD800 <= cp <= 0xDFFF) -> cp <> 0xFFFE -> cp <> 0xFFFF ->
  Z.of_nat (utf8_width cp) + 1 <= len < 2 ^ 64 ->
  (dp + utf8_width cp + 1 <= length dst)%nat ->
  exists dst' : list Z,
    utf8fromcodepoint cp dst dp len
    = Ok (dst', (dp + utf8_width cp)%nat, len - Z.of_nat (utf8_width cp))
    /\ utf8codepoint dst' dp
       = Ok (cp, if cp =? 0 then dp else (dp + utf8_width cp)%nat).
Proof.
  intros Hcp Hsur Hfffe Hffff Hlen Hdp.
  assert (Henc : encodable cp).
  { repeat split; try lia. unfold surrogate_case. ztest. done. }
  unfold utf8_width in *.
  destruct (cp <? 0x80) eqn:H1; [|destruct (cp <? 0x800) eqn:H2;
    [|destruct (cp <? 0x10000) eqn:H3]]; zbool_hyps.
  - eexists. split.
    + rewrite utf8fromcodepoint_one by lia.
      by replace (dp + 1)%nat with (S dp) by lia.
    + unfold utf8codepoint.
      rewrite (load_Some _ dp cp) by (apply list_lookup_insert_eq; lia).
      cbn [mbind result_bind]. rewrite u8_small by lia.
      destruct (cp =? 0) eqn:H0; zbool_hyps; [by subst|].
      ztest. by replace (dp + 1)%nat with (S dp) by lia.
  - eexists. split; [by rewrite utf8fromcodepoint_two by lia|].
    rewrite (utf8codepoint_two_octets _ dp (0xC0 + cp / 64) (0x80 + cp mod 64))
      by first [read_back | lia_div].
    replace (payload2 _ _) with cp by (unfold payload2; lia_div).
    cbv zeta. by ztest.
  - destruct Henc as (_ & _ & _ & Hcase).
    eexists. split.
    + by rewrite utf8fromcodepoint_three by (repeat split; first [done | lia]).
    + rewrite (utf8codepoint_three_octets _ dp (0xE0 + cp / 4096)
                 (0x80 + (cp / 64) mod 64) (0x80 + cp mod 64))
        by first [read_back | lia_div].
      replace (payload3 _ _ _) with cp by (unfold payload3; lia_div).
      cbv zeta. rewrite Hcase. by ztest.
  - eexists. split; [by rewrite utf8fromcodepoint_four by lia|].
    rewrite (utf8codepoint_four_octets _ dp (0xF0 + cp / 262144)
               (0x80 + (cp / 4096) mod 64) (0x80 + (cp / 64) mod 64)
               (0x80 + cp mod 64))
      by first [read_back | lia_div].
    replace (payload4 _ _ _ _) with cp by (unfold payload4; lia_div).
    cbv zeta. by ztest.
Qed.

Lemma encode_decode_roundtrip_witness :
  exists dst' : list Z,
    utf8fromcodepoint 0x20AC [7; 7; 7; 7; 7] 1 4
    = Ok (dst', (1 + utf8_width 0x20AC)%nat, 4 - Z.of_nat (utf8_width 0x20AC))
    /\ utf8codepoint dst' 1
       = Ok (0x20AC, if 0x20AC =? 0 then 1%nat else (1 + utf8_width 0x20AC)%nat).
Proof.
  apply (encode_decode_roundtrip 0x20AC [7; 7; 7; 7; 7] 1 4);
    first [lia | unfold utf8_width; simpl; lia].
Defined.

(** ** The comparators *)

Section Comparators.

Variable case_fold_hash : Z -> CaseFoldHashBucket.

Local Abbreviation cmp := (utf8codepointcmp case_fold_hash).
Local Abbreviation locate := (locate_case_fold_mapping case_fold_hash).
Local Abbreviation stricmp_loop := (utf8stricmp_loop case_fold_hash).

Lemma scan_bucket_Some (from0 : Z) (bucket : list CaseFoldMapping) (t : Z * Z * Z) :
  scan_bucket from0 bucket = Some t ->
  exists m, m ∈ bucket /\ from m = from0 /\ t = (to0 m, to1 m, to2 m).
Proof.
  induction bucket as [|m bucket IH]; simpl; [discriminate|].
  destruct (from m =? from0) eqn:E.
  - intros [= <-]. exists m. apply Z.eqb_eq in E. split; [constructor|done].
  - intros H. destruct (IH H) as (m' & Hin & Hm'). exists m'.
    split; [by constructor|done].
Qed.

Lemma scan_bucket_None (from0 : Z) (bucket : list CaseFoldMapping) :
  (forall m, m ∈ bucket -> from m <> from0) -> scan_bucket from0 bucket = None.
Proof.
  induction bucket as [|m bucket IH]; simpl; [done|]. intros H.
  rewrite (proj2 (Z.eqb_neq _ _)) by (apply H; constructor).
  apply IH. intros m' Hm'. apply H. by constructor.
Qed.

(** In a table without mappings from or to the terminator, only the
    terminator folds to a sequence that starts with 0. *)
Lemma locate_first_zero (cp : Z) :
  nul_free_table case_fold_hash -> ((locate cp).1.1 = 0 <-> cp = 0).
Proof.
  intros Hnul. unfold locate_case_fold_mapping.
  destruct (scan_bucket cp _) as [t|] eqn:E.
  - apply scan_bucket_Some in E as (m & Hin & Hfrom & ->). simpl.
    destruct (Hnul _ _ Hin) as [Hf Ht]. split; [done|]. intros ->. done.
  - done.
Qed.

Lemma utf8codepointcmp_antisym (cp1 cp2 : Z) : cmp cp1 cp2 = - cmp cp2 cp1.
Proof.
  unfold utf8codepointcmp. rewrite (Z.eqb_sym cp2 cp1).
  destruct (cp1 =? cp2); [done|].
  destruct (locate cp1) as [[a0 a1] a2], (locate cp2) as [[b0 b1] b2].
  repeat match goal with
  | |- context [?x <? ?y] => destruct (x <? y) eqn:?
  end; zbool_hyps; first [reflexivity | lia].
Qed.


Lemma utf8codepointcmp_zero_terminator (cp1 cp2 : Z) :
  nul_free_table case_fold_hash -> cmp cp1 cp2 = 0 -> (cp1 = 0 <-> cp2 = 0).
Proof.
  intros Hnul. unfold utf8codepointcmp.
  destruct (cp1 =? cp2) eqn:E; [apply Z.eqb_eq in E as ->; done|].
  pose proof (locate_first_zero cp1 Hnul) as H1.
  pose proof (locate_first_zero cp2 Hnul) as H2.
  destruct (locate cp1) as [[a0 a1] a2], (locate cp2) as [[b0 b1] b2].
  simpl in H1, H2.
  destruct (a0 <? b0) eqn:?; [discriminate|].
  destruct (b0 <? a0) eqn:?; [discriminate|].
  zbool_hyps. intros _. rewrite <- H1, <- H2. lia.
Qed.

(** *** The bound of the loop *)

Lemma utf8stricmp_loop_fuel (fuel : nat) (str1 : list Z) (p1 : nat)
    (str2 : list Z) (p2 : nat) :
  (length str1 - p1 < fuel)%nat ->
  stricmp_loop fuel str1 p1 str2 p2 <> OutOfFuel.
Proof.
  revert p1 p2. induction fuel as [|fuel IH]; intros p1 p2 Hfuel; [lia|].
  cbn [utf8stricmp_loop].
  destruct (utf8codepoint str1 p1) as [[cp1 q1]| |] eqn:E1;
    cbn [mbind result_bind]; [|done|by apply utf8codepoint_not_OutOfFuel in E1].
  destruct (utf8codepoint str2 p2) as [[cp2 q2]| |] eqn:E2;
    cbn [mbind result_bind]; [|done|by apply utf8codepoint_not_OutOfFuel in E2].
  destruct (negb _); [done|].
  destruct (cp1 =? 0) eqn:E0; [done|]. apply Z.eqb_neq in E0.
  apply utf8codepoint_progress in E1 as [Hlt [[? ?]|[_ Hq1]]]; [done|].
  apply IH. lia.
Qed.



(** *** Exchanging the operands *)


End Comparators.



Lemma sample_fold_hash_nul_free : nul_free_table sample_fold_hash.
Proof.
  intros h m. unfold sample_fold_hash.
  destruct (h =? 0x41); [|destruct (h =? 0xDF)]; intros Hm.
  - apply list_elem_of_singleton in Hm as ->. simpl. lia.
  - apply list_elem_of_singleton in Hm as ->. simpl. lia.
  - by apply not_elem_of_nil in Hm.
Qed.


Example stricmp_Ab_aC :
  __PHYSFS_utf8stricmp sample_fold_hash [0x41; 0x62; 0] [0x61; 0x43; 0] = Ok 1
  /\ __PHYSFS_utf8stricmp sample_fold_hash [0x61; 0x43; 0] [0x41; 0x62; 0]
     = Ok (-1).
Proof. split; reflexivity. Qed.

(** ** The loops stay within their bound

    Every turn of a transcoding loop that goes on has read a nonzero source
    element and moved the source pointer forward, and a read at or after the
    end of the source buffer is [OutOfBounds]: a loop started with more
    fuel than there are source elements left never ends in [OutOfFuel]. *)

Lemma utf8fromcodepoint_not_OutOfFuel (cp : Z) (dst : list Z) (dp : nat) (len : Z) :
  utf8fromcodepoint cp dst dp len <> OutOfFuel.
Proof.
  unfold utf8fromcodepoint. intros H.
  repeat match type of H with
  | (store ?m ?i ?v ≫= _) = _ =>
    let E := fresh "E" in
    destruct (store m i v) eqn:E; cbn [mbind result_bind] in H;
    [ | discriminate H | by apply store_not_OutOfFuel in E ]
  | (let _ := _ in _) = _ => cbv zeta in H
  | (if ?b then _ else _) = _ => destruct b
  end; discriminate H.
Qed.

(** Opens the leading bind of a goal [_ <> OutOfFuel]. *)
Ltac open_bind E :=
  match goal with
  | |- (?m ≫= _) <> OutOfFuel =>
    destruct m eqn:E; cbn [mbind result_bind];
    [ | done
      | first [ by apply utf8codepoint_not_OutOfFuel in E
              | by apply utf8fromcodepoint_not_OutOfFuel in E
              | by apply store_not_OutOfFuel in E
              | by apply load_not_OutOfFuel in E ] ]
  end.

Lemma utf8ToUcs4_loop_fuel (fuel : nat) (src : list Z) (sp : nat)
    (dst : list Z) (dp : nat) (len : Z) :
  (length src - sp < fuel)%nat ->
  utf8ToUcs4_loop fuel src sp dst dp len <> OutOfFuel.
Proof.
  revert sp dst dp len.
  induction fuel as [|fuel IH]; intros sp dst dp len Hfuel; [lia|].
  cbn [utf8ToUcs4_loop]. destruct (4 <=? len); [|done].
  open_bind E. destruct a as [cp sp'].
  destruct (cp =? 0) eqn:E0; [done|]. apply Z.eqb_neq in E0.
  open_bind Es.
  apply utf8codepoint_progress in E as [Hlt [[? ?]|[_ Hsp]]]; [done|].
  apply IH. lia.
Qed.

Lemma utf8ToUcs2_loop_fuel (fuel : nat) (src : list Z) (sp : nat)
    (dst : list Z) (dp : nat) (len : Z) :
  (length src - sp < fuel)%nat ->
  utf8ToUcs2_loop fuel src sp dst dp len <> OutOfFuel.
Proof.
  revert sp dst dp len.
  induction fuel as [|fuel IH]; intros sp dst dp len Hfuel; [lia|].
  cbn [utf8ToUcs2_loop]. destruct (2 <=? len); [|done].
  open_bind E. destruct a as [cp sp'].
  destruct (cp =? 0) eqn:E0; [done|]. apply Z.eqb_neq in E0.
  cbv zeta. open_bind Es.
  apply utf8codepoint_progress in E as [Hlt [[? ?]|[_ Hsp]]]; [done|].
  apply IH. lia.
Qed.

Lemma utf8ToUtf16_loop_fuel (fuel : nat) (src : list Z) (sp : nat)
    (dst : list Z) (dp : nat) (len : Z) :
  (length src - sp < fuel)%nat ->
  utf8ToUtf16_loop fuel src sp dst dp len <> OutOfFuel.
Proof.
  revert sp dst dp len.
  induction fuel as [|fuel IH]; intros sp dst dp len Hfuel; [lia|].
  cbn [utf8ToUtf16_loop]. destruct (2 <=? len); [|done].
  open_bind E. destruct a as [cp sp'].
  destruct (cp =? 0) eqn:E0; [done|]. apply Z.eqb_neq in E0.
  apply utf8codepoint_progress in E as [Hlt [[? ?]|[_ Hsp]]]; [done|].
  cbv zeta. destruct (0xFFFF <? _).
  - destruct (len <? 2 * 2); [done|].
    open_bind E1. open_bind E2. apply IH. lia.
  - open_bind E1. apply IH. lia.
Qed.

Lemma UTF8FROMTYPE_loop_fuel (typ : Z -> Z) (fuel : nat) (src : list Z)
    (sp : nat) (dst : list Z) (dp : nat) (len : Z) :
  (length src - sp < fuel)%nat ->
  UTF8FROMTYPE_loop typ fuel src sp dst dp len <> OutOfFuel.
Proof.
  revert sp dst dp len.
  induction fuel as [|fuel IH]; intros sp dst dp len Hfuel; [lia|].
  cbn [UTF8FROMTYPE_loop]. destruct (len =? 0); [done|].
  open_bind E. apply load_Ok_lt in E.
  cbv zeta. destruct (_ =? 0); [done|].
  open_bind E1. destruct a0 as [[dst' dp'] len'].
  apply IH. lia.
Qed.

Lemma utf8FromUtf16_loop_fuel (fuel : nat) (src : list Z) (sp : nat)
    (dst : list Z) (dp : nat) (len : Z) :
  (length src - sp < fuel)%nat ->
  utf8FromUtf16_loop fuel src sp dst dp len <> OutOfFuel.
Proof.
  revert sp dst dp len.
  induction fuel as [|fuel IH]; intros sp dst dp len Hfuel; [lia|].
  cbn [utf8FromUtf16_loop]. destruct (len =? 0); [done|].
  open_bind E. apply load_Ok_lt in E.
  cbv zeta. destruct (_ =? 0); [done|].
  destruct (_ && _).
  { open_bind E1. destruct a0 as [[dst' dp'] len']. apply IH. lia. }
  destruct (_ && _).
  - open_bind E1. destruct (_ || _).
    + open_bind E2. destruct a1 as [[dst' dp'] len']. apply IH. lia.
    + open_bind E2. destruct a1 as [[dst' dp'] len']. apply IH. lia.
  - open_bind E1. destruct a0 as [[dst' dp'] len']. apply IH. lia.
Qed.

(** No entry point ends in [OutOfFuel]: each returns a buffer or reads or
    writes out of bounds. *)
Lemma transcoders_within_fuel (src dst : list Z) (len : Z) :
  PHYSFS_utf8ToUcs4 src dst len <> OutOfFuel
  /\ PHYSFS_utf8ToUcs2 src dst len <> OutOfFuel
  /\ PHYSFS_utf8ToUtf16 src dst len <> OutOfFuel
  /\ PHYSFS_utf8FromUcs4 src dst len <> OutOfFuel
  /\ PHYSFS_utf8FromUcs2 src dst len <> OutOfFuel
  /\ PHYSFS_utf8FromLatin1 src dst len <> OutOfFuel
  /\ PHYSFS_utf8FromUtf16 src dst len <> OutOfFuel.
Proof.
  unfold PHYSFS_utf8ToUcs4, PHYSFS_utf8ToUcs2, PHYSFS_utf8ToUtf16,
    PHYSFS_utf8FromUcs4, PHYSFS_utf8FromUcs2, PHYSFS_utf8FromLatin1,
    UTF8FROMTYPE, PHYSFS_utf8FromUtf16.
  cbv zeta. destruct (len =? 0); repeat split; try done.
  all: match goal with
       | |- (?m ≫= _) <> OutOfFuel =>
         let E := fresh "E" in
         destruct m as [[dst' dp']| |] eqn:E; cbn [mbind result_bind];
         [ apply store_not_OutOfFuel | done | ]
       end.
  all: first [ by apply utf8ToUcs4_loop_fuel in E; [|lia]
             | by apply utf8ToUcs2_loop_fuel in E; [|lia]
             | by apply utf8ToUtf16_loop_fuel in E; [|lia]
             | by apply UTF8FROMTYPE_loop_fuel in E; [|lia]
             | by apply utf8FromUtf16_loop_fuel in E; [|lia] ].
Qed.

Lemma utf8stricmp_within_fuel (case_fold_hash : Z -> CaseFoldHashBucket)
    (str1 str2 : list Z) :
  __PHYSFS_utf8stricmp case_fold_hash str1 str2 <> OutOfFuel.
Proof. apply utf8stricmp_loop_fuel. lia. Qed.

(** ** Forward progress *)

(** C9 holds up to the six-octet form: the decoder never moves the cursor
    back and moves it forward from a nonzero byte ([utf8codepoint_progress]),
    but a complete six-octet form moves it seven bytes, one more than the
    form is long.  When the form ends the string, the cursor steps over the
    terminator and the next read of a comparator or of a transcoder is
    outside the string. *)
Theorem six_octet_form_steps_over_terminator :
  let s := [0xFC; 0x80; 0x80; 0x80; 0x80; 0x80; 0] in
  s !! 6%nat = Some 0
  /\ length s = 7%nat
  /\ utf8codepoint s 0 = Ok (UNICODE_BOGUS_CHAR_VALUE, 7%nat)
  /\ utf8codepoint s 7 = OutOfBounds
  /\ (forall case_fold_hash, __PHYSFS_utf8stricmp case_fold_hash s s = OutOfBounds)
  /\ (forall case_fold_hash,
        __PHYSFS_utf8strnicmp case_fold_hash s s 2 = OutOfBounds)
  /\ PHYSFS_utf8ToUcs4 s [7; 7; 7; 7] 16 = OutOfBounds
  /\ PHYSFS_utf8ToUcs2 s [7; 7; 7; 7] 8 = OutOfBounds
  /\ PHYSFS_utf8ToUtf16 s [7; 7; 7; 7] 8 = OutOfBounds.
Proof. repeat split; reflexivity. Qed.

(** ** The sentinel and the placeholder *)

Lemma no_new_bogus_refl (d : list Z) : no_new_bogus d d.
Proof. by intros i Hi. Qed.

Lemma no_new_bogus_trans (d1 d2 d3 : list Z) :
  no_new_bogus d1 d2 -> no_new_bogus d2 d3 -> no_new_bogus d1 d3.
Proof. intros H12 H23 i Hi. apply H12, H23, Hi. Qed.

Lemma store_no_new_bogus (m m' : list Z) (i : nat) (v : Z) :
  v <> UNICODE_BOGUS_CHAR_VALUE -> store m i v = Ok m' -> no_new_bogus m m'.
Proof.
  intros Hv Hst j Hj. apply store_Ok in Hst as [Hlt ->].
  destruct (decide (i = j)) as [->|Hne].
  - rewrite list_lookup_insert_eq in Hj by done. congruence.
  - by rewrite list_lookup_insert_ne in Hj.
Qed.

Lemma u16_not_bogus (x : Z) : u16 x <> UNICODE_BOGUS_CHAR_VALUE.
Proof.
  unfold u16, UNICODE_BOGUS_CHAR_VALUE.
  pose proof (Z.mod_pos_bound x (2 ^ 16)). lia.
Qed.

Lemma replaced_not_bogus (cp : Z) :
  (if cp =? UNICODE_BOGUS_CHAR_VALUE then UNICODE_BOGUS_CHAR_CODEPOINT else cp)
  <> UNICODE_BOGUS_CHAR_VALUE.
Proof.
  destruct (cp =? _) eqn:E; zbool_hyps; [|done].
  unfold UNICODE_BOGUS_CHAR_CODEPOINT, UNICODE_BOGUS_CHAR_VALUE. lia.
Qed.

(** Opens the leading bind of the run [H]. *)
Ltac run_bind H E :=
  match type of H with
  | (?m ≫= _) = Ok _ =>
    destruct m eqn:E; cbn [mbind result_bind] in H;
    [ | discriminate H | discriminate H ]
  end.

Lemma utf8ToUcs4_loop_no_new_bogus (fuel : nat) (src : list Z) (sp : nat)
    (dst : list Z) (dp : nat) (len : Z) (dst' : list Z) (dp' : nat) :
  utf8ToUcs4_loop fuel src sp dst dp len = Ok (dst', dp') ->
  no_new_bogus dst dst'.
Proof.
  revert sp dst dp len.
  induction fuel as [|fuel IH]; intros sp dst dp len H; [discriminate|].
  cbn [utf8ToUcs4_loop] in H.
  destruct (4 <=? len); [|injection H as <- <-; apply no_new_bogus_refl].
  run_bind H E. destruct a as [cp sp'].
  destruct (cp =? 0); [injection H as <- <-; apply no_new_bogus_refl|].
  cbv zeta in H. run_bind H Es.
  eapply no_new_bogus_trans; [|by eapply IH].
  eapply store_no_new_bogus; [|done]. apply replaced_not_bogus.
Qed.

Lemma utf8ToUcs2_loop_no_new_bogus (fuel : nat) (src : list Z) (sp : nat)
    (dst : list Z) (dp : nat) (len : Z) (dst' : list Z) (dp' : nat) :
  utf8ToUcs2_loop fuel src sp dst dp len = Ok (dst', dp') ->
  no_new_bogus dst dst'.
Proof.
  revert sp dst dp len.
  induction fuel as [|fuel IH]; intros sp dst dp len H; [discriminate|].
  cbn [utf8ToUcs2_loop] in H.
  destruct (2 <=? len); [|injection H as <- <-; apply no_new_bogus_refl].
  run_bind H E. destruct a as [cp sp'].
  destruct (cp =? 0); [injection H as <- <-; apply no_new_bogus_refl|].
  cbv zeta in H. run_bind H Es.
  eapply no_new_bogus_trans; [|by eapply IH].
  eapply store_no_new_bogus; [|done]. apply u16_not_bogus.
Qed.

Lemma utf8ToUtf16_loop_no_new_bogus (fuel : nat) (src : list Z) (sp : nat)
    (dst : list Z) (dp : nat) (len : Z) (dst' : list Z) (dp' : nat) :
  utf8ToUtf16_loop fuel src sp dst dp len = Ok (dst', dp') ->
  no_new_bogus dst dst'.
Proof.
  revert sp dst dp len.
  induction fuel as [|fuel IH]; intros sp dst dp len H; [discriminate|].
  cbn [utf8ToUtf16_loop] in H.
  destruct (2 <=? len); [|injection H as <- <-; apply no_new_bogus_refl].
  run_bind H E. destruct a as [cp sp'].
  destruct (cp =? 0); [injection H as <- <-; apply no_new_bogus_refl|].
  cbv zeta in H. destruct (0xFFFF <? _).
  - destruct (len <? 2 * 2); [injection H as <- <-; apply no_new_bogus_refl|].
    run_bind H E1. run_bind H E2.
    eapply no_new_bogus_trans; [|by eapply IH].
    eapply no_new_bogus_trans;
      (eapply store_no_new_bogus; [|done]; apply u16_not_bogus).
  - run_bind H E1.
    eapply no_new_bogus_trans; [|by eapply IH].
    eapply store_no_new_bogus; [|done]. apply u16_not_bogus.
Qed.

Lemma terminator_not_bogus : 0 <> UNICODE_BOGUS_CHAR_VALUE.
Proof. done. Qed.

(** C3, as stated, fails for the comparators: the lone continuation byte 80
    decodes to the sentinel, which is compared as it is and differs from the
    placeholder '?'; had it been replaced first, the strings would be
    equal. *)
Lemma utf8stricmp_compares_the_sentinel :
  __PHYSFS_utf8stricmp sample_fold_hash [0x80; 0] [0x3F; 0] = Ok 1
  /\ spec_stricmp sample_fold_hash [0x80; 0] [0x3F; 0] = Ok 0
  /\ __PHYSFS_utf8stricmp sample_fold_hash [0x80; 0] [0x3F; 0]
     <> spec_stricmp sample_fold_hash [0x80; 0] [0x3F; 0].
Proof. repeat split; (reflexivity || discriminate). Qed.

(** The same on every fold table that maps neither the sentinel nor '?'. *)
Lemma utf8stricmp_bogus_vs_placeholder (case_fold_hash : Z -> CaseFoldHashBucket) :
  scan_bucket UNICODE_BOGUS_CHAR_VALUE (case_fold_hash 0) = None ->
  scan_bucket UNICODE_BOGUS_CHAR_CODEPOINT (case_fold_hash 0x3F) = None ->
  __PHYSFS_utf8stricmp case_fold_hash [0x80; 0] [0x3F; 0] = Ok 1
  /\ spec_stricmp case_fold_hash [0x80; 0] [0x3F; 0] = Ok 0.
Proof.
  intros Hb Hq. split; [|reflexivity].
  unfold __PHYSFS_utf8stricmp. cbn [length utf8stricmp_loop].
  change (utf8codepoint [0x80; 0] 0) with (Ok (UNICODE_BOGUS_CHAR_VALUE, 1%nat)).
  change (utf8codepoint [0x3F; 0] 0) with (Ok (UNICODE_BOGUS_CHAR_CODEPOINT, 1%nat)).
  cbn [mbind result_bind].
  assert (Hcmp : utf8codepointcmp case_fold_hash UNICODE_BOGUS_CHAR_VALUE
                   UNICODE_BOGUS_CHAR_CODEPOINT = 1).
  { unfold utf8codepointcmp, locate_case_fold_mapping.
    change (u8 (Z.land (Z.lxor UNICODE_BOGUS_CHAR_VALUE
                          (UNICODE_BOGUS_CHAR_VALUE ≫ 8)) 0xFF)) with 0.
    change (u8 (Z.land (Z.lxor UNICODE_BOGUS_CHAR_CODEPOINT
                          (UNICODE_BOGUS_CHAR_CODEPOINT ≫ 8)) 0xFF)) with 0x3F.
    by rewrite Hb, Hq. }
  by rewrite Hcmp.
Qed.

(** On a fold table with no mapping from the sentinel and none from '?',
    the two never compare equal, in either order. *)
Lemma utf8codepointcmp_sentinel_placeholder
    (case_fold_hash : Z -> CaseFoldHashBucket) :
  scan_bucket UNICODE_BOGUS_CHAR_VALUE (case_fold_hash 0) = None ->
  scan_bucket UNICODE_BOGUS_CHAR_CODEPOINT (case_fold_hash 0x3F) = None ->
  utf8codepointcmp case_fold_hash UNICODE_BOGUS_CHAR_VALUE
    UNICODE_BOGUS_CHAR_CODEPOINT = 1
  /\ utf8codepointcmp case_fold_hash UNICODE_BOGUS_CHAR_CODEPOINT
       UNICODE_BOGUS_CHAR_VALUE = -1.
Proof.
  intros Hb Hq. unfold utf8codepointcmp, locate_case_fold_mapping.
  change (u8 (Z.land (Z.lxor UNICODE_BOGUS_CHAR_VALUE
                        (UNICODE_BOGUS_CHAR_VALUE ≫ 8)) 0xFF)) with 0.
  change (u8 (Z.land (Z.lxor UNICODE_BOGUS_CHAR_CODEPOINT
                        (UNICODE_BOGUS_CHAR_CODEPOINT ≫ 8)) 0xFF)) with 0x3F.
  by rewrite Hb, Hq.
Qed.

(** A turn of the comparators' loops hands the two decoded values, as they
    are, to [utf8codepointcmp]. *)
Lemma utf8stricmp_turn (case_fold_hash : Z -> CaseFoldHashBucket) (n : nat)
    (str1 : list Z) (p1 q1 : nat) (str2 : list Z) (p2 q2 : nat) (cp1 cp2 : Z) :
  utf8codepoint str1 p1 = Ok (cp1, q1) ->
  utf8codepoint str2 p2 = Ok (cp2, q2) ->
  utf8stricmp_loop case_fold_hash (S n) str1 p1 str2 p2
  = (if utf8codepointcmp case_fold_hash cp1 cp2 =? 0
     then if cp1 =? 0 then Ok 0
          else utf8stricmp_loop case_fold_hash n str1 q1 str2 q2
     else Ok (utf8codepointcmp case_fold_hash cp1 cp2))
  /\ utf8strnicmp_loop case_fold_hash (S n) str1 p1 str2 p2
     = (if utf8codepointcmp case_fold_hash cp1 cp2 =? 0
        then if cp1 =? 0 then Ok 0
             else utf8strnicmp_loop case_fold_hash n str1 q1 str2 q2
        else Ok (utf8codepointcmp case_fold_hash cp1 cp2)).
Proof.
  intros H1 H2. cbn [utf8stricmp_loop utf8strnicmp_loop]. rewrite H1, H2.
  cbn [mbind result_bind]. by destruct (_ =? 0).
Qed.

(** C3, amended. Each transcoder from UTF-8 replaces a decoded sentinel by
    the placeholder before it writes: a turn of its loop that decodes the
    sentinel stores '?', and no call stores the sentinel in the destination.
    The comparators do not replace it, whichever string it is decoded from:
    a turn of their loops applies [utf8codepointcmp] to the two decoded
    values themselves, the sentinel included, returns its result when that
    is not 0, and goes on (or stops at the terminator) when it is 0.  So, on a fold table with no
    mapping from the sentinel and none from '?', a malformed sequence never
    compares equal to a literal '?': where one string decodes to the
    sentinel and the other to '?', the loops return 1 with the sentinel in
    the first string and -1 with it in the second, and so do
    [__PHYSFS_utf8stricmp] and [__PHYSFS_utf8strnicmp] (for a bound that is
    not 0) on strings that start so. *)
Theorem bogus_replaced_when_written_not_when_compared :
  (forall (fuel : nat) (src : list Z) (sp sp' : nat) (dst : list Z) (dp : nat)
          (len : Z),
     utf8codepoint src sp = Ok (UNICODE_BOGUS_CHAR_VALUE, sp') ->
     (4 <= len ->
      utf8ToUcs4_loop (S fuel) src sp dst dp len
      = dst1 ← store dst dp UNICODE_BOGUS_CHAR_CODEPOINT;
        utf8ToUcs4_loop fuel src sp' dst1 (S dp) (u64 (len - 4)))
     /\ (2 <= len ->
         utf8ToUcs2_loop (S fuel) src sp dst dp len
         = dst1 ← store dst dp UNICODE_BOGUS_CHAR_CODEPOINT;
           utf8ToUcs2_loop fuel src sp' dst1 (S dp) (u64 (len - 2)))
     /\ (2 <= len ->
         utf8ToUtf16_loop (S fuel) src sp dst dp len
         = dst1 ← store dst dp UNICODE_BOGUS_CHAR_CODEPOINT;
           utf8ToUtf16_loop fuel src sp' dst1 (S dp) (u64 (len - 2))))
  /\ (forall (src dst : list Z) (len : Z) (dst' : list Z),
        PHYSFS_utf8ToUcs4 src dst len = Ok dst'
        \/ PHYSFS_utf8ToUcs2 src dst len = Ok dst'
        \/ PHYSFS_utf8ToUtf16 src dst len = Ok dst' ->
        no_new_bogus dst dst')
  /\ (forall (case_fold_hash : Z -> CaseFoldHashBucket) (n : nat)
             (str1 : list Z) (p1 q1 : nat) (str2 : list Z) (p2 q2 : nat)
             (cp1 cp2 : Z),
        utf8codepoint str1 p1 = Ok (cp1, q1) ->
        utf8codepoint str2 p2 = Ok (cp2, q2) ->
        let rc := utf8codepointcmp case_fold_hash cp1 cp2 in
        utf8stricmp_loop case_fold_hash (S n) str1 p1 str2 p2
        = (if rc =? 0
           then if cp1 =? 0 then Ok 0
                else utf8stricmp_loop case_fold_hash n str1 q1 str2 q2
           else Ok rc)
        /\ utf8strnicmp_loop case_fold_hash (S n) str1 p1 str2 p2
           = (if rc =? 0
              then if cp1 =? 0 then Ok 0
                   else utf8strnicmp_loop case_fold_hash n str1 q1 str2 q2
              else Ok rc))
  /\ (forall (case_fold_hash : Z -> CaseFoldHashBucket),
        scan_bucket UNICODE_BOGUS_CHAR_VALUE (case_fold_hash 0) = None ->
        scan_bucket UNICODE_BOGUS_CHAR_CODEPOINT (case_fold_hash 0x3F) = None ->
        (forall (n : nat) (bad : list Z) (pb qb : nat)
                (lit : list Z) (pl ql : nat),
           utf8codepoint bad pb = Ok (UNICODE_BOGUS_CHAR_VALUE, qb) ->
           utf8codepoint lit pl = Ok (UNICODE_BOGUS_CHAR_CODEPOINT, ql) ->
           utf8stricmp_loop case_fold_hash (S n) bad pb lit pl = Ok 1
           /\ utf8stricmp_loop case_fold_hash (S n) lit pl bad pb = Ok (-1)
           /\ utf8strnicmp_loop case_fold_hash (S n) bad pb lit pl = Ok 1
           /\ utf8strnicmp_loop case_fold_hash (S n) lit pl bad pb = Ok (-1))
        /\ (forall (bad lit : list Z) (qb ql : nat) (n : Z),
              utf8codepoint bad 0 = Ok (UNICODE_BOGUS_CHAR_VALUE, qb) ->
              utf8codepoint lit 0 = Ok (UNICODE_BOGUS_CHAR_CODEPOINT, ql) ->
              __PHYSFS_utf8stricmp case_fold_hash bad lit = Ok 1
              /\ __PHYSFS_utf8stricmp case_fold_hash lit bad = Ok (-1)
              /\ (0 < u32 n ->
                  __PHYSFS_utf8strnicmp case_fold_hash bad lit n = Ok 1
                  /\ __PHYSFS_utf8strnicmp case_fold_hash lit bad n
                     = Ok (-1)))).
Proof.
  split; [|split; [|split]].
  - intros fuel src sp sp' dst dp len Hdec. repeat split; intros Hlen.
    + cbn [utf8ToUcs4_loop]. rewrite Hdec. by ztest.
    + cbn [utf8ToUcs2_loop]. rewrite Hdec. by ztest.
    + cbn [utf8ToUtf16_loop]. rewrite Hdec. by ztest.
  - intros src dst len dst' [H | [H | H]].
    + unfold PHYSFS_utf8ToUcs4 in H. cbv zeta in H.
      run_bind H E. destruct a as [dst1 dp1].
      eapply no_new_bogus_trans; [by eapply utf8ToUcs4_loop_no_new_bogus|].
      eapply store_no_new_bogus; [apply terminator_not_bogus|done].
    + unfold PHYSFS_utf8ToUcs2 in H. cbv zeta in H.
      run_bind H E. destruct a as [dst1 dp1].
      eapply no_new_bogus_trans; [by eapply utf8ToUcs2_loop_no_new_bogus|].
      eapply store_no_new_bogus; [apply terminator_not_bogus|done].
    + unfold PHYSFS_utf8ToUtf16 in H. cbv zeta in H.
      run_bind H E. destruct a as [dst1 dp1].
      eapply no_new_bogus_trans; [by eapply utf8ToUtf16_loop_no_new_bogus|].
      eapply store_no_new_bogus; [apply terminator_not_bogus|done].
  - intros case_fold_hash n str1 p1 q1 str2 p2 q2 cp1 cp2 H1 H2 rc.
    exact (utf8stricmp_turn case_fold_hash n str1 p1 q1 str2 p2 q2 cp1 cp2
             H1 H2).
  - intros case_fold_hash Hb Hq.
    destruct (utf8codepointcmp_sentinel_placeholder case_fold_hash Hb Hq)
      as [Hbl Hlb].
    assert (Hloops : forall (n : nat) (bad : list Z) (pb qb : nat)
                            (lit : list Z) (pl ql : nat),
      utf8codepoint bad pb = Ok (UNICODE_BOGUS_CHAR_VALUE, qb) ->
      utf8codepoint lit pl = Ok (UNICODE_BOGUS_CHAR_CODEPOINT, ql) ->
      utf8stricmp_loop case_fold_hash (S n) bad pb lit pl = Ok 1
      /\ utf8stricmp_loop case_fold_hash (S n) lit pl bad pb = Ok (-1)
      /\ utf8strnicmp_loop case_fold_hash (S n) bad pb lit pl = Ok 1
      /\ utf8strnicmp_loop case_fold_hash (S n) lit pl bad pb = Ok (-1)).
    { intros n bad pb qb lit pl ql Hbad Hlit.
      destruct (utf8stricmp_turn case_fold_hash n bad pb qb lit pl ql _ _
                  Hbad Hlit) as [-> ->].
      destruct (utf8stricmp_turn case_fold_hash n lit pl ql bad pb qb _ _
                  Hlit Hbad) as [-> ->].
      by rewrite Hbl, Hlb. }
    split; [exact Hloops|].
    intros bad lit qb ql n Hbad Hlit.
    unfold __PHYSFS_utf8stricmp, __PHYSFS_utf8strnicmp.
    destruct (Hloops (length bad) bad 0%nat qb lit 0%nat ql Hbad Hlit)
      as (Hs1 & _ & _ & _).
    destruct (Hloops (length lit) bad 0%nat qb lit 0%nat ql Hbad Hlit)
      as (_ & Hs2 & _ & _).
    repeat split; [done|done| |]; intros.
    all: destruct (Z.to_nat (u32 n)) as [|k] eqn:Ek; [lia|].
    all: by destruct (Hloops k bad 0%nat qb lit 0%nat ql Hbad Hlit)
           as (_ & _ & ? & ?).
Qed.

Lemma bogus_replaced_when_written_not_when_compared_witness :
  utf8ToUcs4_loop 3 [0x80; 0] 0 [7; 7; 7] 0 8
  = (dst1 ← store [7; 7; 7] 0 UNICODE_BOGUS_CHAR_CODEPOINT;
     utf8ToUcs4_loop 2 [0x80; 0] 1 dst1 1 (u64 (8 - 4)))
  /\ no_new_bogus [7; 7; 7] [UNICODE_BOGUS_CHAR_CODEPOINT; 0; 7]
  /\ utf8stricmp_loop sample_fold_hash 3 [0x3F; 0] 0 [0x80; 0] 0 = Ok (-1)
  /\ utf8strnicmp_loop sample_fold_hash 3 [0x41; 0x80; 0] 1 [0x61; 0x80; 0] 1
     = utf8strnicmp_loop sample_fold_hash 2 [0x41; 0x80; 0] 2
         [0x61; 0x80; 0] 2
  /\ __PHYSFS_utf8stricmp sample_fold_hash [0x80; 0] [0x3F; 0] = Ok 1
  /\ __PHYSFS_utf8strnicmp sample_fold_hash [0x3F; 0] [0x80; 0] 5 = Ok (-1).
Proof.
  split; [|split; [|split; [|split; [|split]]]].
  - apply (proj1 bogus_replaced_when_written_not_when_compared
             2%nat [0x80; 0] 0%nat 1%nat [7; 7; 7] 0%nat 8).
    + reflexivity.
    + lia.
  - apply (proj1 (proj2 bogus_replaced_when_written_not_when_compared)
             [0x80; 0] [7; 7; 7] 12 [UNICODE_BOGUS_CHAR_CODEPOINT; 0; 7]).
    left. reflexivity.
  - apply (proj1 (proj2 (proj2 bogus_replaced_when_written_not_when_compared))
             sample_fold_hash 2%nat [0x3F; 0] 0%nat 1%nat [0x80; 0] 0%nat
             1%nat 0x3F UNICODE_BOGUS_CHAR_VALUE).
    + reflexivity.
    + reflexivity.
  - apply (proj1 (proj2 (proj2 bogus_replaced_when_written_not_when_compared))
             sample_fold_hash 2%nat [0x41; 0x80; 0] 1%nat 2%nat
             [0x61; 0x80; 0] 1%nat 2%nat UNICODE_BOGUS_CHAR_VALUE
             UNICODE_BOGUS_CHAR_VALUE).
    + reflexivity.
    + reflexivity.
  - apply (proj2 (proj2 (proj2 (proj2
                    bogus_replaced_when_written_not_when_compared))
                  sample_fold_hash eq_refl eq_refl)
             [0x80; 0] [0x3F; 0] 1%nat 1%nat 0).
    + reflexivity.
    + reflexivity.
  - apply (proj2 (proj2 (proj2 (proj2
                    bogus_replaced_when_written_not_when_compared))
                  sample_fold_hash eq_refl eq_refl)
             [0x80; 0] [0x3F; 0] 1%nat 1%nat 5).
    + reflexivity.
    + reflexivity.
    + reflexivity.
Defined.

(** * Further properties *)

(** ** The decoder inside a zero-terminated string *)

Lemma lookup_before_terminator (s : list Z) (z q : nat) :
  terminator_at s z -> (q <= z)%nat ->
  exists c, s !! q = Some c /\ (q = z -> u8 c = 0).
Proof.
  intros (c0 & Hz & H0) Hq.
  destruct (lookup_lt_is_Some_2 s q) as [c Hc].
  { apply lookup_lt_Some in Hz. lia. }
  exists c. split; [done|]. intros ->. congruence.
Qed.

Lemma continuation_nonzero (x : Z) : not_continuation x = false -> x <> 0.
Proof. by intros H ->. Qed.

(** Walks the decoder along a string whose terminator is at [z]: every load
    is at or before [z], and a byte that lets the decoder go on is not the
    terminator. *)
Ltac walk_string Hterm z :=
  lazymatch goal with
  | |- exists cp p', (load ?s ?q ≫= _) = Ok (cp, p') /\ _ =>
    let c := fresh "c" in
    let Hl := fresh "Hl" in
    let Hc := fresh "Hc" in
    destruct (lookup_before_terminator s z q Hterm ltac:(lia)) as (c & Hl & Hc);
    rewrite (load_Some _ _ _ Hl); cbn [mbind result_bind];
    walk_string Hterm z
  | |- exists cp p', (if u8 ?c =? 0 then _ else _) = Ok (cp, p') /\ _ =>
    let E := fresh "E" in
    destruct (u8 c =? 0) eqn:E;
    [ | assert (u8 c <> 0) by (by apply Z.eqb_neq); walk_string Hterm z ]
  | |- exists cp p', (if not_continuation (u8 ?c) then _ else _) = Ok (cp, p') /\ _ =>
    let E := fresh "E" in
    destruct (not_continuation (u8 c)) eqn:E;
    [ | apply continuation_nonzero in E; walk_string Hterm z ]
  | |- exists cp p', (if ?b then _ else _) = Ok (cp, p') /\ _ =>
    destruct b eqn:?; walk_string Hterm z
  | |- _ => idtac
  end.

(** X1. Reading a zero-terminated string, from any position up to its
    terminator, the decoder never reads outside the string: it returns a
    value, and the cursor it leaves is at most one past the terminator; it
    is at or before the terminator unless the byte at the cursor is a
    six-octet lead (0xFC to 0xFF). *)
Theorem utf8codepoint_within_string (s : list Z) (z p : nat) :
  terminator_at s z -> (p <= z)%nat ->
  exists cp p',
    utf8codepoint s p = Ok (cp, p')
    /\ (p <= p' <= z + 1)%nat
    /\ ((forall c, s !! p = Some c -> u8 c < 0xFC) -> (p' <= z)%nat).
Proof.
  intros Hterm Hp. unfold utf8codepoint.
  walk_string Hterm z.
  all: eexists _, _; split; [reflexivity|].
  all: split; [lia|]; intros Hlead.
  all: try lia.
  specialize (Hlead _ Hl). zbool_hyps. lia.
Qed.

Lemma utf8codepoint_within_string_witness :
  exists cp p',
    utf8codepoint [0xE2; 0x82; 0] 0 = Ok (cp, p')
    /\ (0 <= p' <= 2 + 1)%nat
    /\ ((forall c, [0xE2; 0x82; 0] !! 0%nat = Some c -> u8 c < 0xFC) ->
        (p' <= 2)%nat).
Proof.
  apply (utf8codepoint_within_string [0xE2; 0x82; 0] 2 0).
  - exists 0. split; reflexivity.
  - lia.
Defined.

(** The width consumed for an accepted value is the canonical one. *)
Lemma utf8codepoint_accepts_canonical_aux (s : list Z) (p : nat) (cp : Z) (p' : nat) :
  utf8codepoint s p = Ok (cp, p') ->
  cp <> 0 -> cp <> UNICODE_BOGUS_CHAR_VALUE ->
  p' = (p + utf8_width cp)%nat.
Proof.
  unfold utf8codepoint. intros H Hnz Hnb.
  destruct (load s p) as [c| |] eqn:E0; cbn [mbind result_bind] in H;
    try discriminate H.
  pose proof (u8_range c) as Hc.
  decoder_paths H; injection H as <- <-; try congruence; zbool_hyps.
  all: unfold utf8_width; ztest; lia.
Qed.

(** X2. Every value the decoder accepts (neither 0 nor the sentinel) is a
    scalar value the encoder encodes as it is, and the decoder has consumed
    exactly the number of bytes of its canonical form: no overlong form and
    no value beyond 0x10FFFF is ever returned. *)
Theorem utf8codepoint_accepts_canonical (s : list Z) (p : nat) (cp : Z) (p' : nat) :
  utf8codepoint s p = Ok (cp, p') ->
  cp <> 0 -> cp <> UNICODE_BOGUS_CHAR_VALUE ->
  encodable cp /\ p' = (p + utf8_width cp)%nat.
Proof.
  unfold utf8codepoint. intros H Hnz Hnb.
  destruct (load s p) as [c| |] eqn:E0; cbn [mbind result_bind] in H;
    try discriminate H.
  pose proof (u8_range c) as Hc.
  decoder_paths H; injection H as <- <-; try congruence; zbool_hyps.
  all: split;
    [ unfold encodable; repeat split; try lia;
      first [assumption | unfold surrogate_case; ztest; done]
    | unfold utf8_width; ztest; lia ].
Qed.

Lemma utf8codepoint_accepts_canonical_witness :
  encodable 0x20AC /\ 3%nat = (0 + utf8_width 0x20AC)%nat.
Proof.
  apply (utf8codepoint_accepts_canonical [0xE2; 0x82; 0xAC; 0] 0 0x20AC 3);
    [reflexivity | lia | discriminate].
Defined.

(** ** Malformed sequences *)

(** X3. A byte 80..BF met where a sequence should start is skipped alone
    and reported as the sentinel.  A lead byte followed by fewer valid
    continuation bytes than it announces, the next byte [b] not being a
    continuation byte (the terminator included), is reported as the
    sentinel with the cursor moved past the lead byte only: the bytes after
    it are decoded again as starts of sequences. *)
Theorem utf8codepoint_resync :
  (forall (s : list Z) (p : nat) (l : Z),
     holds_at s p [l] -> 0x80 <= l <= 0xBF ->
     utf8codepoint s p = Ok (UNICODE_BOGUS_CHAR_VALUE, (p + 1)%nat))
  /\ (forall (s : list Z) (p : nat) (l : Z) (cs : list Z) (b : Z),
        holds_at s p (l :: cs ++ [b]) ->
        0xC0 <= l <= 0xFF ->
        Forall (fun c => 0x80 <= c <= 0xBF) cs ->
        (length cs < continuation_count l)%nat ->
        0 <= b < 0x80 \/ 0xC0 <= b <= 0xFF ->
        utf8codepoint s p = Ok (UNICODE_BOGUS_CHAR_VALUE, (p + 1)%nat)).
Proof.
  split.
  - intros s p l H Hl. unfold utf8codepoint. load_known H.
    rewrite !u8_small by lia. ztest. by replace (p + 1)%nat with (S p) by lia.
  - intros s p l cs b H Hl Hcs Hlen Hb.
    replace (p + 1)%nat with (S p) by lia.
    unfold continuation_count in Hlen.
    repeat match type of Hlen with
    | context [l <? ?k] => destruct (l <? k) eqn:?
    end; zbool_hyps; try lia.
    all: destruct cs as [|c1 [|c2 [|c3 [|c4 [|c5 cs]]]]];
      simpl in Hlen; try lia; simpl in H;
      repeat match goal with
      | Hf : Forall _ (_ :: _) |- _ => inversion_clear Hf
      end.
    all: unfold utf8codepoint; load_known H; destruct Hb;
      rewrite !u8_small by lia; ztest;
      repeat match goal with
      | |- context [not_continuation ?x] =>
        rewrite (byte_continuation x) by lia
      end; ztest; done.
Qed.

Lemma utf8codepoint_resync_witness :
  utf8codepoint [0x41; 0xA9; 0] 1 = Ok (UNICODE_BOGUS_CHAR_VALUE, (1 + 1)%nat)
  /\ utf8codepoint [0xE2; 0x82; 0x41; 0] 0
     = Ok (UNICODE_BOGUS_CHAR_VALUE, (0 + 1)%nat)
  /\ utf8codepoint [0xF0; 0x9F; 0x98; 0] 0
     = Ok (UNICODE_BOGUS_CHAR_VALUE, (0 + 1)%nat).
Proof.
  split; [|split].
  - apply (proj1 utf8codepoint_resync [0x41; 0xA9; 0] 1%nat 0xA9);
      [reflexivity | lia].
  - apply (proj2 utf8codepoint_resync [0xE2; 0x82; 0x41; 0] 0%nat 0xE2 [0x82] 0x41).
    + reflexivity.
    + lia.
    + repeat (constructor; [cbv beta; lia|]); constructor.
    + unfold continuation_count. simpl. lia.
    + lia.
  - apply (proj2 utf8codepoint_resync [0xF0; 0x9F; 0x98; 0] 0%nat 0xF0
             [0x9F; 0x98] 0).
    + reflexivity.
    + lia.
    + repeat (constructor; [cbv beta; lia|]); constructor.
    + unfold continuation_count. simpl. lia.
    + lia.
Defined.

(** ** Writing into a buffer *)

Lemma write_at_insert (l : list Z) (i : nat) (x : Z) :
  (i < length l)%nat -> <[i:=x]> l = write_at l i [x].
Proof.
  intros Hi. unfold write_at. rewrite insert_take_drop by done.
  simpl. by replace (i + 1)%nat with (S i) by lia.
Qed.

Lemma write_at_nil (l : list Z) (i : nat) : write_at l i [] = l.
Proof. unfold write_at. simpl. rewrite Nat.add_0_r. apply take_drop. Qed.

Lemma length_write_at (l : list Z) (i : nat) (a : list Z) :
  (i + length a <= length l)%nat -> length (write_at l i a) = length l.
Proof.
  intros H. unfold write_at.
  rewrite !length_app, length_take, length_drop. lia.
Qed.

Lemma write_at_app (l : list Z) (i : nat) (a b : list Z) :
  (i + length a <= length l)%nat ->
  write_at (write_at l i a) (i + length a) b = write_at l i (a ++ b).
Proof.
  intros H. unfold write_at at 1 3.
  assert (Hi : i = length (take i l)) by (rewrite length_take; lia).
  assert (Hta : take (i + length a) (write_at l i a) = take i l ++ a).
  { unfold write_at. rewrite take_app_add' by done. by rewrite take_app_length. }
  assert (Hdr : drop (i + length a + length b) (write_at l i a)
                = drop (i + length (a ++ b)) l).
  { unfold write_at. rewrite <- Nat.add_assoc, drop_app_add' by done.
    rewrite drop_app_add' by done. rewrite drop_drop, length_app.
    f_equal. lia. }
  rewrite Hta, Hdr. by rewrite <- !app_assoc.
Qed.

Lemma store_write_at (l : list Z) (i : nat) (x : Z) :
  (i < length l)%nat -> store l i x = Ok (write_at l i [x]).
Proof. intros Hi. rewrite store_lt by done. by rewrite write_at_insert. Qed.

Lemma holds_at_write_at (l : list Z) (i : nat) (a : list Z) :
  (i + length a <= length l)%nat -> holds_at (write_at l i a) i a.
Proof.
  intros H. unfold holds_at, write_at.
  rewrite drop_app_length' by (rewrite length_take; lia).
  by rewrite take_app_length.
Qed.

(** ** What the encoder writes *)

Lemma utf8_bytes_length (cp : Z) : length (utf8_bytes cp) = utf8_width cp.
Proof.
  unfold utf8_bytes, utf8_width.
  by repeat match goal with |- context [?a <? ?b] => destruct (a <? b) end.
Qed.

Lemma encoded_codepoint_encodable (cp : Z) :
  0 <= cp -> encodable (encoded_codepoint cp).
Proof.
  intros Hcp. unfold encoded_codepoint.
  destruct (_ || _) eqn:E.
  - repeat split; try done. all: unfold UNICODE_BOGUS_CHAR_CODEPOINT; lia.
  - zbool_hyps. repeat split; try lia. done.
Qed.

Lemma utf8fromcodepoint_encoded (cp : Z) (dst : list Z) (dp : nat) (len : Z) :
  utf8fromcodepoint cp dst dp len
  = utf8fromcodepoint (encoded_codepoint cp) dst dp len.
Proof.
  unfold utf8fromcodepoint, encoded_codepoint.
  destruct (len =? 0); [done|].
  destruct (0x10FFFF <? cp) eqn:E1; [done|].
  destruct ((cp =? 0xFFFE) || (cp =? 0xFFFF)) eqn:E2.
  { apply orb_true_iff in E2 as [E2|E2]; rewrite E2; simpl; [done|].
    by rewrite orb_true_r. }
  apply orb_false_iff in E2 as [E2 E3]. rewrite E2, E3.
  destruct (surrogate_case cp) eqn:E4; [done|].
  cbn [orb]. by rewrite E1, E2, E3, E4.
Qed.

Lemma utf8fromcodepoint_encodable (cp : Z) (dst : list Z) (dp : nat) (len : Z) :
  encodable cp -> 0 < len < 2 ^ 64 ->
  (Z.of_nat dp + len <= Z.of_nat (length dst)) ->
  utf8fromcodepoint cp dst dp len
  = if Z.of_nat (utf8_width cp) <=? len
    then Ok (write_at dst dp (utf8_bytes cp), (dp + utf8_width cp)%nat,
             len - Z.of_nat (utf8_width cp))
    else Ok (dst, dp, 0).
Proof.
  intros Henc Hlen Hroom.
  pose proof Henc as (Hr & Hfffe & Hffff & Hsur).
  unfold utf8_width, utf8_bytes.
  destruct (cp <? 0x80) eqn:H1; [|destruct (cp <? 0x800) eqn:H2;
    [|destruct (cp <? 0x10000) eqn:H3]]; zbool_hyps.
  - ztest. rewrite utf8fromcodepoint_one by lia.
    rewrite write_at_insert by lia.
    by replace (dp + 1)%nat with (S dp) by lia.
  - destruct (Z.of_nat 2 <=? len) eqn:Hfit; zbool_hyps.
    + rewrite utf8fromcodepoint_two by lia.
      rewrite !write_at_insert by (rewrite ?length_insert; lia).
      by rewrite (write_at_app dst dp [_] [_]) by (simpl; lia).
    + unfold utf8fromcodepoint. rewrite Hsur. ztest. cbv zeta. by ztest.
  - destruct (Z.of_nat 3 <=? len) eqn:Hfit; zbool_hyps.
    + rewrite utf8fromcodepoint_three by first [done | lia].
      rewrite !write_at_insert by (rewrite ?length_insert; lia).
      rewrite (write_at_app dst dp [_] [_]) by (simpl; lia). cbn [app].
      by rewrite (write_at_app dst dp [_; _] [_]) by (simpl; lia).
    + unfold utf8fromcodepoint. rewrite Hsur. ztest. cbv zeta. by ztest.
  - destruct (Z.of_nat 4 <=? len) eqn:Hfit; zbool_hyps.
    + rewrite utf8fromcodepoint_four by lia.
      rewrite !write_at_insert by (rewrite ?length_insert; lia).
      rewrite (write_at_app dst dp [_] [_]) by (simpl; lia). cbn [app].
      rewrite (write_at_app dst dp [_; _] [_]) by (simpl; lia). cbn [app].
      by rewrite (write_at_app dst dp [_; _; _] [_]) by (simpl; lia).
    + unfold utf8fromcodepoint. rewrite Hsur. ztest. cbv zeta. by ztest.
Qed.

(** X4. With room left ([len > 0]) in a destination that is at least as
    large as [len] says, the encoder never writes out of bounds: when the
    canonical form of the value it encodes (the codepoint, or the
    placeholder for an illegal one) fits in [len], it writes exactly those
    bytes at the write pointer, leaves the rest of the buffer as it was
    and takes their number off [len]; when the form does not fit, it
    writes nothing and sets [len] to 0. *)
Theorem utf8fromcodepoint_writes_canonical_or_nothing
    (cp : Z) (dst : list Z) (dp : nat) (len : Z) :
  0 <= cp -> 0 < len < 2 ^ 64 ->
  Z.of_nat dp + len <= Z.of_nat (length dst) ->
  let bs := utf8_bytes (encoded_codepoint cp) in
  utf8fromcodepoint cp dst dp len
  = if Z.of_nat (length bs) <=? len
    then Ok (write_at dst dp bs, (dp + length bs)%nat, len - Z.of_nat (length bs))
    else Ok (dst, dp, 0).
Proof.
  intros Hcp Hlen Hroom bs. subst bs.
  rewrite utf8fromcodepoint_encoded, utf8_bytes_length.
  apply utf8fromcodepoint_encodable; [|done..].
  by apply encoded_codepoint_encodable.
Qed.

Lemma utf8fromcodepoint_writes_canonical_or_nothing_witness :
  utf8fromcodepoint 0xD800 [7; 7; 7; 7] 1 3
  = (if Z.of_nat (length (utf8_bytes (encoded_codepoint 0xD800))) <=? 3
     then Ok (write_at [7; 7; 7; 7] 1 (utf8_bytes (encoded_codepoint 0xD800)),
              (1 + length (utf8_bytes (encoded_codepoint 0xD800)))%nat,
              3 - Z.of_nat (length (utf8_bytes (encoded_codepoint 0xD800))))
     else Ok ([7; 7; 7; 7], 1%nat, 0)).
Proof.
  apply (utf8fromcodepoint_writes_canonical_or_nothing 0xD800 [7; 7; 7; 7] 1 3);
    [lia | lia | simpl; lia].
Defined.

(** ** UCS-4, UCS-2 and Latin-1 to UTF-8 on a whole string *)

Lemma holds_at_lookup (s : list Z) (p : nat) (bs : list Z) (i : nat) (b : Z) :
  holds_at s p bs -> bs !! i = Some b -> s !! (p + i)%nat = Some b.
Proof.
  intros H Hi. rewrite <- H in Hi. apply lookup_take_Some in Hi as [Hi _].
  by rewrite lookup_drop in Hi.
Qed.

Lemma holds_at_cons (s : list Z) (p : nat) (b : Z) (bs : list Z) :
  holds_at s p (b :: bs) -> load s p = Ok b /\ holds_at s (S p) bs.
Proof.
  intros H. split.
  - apply load_Some. rewrite <- (Nat.add_0_r p).
    by apply (holds_at_lookup s p (b :: bs)).
  - apply holds_at_intro. intros i x Hi.
    replace (S p + i)%nat with (p + S i)%nat by lia.
    by apply (holds_at_lookup s p (b :: bs)).
Qed.

Lemma utf8_width_pos (cp : Z) : (1 <= utf8_width cp <= 4)%nat.
Proof.
  unfold utf8_width.
  repeat match goal with |- context [?a <? ?b] => destruct (a <? b) end; lia.
Qed.

Lemma fitting_length (cps : list Z) (room : Z) :
  0 <= room -> Z.of_nat (length (utf8_string (fitting cps room))) <= room.
Proof.
  revert room. induction cps as [|cp cps IH]; intros room Hroom; simpl; [lia|].
  destruct (_ <=? room) eqn:E; zbool_hyps; simpl; [|lia].
  rewrite length_app. specialize (IH (room - Z.of_nat
    (length (utf8_bytes (encoded_codepoint cp))))). lia.
Qed.

Lemma UTF8FROMTYPE_loop_spec (typ : Z -> Z) (cps : list Z) :
  u32 (typ 0) = 0 ->
  Forall (fun c => c <> 0 /\ 0 <= c /\ u32 (typ c) = c) cps ->
  forall (fuel : nat) (src : list Z) (sp : nat) (dst : list Z) (dp : nat)
         (len : Z),
    holds_at src sp (cps ++ [0]) ->
    0 <= len < 2 ^ 64 ->
    Z.of_nat dp + len <= Z.of_nat (length dst) ->
    (length cps < fuel)%nat ->
    UTF8FROMTYPE_loop typ fuel src sp dst dp len
    = Ok (write_at dst dp (utf8_string (fitting cps len)),
          (dp + length (utf8_string (fitting cps len)))%nat).
Proof.
  intros Htyp0 Hcps.
  induction Hcps as [|cp cps (Hnz & Hpos & Htyp) Hcps IH];
    intros fuel src sp dst dp len Hsrc Hlen Hroom Hfuel.
  - destruct fuel as [|fuel]; [simpl in Hfuel; lia|].
    cbn [UTF8FROMTYPE_loop fitting utf8_string].
    rewrite write_at_nil, Nat.add_0_r.
    destruct (len =? 0); [done|].
    apply holds_at_cons in Hsrc as [-> _]. cbn [mbind result_bind].
    by rewrite Htyp0.
  - destruct fuel as [|fuel]; [simpl in Hfuel; lia|].
    cbn [UTF8FROMTYPE_loop fitting]. cbv zeta.
    pose proof (utf8_width_pos (encoded_codepoint cp)) as Hw.
    rewrite utf8_bytes_length.
    destruct (len =? 0) eqn:E0; zbool_hyps.
    { subst len. rewrite (proj2 (Z.leb_gt _ _)) by lia.
      cbn [utf8_string]. by rewrite write_at_nil, Nat.add_0_r. }
    apply holds_at_cons in Hsrc as [-> Hsrc]. cbn [mbind result_bind].
    rewrite Htyp, (proj2 (Z.eqb_neq cp 0)) by done.
    rewrite utf8fromcodepoint_encoded.
    rewrite utf8fromcodepoint_encodable
      by first [by apply encoded_codepoint_encodable | lia].
    destruct (_ <=? len) eqn:Efit; zbool_hyps; cbn [mbind result_bind].
    + rewrite IH; [|done| lia
        | rewrite length_write_at by (rewrite utf8_bytes_length; lia); lia
        | simpl in Hfuel; lia].
      cbn [utf8_string].
      rewrite <- (utf8_bytes_length (encoded_codepoint cp)).
      rewrite write_at_app by (rewrite utf8_bytes_length; lia).
      rewrite length_app. do 2 f_equal. lia.
    + destruct fuel as [|fuel]; [simpl in Hfuel; lia|].
      cbn [UTF8FROMTYPE_loop utf8_string]. simpl.
      by rewrite write_at_nil, Nat.add_0_r.
Qed.

Lemma UTF8FROMTYPE_spec (typ : Z -> Z) (cps src dst : list Z) (len : Z) :
  u32 (typ 0) = 0 ->
  Forall (fun c => c <> 0 /\ 0 <= c /\ u32 (typ c) = c) cps ->
  holds_at src 0 (cps ++ [0]) ->
  1 <= len < 2 ^ 64 -> len <= Z.of_nat (length dst) ->
  UTF8FROMTYPE typ src dst len
  = Ok (write_at dst 0 (utf8_string (fitting cps (len - 1)) ++ [0])).
Proof.
  intros Htyp0 Hcps Hsrc Hlen Hroom. unfold UTF8FROMTYPE.
  rewrite (proj2 (Z.eqb_neq len 0)) by lia. cbv zeta.
  rewrite u64_small by lia.
  assert (Hsrclen : (length cps < length src)%nat).
  { pose proof (holds_at_lookup src 0 (cps ++ [0]) (length cps) 0 Hsrc) as Hl.
    rewrite lookup_app_r, Nat.sub_diag in Hl by lia.
    apply lookup_lt_Some in Hl; [lia|done]. }
  rewrite (UTF8FROMTYPE_loop_spec typ cps Htyp0 Hcps) by first [done | lia].
  cbn [mbind result_bind].
  pose proof (fitting_length cps (len - 1)) as Hfit.
  rewrite store_write_at by (rewrite length_write_at; lia).
  by rewrite (write_at_app dst 0) by lia.
Qed.

(** X5. On a zero-terminated source of nonzero elements, with [len >= 1]
    and a destination of at least [len] bytes, the transcoders from UCS-4,
    UCS-2 and Latin-1 write the UTF-8 text of the longest prefix of the
    source that fits in [len - 1] bytes (an illegal codepoint as the
    placeholder), then the terminator, and change nothing else: the output
    is cut between codepoints, never inside one, and never overruns. *)
Theorem utf8From_writes_longest_fitting_prefix
    (cps src dst : list Z) (len : Z) :
  holds_at src 0 (cps ++ [0]) ->
  Forall (fun c => c <> 0) cps ->
  1 <= len < 2 ^ 64 -> len <= Z.of_nat (length dst) ->
  let out := write_at dst 0 (utf8_string (fitting cps (len - 1)) ++ [0]) in
  (Forall (fun c => 0 <= c < 2 ^ 32) cps ->
   PHYSFS_utf8FromUcs4 src dst len = Ok out)
  /\ (Forall (fun c => 0 <= c < 2 ^ 16) cps ->
      PHYSFS_utf8FromUcs2 src dst len = Ok out)
  /\ (Forall (fun c => 0 <= c < 2 ^ 8) cps ->
      PHYSFS_utf8FromLatin1 src dst len = Ok out).
Proof.
  intros Hsrc Hnz Hlen Hroom out.
  repeat split; intros Hrange; apply UTF8FROMTYPE_spec; try done.
  all: apply Forall_forall; intros c Hc;
    pose proof (proj1 (Forall_forall _ _) Hnz c Hc);
    pose proof (proj1 (Forall_forall _ _) Hrange c Hc) as Hr; cbv beta in Hr.
  - rewrite !(u32_small c) by lia. repeat split; first [done | lia].
  - rewrite u64_small, u32_small by lia. repeat split; first [done | lia].
  - rewrite u8_small, u32_small by lia. repeat split; first [done | lia].
Qed.

Lemma utf8From_writes_longest_fitting_prefix_witness :
  PHYSFS_utf8FromUcs4 [0x41; 0x20AC; 0x42; 0] [7; 7; 7; 7; 7; 7] 4
  = Ok (write_at [7; 7; 7; 7; 7; 7] 0
          (utf8_string (fitting [0x41; 0x20AC; 0x42] (4 - 1)) ++ [0])).
Proof.
  apply (utf8From_writes_longest_fitting_prefix [0x41; 0x20AC; 0x42]
           [0x41; 0x20AC; 0x42; 0] [7; 7; 7; 7; 7; 7] 4).
  - reflexivity.
  - repeat (constructor; [lia|]); constructor.
  - lia.
  - simpl. lia.
  - repeat (constructor; [lia|]); constructor.
Defined.

Example utf8FromUcs4_cut_between_codepoints :
  PHYSFS_utf8FromUcs4 [0x41; 0x20AC; 0x42; 0] [7; 7; 7; 7; 7; 7] 4
  = Ok [0x41; 0; 7; 7; 7; 7].
Proof. reflexivity. Qed.

(** ** UTF-8 to UCS-4, UCS-2 and UTF-16 on canonical text *)

Lemma holds_at_app (s : list Z) (p : nat) (a b : list Z) :
  holds_at s p (a ++ b) -> holds_at s p a /\ holds_at s (p + length a) b.
Proof.
  intros H. split; apply holds_at_intro; intros i x Hi.
  - apply (holds_at_lookup s p (a ++ b)); [done|].
    by apply lookup_app_l_Some.
  - rewrite <- Nat.add_assoc.
    apply (holds_at_lookup s p (a ++ b)); [done|].
    rewrite lookup_app_r by lia. by replace (length a + i - length a)%nat with i by lia.
Qed.

Lemma encoded_codepoint_id (cp : Z) : encodable cp -> encoded_codepoint cp = cp.
Proof.
  intros (Hr & Hfffe & Hffff & Hsur). unfold encoded_codepoint.
  rewrite Hsur. by ztest.
Qed.

(** The decoder on the canonical form of a nonzero scalar value. *)
Lemma utf8codepoint_canonical (s : list Z) (p : nat) (cp : Z) :
  encodable cp -> cp <> 0 -> holds_at s p (utf8_bytes cp) ->
  utf8codepoint s p = Ok (cp, (p + utf8_width cp)%nat).
Proof.
  intros (Hr & Hfffe & Hffff & Hsur) Hnz. unfold utf8_bytes, utf8_width.
  destruct (cp <? 0x80) eqn:H1; [|destruct (cp <? 0x800) eqn:H2;
    [|destruct (cp <? 0x10000) eqn:H3]]; zbool_hyps; intros H.
  - unfold utf8codepoint. load_known H. rewrite u8_small by lia. ztest.
    by replace (p + 1)%nat with (S p) by lia.
  - rewrite (utf8codepoint_two_octets s p _ _ H) by lia_div.
    replace (payload2 _ _) with cp by (unfold payload2; lia_div).
    cbv zeta. by ztest.
  - rewrite (utf8codepoint_three_octets s p _ _ _ H) by lia_div.
    replace (payload3 _ _ _) with cp by (unfold payload3; lia_div).
    cbv zeta. rewrite Hsur. by ztest.
  - rewrite (utf8codepoint_four_octets s p _ _ _ _ H) by lia_div.
    replace (payload4 _ _ _ _) with cp by (unfold payload4; lia_div).
    cbv zeta. by ztest.
Qed.

Lemma utf8codepoint_terminator (s : list Z) (p : nat) :
  holds_at s p [0] -> utf8codepoint s p = Ok (0, p).
Proof. intros H. unfold utf8codepoint. by load_known H. Qed.

(** One turn of a loop over canonical text: the decoder returns the head
    codepoint, which is neither 0 nor the sentinel, and the text of the
    tail follows. *)
Lemma decode_head (s : list Z) (p : nat) (cp : Z) (cps : list Z) :
  encodable cp -> cp <> 0 ->
  holds_at s p (utf8_string (cp :: cps) ++ [0]) ->
  utf8codepoint s p = Ok (cp, (p + utf8_width cp)%nat)
  /\ (cp =? 0) = false
  /\ (cp =? UNICODE_BOGUS_CHAR_VALUE) = false
  /\ holds_at s (p + utf8_width cp) (utf8_string cps ++ [0]).
Proof.
  intros Henc Hnz H. cbn [utf8_string] in H.
  rewrite encoded_codepoint_id, <- app_assoc in H by done.
  apply holds_at_app in H as [Hhd Htl]. rewrite utf8_bytes_length in Htl.
  split; [by apply utf8codepoint_canonical|].
  destruct Henc as (Hr & _). unfold UNICODE_BOGUS_CHAR_VALUE.
  repeat split; [by apply Z.eqb_neq | apply Z.eqb_neq; lia | done].
Qed.

Lemma utf8ToUcs4_loop_canonical (cps : list Z) :
  Forall (fun c => encodable c /\ c <> 0) cps ->
  forall (fuel : nat) (src : list Z) (sp : nat) (dst : list Z) (dp : nat)
         (len : Z),
    holds_at src sp (utf8_string cps ++ [0]) ->
    0 <= len < 2 ^ 64 ->
    4 * Z.of_nat dp + len <= 4 * Z.of_nat (length dst) ->
    (length cps < fuel)%nat ->
    utf8ToUcs4_loop fuel src sp dst dp len
    = Ok (write_at dst dp (take (Z.to_nat (len / 4)) cps),
          (dp + length (take (Z.to_nat (len / 4)) cps))%nat).
Proof.
  induction 1 as [|cp cps [Henc Hnz] Hcps IH];
    intros fuel src sp dst dp len Hsrc Hlen Hroom Hfuel;
    (destruct fuel as [|fuel]; [simpl in Hfuel; lia|]);
    cbn [utf8ToUcs4_loop].
  - rewrite take_nil, write_at_nil, Nat.add_0_r.
    destruct (4 <=? len); [|done].
    by rewrite (utf8codepoint_terminator src sp Hsrc).
  - destruct (4 <=? len) eqn:E; zbool_hyps.
    + destruct (decode_head src sp cp cps Henc Hnz Hsrc) as (Hd & Hz & Hb & Htl).
      rewrite Hd. cbn [mbind result_bind]. rewrite Hz, Hb.
      rewrite store_write_at by lia.
      cbn [mbind result_bind]. rewrite u64_small by lia.
      rewrite IH; [|done| lia | rewrite length_write_at by (simpl; lia); lia
        | simpl in Hfuel; lia].
      replace (Z.to_nat (len / 4)) with (S (Z.to_nat ((len - 4) / 4)))
        by lia_div.
      cbn [take]. replace (S dp) with (dp + length [cp])%nat by (simpl; lia).
      rewrite write_at_app by (simpl; lia). simpl. do 2 f_equal. lia.
    + replace (Z.to_nat (len / 4)) with 0%nat by lia_div.
      by rewrite take_0, write_at_nil, Nat.add_0_r.
Qed.

Lemma utf8ToUcs2_loop_canonical (cps : list Z) :
  Forall (fun c => encodable c /\ c <> 0) cps ->
  forall (fuel : nat) (src : list Z) (sp : nat) (dst : list Z) (dp : nat)
         (len : Z),
    holds_at src sp (utf8_string cps ++ [0]) ->
    0 <= len < 2 ^ 64 ->
    2 * Z.of_nat dp + len <= 2 * Z.of_nat (length dst) ->
    (length cps < fuel)%nat ->
    utf8ToUcs2_loop fuel src sp dst dp len
    = Ok (write_at dst dp (ucs2_unit <$> take (Z.to_nat (len / 2)) cps),
          (dp + length (take (Z.to_nat (len / 2)) cps))%nat).
Proof.
  induction 1 as [|cp cps [Henc Hnz] Hcps IH];
    intros fuel src sp dst dp len Hsrc Hlen Hroom Hfuel;
    (destruct fuel as [|fuel]; [simpl in Hfuel; lia|]);
    cbn [utf8ToUcs2_loop].
  - rewrite take_nil, fmap_nil, write_at_nil, Nat.add_0_r.
    destruct (2 <=? len); [|done].
    by rewrite (utf8codepoint_terminator src sp Hsrc).
  - destruct (2 <=? len) eqn:E; zbool_hyps.
    + destruct (decode_head src sp cp cps Henc Hnz Hsrc) as (Hd & Hz & Hb & Htl).
      rewrite Hd. cbn [mbind result_bind]. rewrite Hz, Hb. cbv zeta.
      assert (Hu : u16 (if 0xFFFF <? cp then UNICODE_BOGUS_CHAR_CODEPOINT else cp)
                   = ucs2_unit cp).
      { unfold ucs2_unit. destruct Henc as (Hr & _).
        destruct (0xFFFF <? cp) eqn:E1; zbool_hyps; [done|].
        apply u16_small. lia. }
      rewrite Hu, store_write_at by lia.
      cbn [mbind result_bind]. rewrite u64_small by lia.
      rewrite IH; [|done| lia | rewrite length_write_at by (simpl; lia); lia
        | simpl in Hfuel; lia].
      replace (Z.to_nat (len / 2)) with (S (Z.to_nat ((len - 2) / 2)))
        by lia_div.
      cbn [take]. rewrite fmap_cons.
      replace (S dp) with (dp + length [ucs2_unit cp])%nat by (simpl; lia).
      rewrite write_at_app by (simpl; lia). simpl. do 2 f_equal. lia.
    + replace (Z.to_nat (len / 2)) with 0%nat by lia_div.
      by rewrite take_0, fmap_nil, write_at_nil, Nat.add_0_r.
Qed.

Lemma utf16_units_length (cp : Z) : (1 <= length (utf16_units cp) <= 2)%nat.
Proof. unfold utf16_units. destruct (_ <? _); simpl; lia. Qed.

Lemma fitting16_length (cps : list Z) (room : Z) :
  0 <= room -> Z.of_nat (length (utf16_string (fitting16 cps room))) <= room.
Proof.
  revert room. induction cps as [|cp cps IH]; intros room Hroom; simpl; [lia|].
  destruct (_ <=? room) eqn:E; zbool_hyps; simpl; [|lia].
  rewrite length_app.
  specialize (IH (room - Z.of_nat (length (utf16_units cp)))). lia.
Qed.

(** The two elements the code writes for a codepoint beyond 0xFFFF are the
    surrogate pair of [utf16_units]. *)
Lemma surrogate_pair_written (cp : Z) :
  0x10000 <= cp <= 0x10FFFF ->
  u16 (0xD800 + Z.land (u32 (cp - 0x10000) ≫ 10) 0x3FF)
  = 0xD800 + (cp - 0x10000) / 1024
  /\ u16 (u32 (0xDC00 + Z.land (u32 (cp - 0x10000)) 0x3FF))
     = 0xDC00 + (cp - 0x10000) mod 1024.
Proof.
  intros Hcp. rewrite (u32_small (cp - _)) by lia.
  rewrite Z.shiftr_div_pow2 by lia. change (2 ^ 10) with 1024.
  rewrite !land_0x3FF.
  rewrite (Z.mod_small ((cp - 0x10000) / 1024)) by lia_div.
  rewrite (u32_small (_ + _)) by lia_div.
  split; apply u16_small; lia_div.
Qed.

Lemma fitting16_fit (cp : Z) (cps : list Z) (room : Z) :
  Z.of_nat (length (utf16_units cp)) <= room ->
  fitting16 (cp :: cps) room
  = cp :: fitting16 cps (room - Z.of_nat (length (utf16_units cp))).
Proof. intros H. cbn [fitting16]. cbv zeta. by rewrite (proj2 (Z.leb_le _ _)). Qed.

Lemma fitting16_no_fit (cp : Z) (cps : list Z) (room : Z) :
  room < Z.of_nat (length (utf16_units cp)) -> fitting16 (cp :: cps) room = [].
Proof. intros H. cbn [fitting16]. cbv zeta. by rewrite (proj2 (Z.leb_gt _ _)). Qed.

Lemma utf16_units_bmp (cp : Z) : cp <= 0xFFFF -> utf16_units cp = [cp].
Proof. intros H. unfold utf16_units. by rewrite (proj2 (Z.ltb_ge _ _)). Qed.

Lemma utf16_units_pair (cp : Z) :
  0xFFFF < cp ->
  utf16_units cp
  = [0xD800 + (cp - 0x10000) / 1024; 0xDC00 + (cp - 0x10000) mod 1024].
Proof. intros H. unfold utf16_units. by rewrite (proj2 (Z.ltb_lt _ _)). Qed.

Lemma utf8ToUtf16_loop_canonical (cps : list Z) :
  Forall (fun c => encodable c /\ c <> 0) cps ->
  forall (fuel : nat) (src : list Z) (sp : nat) (dst : list Z) (dp : nat)
         (len : Z),
    holds_at src sp (utf8_string cps ++ [0]) ->
    0 <= len < 2 ^ 64 ->
    2 * Z.of_nat dp + len <= 2 * Z.of_nat (length dst) ->
    (length cps < fuel)%nat ->
    utf8ToUtf16_loop fuel src sp dst dp len
    = Ok (write_at dst dp (utf16_string (fitting16 cps (len / 2))),
          (dp + length (utf16_string (fitting16 cps (len / 2))))%nat).
Proof.
  induction 1 as [|cp cps [Henc Hnz] Hcps IH];
    intros fuel src sp dst dp len Hsrc Hlen Hroom Hfuel;
    (destruct fuel as [|fuel]; [simpl in Hfuel; lia|]);
    cbn [utf8ToUtf16_loop].
  - cbn [fitting16 utf16_string]. rewrite write_at_nil, Nat.add_0_r.
    destruct (2 <=? len); [|done].
    by rewrite (utf8codepoint_terminator src sp Hsrc).
  - pose proof (utf16_units_length cp) as Hw.
    pose proof Henc as (Hr & _).
    destruct (2 <=? len) eqn:E; zbool_hyps.
    2:{ rewrite fitting16_no_fit by lia_div.
        cbn [utf16_string]. by rewrite write_at_nil, Nat.add_0_r. }
    destruct (decode_head src sp cp cps Henc Hnz Hsrc) as (Hd & Hz & Hb & Htl).
    rewrite Hd. cbn [mbind result_bind]. rewrite Hz, Hb.
    destruct (0xFFFF <? cp) eqn:Ebig; zbool_hyps.
    + pose proof (utf16_units_pair cp Ebig) as Hu.
      destruct (len <? 2 * 2) eqn:E4; zbool_hyps.
      { rewrite fitting16_no_fit by (rewrite Hu; simpl; lia_div).
        cbn [utf16_string]. by rewrite write_at_nil, Nat.add_0_r. }
      rewrite fitting16_fit by (rewrite Hu; simpl; lia_div).
      cbn [utf16_string]. rewrite Hu. cbn [length].
      destruct (surrogate_pair_written cp ltac:(lia)) as [-> ->].
      rewrite store_write_at by lia. cbn [mbind result_bind].
      rewrite store_write_at by (rewrite length_write_at by (simpl; lia); lia).
      cbn [mbind result_bind].
      replace (S dp) with (dp + length [(0xD800 + (cp - 0x10000) / 1024)%Z])%nat
        by (simpl; lia).
      rewrite write_at_app by (simpl; lia). cbn [app].
      rewrite (u64_small (len - 2)), u64_small by lia.
      rewrite IH; [|done| lia | rewrite length_write_at by (simpl; lia); simpl; lia
        | simpl in Hfuel; lia].
      replace ((len - 2 - 2) / 2) with (len / 2 - Z.of_nat 2) by lia_div.
      set (tl := utf16_string _).
      replace (S (dp + length [0xD800 + (cp - 0x10000) / 1024]))
        with (dp + length [(0xD800 + (cp - 0x10000) / 1024)%Z;
                           (0xDC00 + (cp - 0x10000) mod 1024)%Z])%nat
        by (simpl; lia).
      rewrite write_at_app by (simpl; lia). cbn [app length].
      do 2 f_equal. lia.
    + pose proof (utf16_units_bmp cp Ebig) as Hu.
      rewrite fitting16_fit by (rewrite Hu; simpl; lia_div).
      cbn [utf16_string]. rewrite Hu. cbn [length].
      rewrite u16_small, store_write_at by lia. cbn [mbind result_bind].
      rewrite u64_small by lia.
      rewrite IH; [|done| lia | rewrite length_write_at by (simpl; lia); lia
        | simpl in Hfuel; lia].
      replace ((len - 2) / 2) with (len / 2 - Z.of_nat 1) by lia_div.
      set (tl := utf16_string _).
      replace (S dp) with (dp + length [cp])%nat by (simpl; lia).
      rewrite write_at_app by (simpl; lia). cbn [app length].
      do 2 f_equal. lia.
Qed.

Lemma terminated_text_length (src : list Z) (bs : list Z) :
  holds_at src 0 (bs ++ [0]) -> (length bs < length src)%nat.
Proof.
  intros H.
  pose proof (holds_at_lookup src 0 (bs ++ [0]) (length bs) 0 H) as Hl.
  rewrite lookup_app_r, Nat.sub_diag in Hl by lia.
  apply lookup_lt_Some in Hl; [lia|done].
Qed.

Lemma utf8_string_length_ge (cps : list Z) :
  (length cps <= length (utf8_string cps))%nat.
Proof.
  induction cps as [|cp cps IH]; simpl; [lia|].
  rewrite length_app, utf8_bytes_length.
  pose proof (utf8_width_pos (encoded_codepoint cp)). lia.
Qed.

(** X6. On the canonical UTF-8 text of nonzero scalar values, with
    [len >= 4] bytes of destination, [PHYSFS_utf8ToUcs4] writes the first
    [len / 4 - 1] codepoints of the text, then the terminator, and nothing
    else. *)
Theorem utf8ToUcs4_decodes_canonical_text (cps src dst : list Z) (len : Z) :
  Forall (fun c => encodable c /\ c <> 0) cps ->
  holds_at src 0 (utf8_string cps ++ [0]) ->
  4 <= len < 2 ^ 64 -> len <= 4 * Z.of_nat (length dst) ->
  PHYSFS_utf8ToUcs4 src dst len
  = Ok (write_at dst 0 (take (Z.to_nat (len / 4 - 1)) cps ++ [0])).
Proof.
  intros Hcps Hsrc Hlen Hroom. unfold PHYSFS_utf8ToUcs4. cbv zeta.
  rewrite u64_small by lia.
  pose proof (terminated_text_length src _ Hsrc) as Hs.
  pose proof (utf8_string_length_ge cps) as Hc.
  rewrite (utf8ToUcs4_loop_canonical cps Hcps) by first [done | lia].
  cbn [mbind result_bind].
  replace ((len - 4) / 4) with (len / 4 - 1) by lia_div.
  set (out := take _ cps).
  assert (Hout : (length out <= Z.to_nat (len / 4 - 1))%nat)
    by (subst out; rewrite length_take; lia).
  assert (4 * Z.of_nat (Z.to_nat (len / 4 - 1)) <= len - 4) by lia_div.
  rewrite store_write_at by (rewrite length_write_at; lia).
  by rewrite (write_at_app dst 0) by lia.
Qed.

Lemma utf8ToUcs4_decodes_canonical_text_witness :
  PHYSFS_utf8ToUcs4 [0x41; 0xE2; 0x82; 0xAC; 0x42; 0] [7; 7; 7; 7] 12
  = Ok (write_at [7; 7; 7; 7] 0
          (take (Z.to_nat (12 / 4 - 1)) [0x41; 0x20AC; 0x42] ++ [0])).
Proof.
  apply (utf8ToUcs4_decodes_canonical_text [0x41; 0x20AC; 0x42]
           [0x41; 0xE2; 0x82; 0xAC; 0x42; 0] [7; 7; 7; 7] 12).
  - repeat (constructor; [by vm_compute|]). constructor.
  - reflexivity.
  - lia.
  - simpl. lia.
Defined.

(** X7. On the same input, with [len >= 2], [PHYSFS_utf8ToUcs2] writes the
    first [len / 2 - 1] codepoints, each one beyond 0xFFFF as the
    placeholder, then the terminator, and nothing else. *)
Theorem utf8ToUcs2_decodes_canonical_text (cps src dst : list Z) (len : Z) :
  Forall (fun c => encodable c /\ c <> 0) cps ->
  holds_at src 0 (utf8_string cps ++ [0]) ->
  2 <= len < 2 ^ 64 -> len <= 2 * Z.of_nat (length dst) ->
  PHYSFS_utf8ToUcs2 src dst len
  = Ok (write_at dst 0
          ((ucs2_unit <$> take (Z.to_nat (len / 2 - 1)) cps) ++ [0])).
Proof.
  intros Hcps Hsrc Hlen Hroom. unfold PHYSFS_utf8ToUcs2. cbv zeta.
  rewrite u64_small by lia.
  pose proof (terminated_text_length src _ Hsrc) as Hs.
  pose proof (utf8_string_length_ge cps) as Hc.
  rewrite (utf8ToUcs2_loop_canonical cps Hcps) by first [done | lia].
  cbn [mbind result_bind].
  replace ((len - 2) / 2) with (len / 2 - 1) by lia_div.
  set (out := take _ cps).
  assert (Hout : (length out <= Z.to_nat (len / 2 - 1))%nat)
    by (subst out; rewrite length_take; lia).
  assert (2 * Z.of_nat (Z.to_nat (len / 2 - 1)) <= len - 2) by lia_div.
  rewrite store_write_at by (rewrite length_write_at; rewrite ?length_fmap; lia).
  rewrite <- (length_fmap ucs2_unit out).
  by rewrite (write_at_app dst 0) by (rewrite length_fmap; lia).
Qed.

Lemma utf8ToUcs2_decodes_canonical_text_witness :
  PHYSFS_utf8ToUcs2 [0x41; 0xF0; 0x9F; 0x98; 0x80; 0] [7; 7; 7; 7] 8
  = Ok (write_at [7; 7; 7; 7] 0
          ((ucs2_unit <$> take (Z.to_nat (8 / 2 - 1)) [0x41; 0x1F600]) ++ [0])).
Proof.
  apply (utf8ToUcs2_decodes_canonical_text [0x41; 0x1F600]
           [0x41; 0xF0; 0x9F; 0x98; 0x80; 0] [7; 7; 7; 7] 8).
  - repeat (constructor; [by vm_compute|]). constructor.
  - reflexivity.
  - lia.
  - simpl. lia.
Defined.

(** X8. On the same input, with [len >= 2], [PHYSFS_utf8ToUtf16] writes
    the UTF-16 elements of the longest prefix of the codepoints whose
    elements number at most [len / 2 - 1] (a codepoint beyond 0xFFFF as its
    surrogate pair, never as half of it), then the terminator, and nothing
    else. *)
Theorem utf8ToUtf16_decodes_canonical_text (cps src dst : list Z) (len : Z) :
  Forall (fun c => encodable c /\ c <> 0) cps ->
  holds_at src 0 (utf8_string cps ++ [0]) ->
  2 <= len < 2 ^ 64 -> len <= 2 * Z.of_nat (length dst) ->
  PHYSFS_utf8ToUtf16 src dst len
  = Ok (write_at dst 0 (utf16_string (fitting16 cps (len / 2 - 1)) ++ [0])).
Proof.
  intros Hcps Hsrc Hlen Hroom. unfold PHYSFS_utf8ToUtf16. cbv zeta.
  rewrite u64_small by lia.
  pose proof (terminated_text_length src _ Hsrc) as Hs.
  pose proof (utf8_string_length_ge cps) as Hc.
  rewrite (utf8ToUtf16_loop_canonical cps Hcps) by first [done | lia].
  cbn [mbind result_bind].
  replace ((len - 2) / 2) with (len / 2 - 1) by lia_div.
  pose proof (fitting16_length cps (len / 2 - 1) ltac:(lia_div)) as Hout.
  assert (2 * (len / 2 - 1) <= len - 2) by lia_div.
  rewrite store_write_at by (rewrite length_write_at; lia).
  by rewrite (write_at_app dst 0) by lia.
Qed.

Lemma utf8ToUtf16_decodes_canonical_text_witness :
  PHYSFS_utf8ToUtf16 [0x41; 0xF0; 0x9F; 0x98; 0x80; 0] [7; 7; 7; 7] 6
  = Ok (write_at [7; 7; 7; 7] 0
          (utf16_string (fitting16 [0x41; 0x1F600] (6 / 2 - 1)) ++ [0])).
Proof.
  apply (utf8ToUtf16_decodes_canonical_text [0x41; 0x1F600]
           [0x41; 0xF0; 0x9F; 0x98; 0x80; 0] [7; 7; 7; 7] 6).
  - repeat (constructor; [by vm_compute|]). constructor.
  - reflexivity.
  - lia.
  - simpl. lia.
Defined.

Example utf8ToUtf16_drops_pair_that_does_not_fit :
  PHYSFS_utf8ToUtf16 [0x41; 0xF0; 0x9F; 0x98; 0x80; 0] [7; 7; 7; 7] 6
  = Ok [0x41; 0; 7; 7].
Proof. reflexivity. Qed.

(** ** From UCS-4 to UTF-8 and back *)

Lemma fitting_all (cps : list Z) (room : Z) :
  Z.of_nat (length (utf8_string cps)) <= room -> fitting cps room = cps.
Proof.
  revert room. induction cps as [|cp cps IH]; intros room H; [done|].
  cbn [fitting utf8_string] in *. cbv zeta. rewrite length_app in H.
  rewrite (proj2 (Z.leb_le _ _)) by lia. f_equal. apply IH. lia.
Qed.

(** X9. A zero-terminated UCS-4 string of nonzero scalar values that the
    encoder accepts, transcoded to UTF-8 into a buffer with room for the
    whole text and its terminator, and transcoded back into a buffer with
    room for every codepoint and the terminator, comes back unchanged. *)
Theorem ucs4_utf8_ucs4_round_trip
    (cps src dst8 dst32 : list Z) (len8 len32 : Z) :
  Forall (fun c => encodable c /\ c <> 0) cps ->
  holds_at src 0 (cps ++ [0]) ->
  Z.of_nat (length (utf8_string cps)) + 1 <= len8 < 2 ^ 64 ->
  len8 <= Z.of_nat (length dst8) ->
  4 * (Z.of_nat (length cps) + 1) <= len32 < 2 ^ 64 ->
  len32 <= 4 * Z.of_nat (length dst32) ->
  exists text : list Z,
    PHYSFS_utf8FromUcs4 src dst8 len8 = Ok text
    /\ holds_at text 0 (utf8_string cps ++ [0])
    /\ PHYSFS_utf8ToUcs4 text dst32 len32 = Ok (write_at dst32 0 (cps ++ [0])).
Proof.
  intros Hcps Hsrc Hlen8 Hroom8 Hlen32 Hroom32.
  exists (write_at dst8 0 (utf8_string cps ++ [0])).
  assert (Htext : holds_at (write_at dst8 0 (utf8_string cps ++ [0])) 0
                    (utf8_string cps ++ [0])).
  { apply holds_at_write_at. rewrite length_app. simpl. lia. }
  split; [|split; [done|]].
  - unfold PHYSFS_utf8FromUcs4.
    rewrite (UTF8FROMTYPE_spec u32 cps) by first [done | lia |
      apply Forall_forall; intros c Hc;
      destruct (proj1 (Forall_forall _ _) Hcps c Hc) as [(Hr & _) Hnz];
      rewrite !(u32_small c) by lia; repeat split; first [done | lia]].
    by rewrite fitting_all by lia.
  - unfold PHYSFS_utf8ToUcs4. cbv zeta. rewrite u64_small by lia.
    pose proof (terminated_text_length _ _ Htext) as Hs.
    pose proof (utf8_string_length_ge cps) as Hc.
    rewrite (utf8ToUcs4_loop_canonical cps Hcps) by first [done | lia].
    cbn [mbind result_bind].
    rewrite take_ge by lia_div.
    rewrite store_write_at by (rewrite length_write_at; lia).
    by rewrite (write_at_app dst32 0) by lia.
Qed.

Lemma ucs4_utf8_ucs4_round_trip_witness :
  exists text : list Z,
    PHYSFS_utf8FromUcs4 [0x41; 0x20AC; 0x1F600; 0] [7; 7; 7; 7; 7; 7; 7; 7; 7; 7] 9
    = Ok text
    /\ holds_at text 0 (utf8_string [0x41; 0x20AC; 0x1F600] ++ [0])
    /\ PHYSFS_utf8ToUcs4 text [7; 7; 7; 7; 7] 16
       = Ok (write_at [7; 7; 7; 7; 7] 0 ([0x41; 0x20AC; 0x1F600] ++ [0])).
Proof.
  apply (ucs4_utf8_ucs4_round_trip [0x41; 0x20AC; 0x1F600]
           [0x41; 0x20AC; 0x1F600; 0] [7; 7; 7; 7; 7; 7; 7; 7; 7; 7]
           [7; 7; 7; 7; 7] 9 16).
  - repeat (constructor; [by vm_compute|]). constructor.
  - reflexivity.
  - simpl. lia.
  - simpl. lia.
  - simpl. lia.
  - simpl. lia.
Defined.

(** ** UTF-16 to UTF-8 on a whole string *)

Lemma fitting_zero (cps : list Z) : fitting cps 0 = [].
Proof.
  destruct cps as [|cp cps]; [done|]. cbn [fitting]. cbv zeta.
  pose proof (utf8_width_pos (encoded_codepoint cp)).
  rewrite utf8_bytes_length. by rewrite (proj2 (Z.leb_gt _ _)) by lia.
Qed.

(** One call of the encoder followed by the rest [k] of a loop that writes
    the text of [cps]: together they write the text of [cp :: cps]. *)
Lemma encode_then_continue (k : list Z -> nat -> Z -> result (list Z * nat))
    (cp : Z) (cps : list Z) (dst : list Z) (dp : nat) (len : Z) :
  0 <= cp -> 0 < len < 2 ^ 64 ->
  Z.of_nat dp + len <= Z.of_nat (length dst) ->
  (forall dst' dp', k dst' dp' 0 = Ok (dst', dp')) ->
  (forall dst' dp' len',
     0 <= len' < 2 ^ 64 ->
     Z.of_nat dp' + len' <= Z.of_nat (length dst') ->
     k dst' dp' len'
     = Ok (write_at dst' dp' (utf8_string (fitting cps len')),
           (dp' + length (utf8_string (fitting cps len')))%nat)) ->
  ('(dst', dp', len') ← utf8fromcodepoint cp dst dp len; k dst' dp' len')
  = Ok (write_at dst dp (utf8_string (fitting (cp :: cps) len)),
        (dp + length (utf8_string (fitting (cp :: cps) len)))%nat).
Proof.
  intros Hcp Hlen Hroom Hk0 Hk.
  pose proof (utf8_width_pos (encoded_codepoint cp)) as Hw.
  rewrite utf8fromcodepoint_encoded.
  rewrite utf8fromcodepoint_encodable
    by first [by apply encoded_codepoint_encodable | lia].
  cbn [fitting]. cbv zeta. rewrite utf8_bytes_length.
  destruct (_ <=? len) eqn:Efit; zbool_hyps; cbn [mbind result_bind].
  - rewrite Hk by
      first [lia | rewrite length_write_at by (rewrite utf8_bytes_length; lia); lia].
    cbn [utf8_string].
    rewrite <- (utf8_bytes_length (encoded_codepoint cp)).
    rewrite write_at_app by (rewrite utf8_bytes_length; lia).
    rewrite length_app. do 2 f_equal. lia.
  - rewrite Hk0. cbn [utf8_string]. by rewrite write_at_nil, Nat.add_0_r.
Qed.

Lemma placeholder_nonneg : 0 <= UNICODE_BOGUS_CHAR_CODEPOINT.
Proof. done. Qed.

Lemma utf8FromUtf16_loop_spec (n : nat) :
  forall (units : list Z),
    (length units <= n)%nat ->
    Forall (fun u => u <> 0 /\ 0 <= u < 2 ^ 16) units ->
    forall (fuel : nat) (src : list Z) (sp : nat) (dst : list Z) (dp : nat)
           (len : Z),
      holds_at src sp (units ++ [0]) ->
      0 <= len < 2 ^ 64 ->
      Z.of_nat dp + len <= Z.of_nat (length dst) ->
      (length units < fuel)%nat ->
      utf8FromUtf16_loop fuel src sp dst dp len
      = Ok (write_at dst dp (utf8_string (fitting (utf16_codepoints units) len)),
            (dp + length (utf8_string (fitting (utf16_codepoints units) len)))%nat).
Proof.
  induction n as [|n IH]; intros units Hn Hunits fuel src sp dst dp len
    Hsrc Hlen Hroom Hfuel;
    (destruct fuel as [|fuel]; [lia|]).
  - destruct units; [|simpl in Hn; lia].
    cbn [utf8FromUtf16_loop utf16_codepoints fitting utf8_string].
    rewrite write_at_nil, Nat.add_0_r.
    destruct (len =? 0); [done|].
    apply holds_at_cons in Hsrc as [-> _]. by cbn [mbind result_bind].
  - destruct units as [|u rest].
    { cbn [utf8FromUtf16_loop utf16_codepoints fitting utf8_string].
      rewrite write_at_nil, Nat.add_0_r.
      destruct (len =? 0); [done|].
      apply holds_at_cons in Hsrc as [-> _]. by cbn [mbind result_bind]. }
    cbn [utf8FromUtf16_loop].
    destruct (len =? 0) eqn:E0; zbool_hyps.
    { subst len. rewrite fitting_zero. cbn [utf8_string].
      by rewrite write_at_nil, Nat.add_0_r. }
    inversion_clear Hunits as [|? ? [Hnz Hu] Hrest].
    simpl in Hn, Hfuel.
    apply holds_at_cons in Hsrc as [-> Hsrc]. cbn [mbind result_bind].
    rewrite u16_small, u32_small by lia. cbv zeta.
    rewrite (proj2 (Z.eqb_neq u 0)) by done.
    assert (Hk0 : forall dst' dp',
              utf8FromUtf16_loop fuel src (S sp) dst' dp' 0 = Ok (dst', dp')).
    { intros. destruct fuel; [lia|]. done. }
    cbn [utf16_codepoints].
    destruct ((0xDC00 <=? u) && (u <=? 0xDFFF)) eqn:Elow.
    { apply encode_then_continue; try done; try lia.
      intros. apply IH; first [done | lia]. }
    destruct ((0xD800 <=? u) && (u <=? 0xDBFF)) eqn:Ehigh.
    2:{ apply encode_then_continue; try done; try lia.
        intros. apply IH; first [done | lia]. }
    zbool_hyps.
    destruct rest as [|lo rest'].
    + pose proof Hsrc as Hpeek. apply holds_at_cons in Hpeek as [-> _].
      cbn [mbind result_bind]. rewrite u16_small, u32_small by lia.
      cbn [orb Z.ltb Z.compare].
      apply (encode_then_continue _ _ []); try done; try lia.
      intros. apply (IH []); first [done | simpl; lia].
    + pose proof Hsrc as Hpeek. apply holds_at_cons in Hpeek as [-> Hsrc'].
      cbn [mbind result_bind].
      inversion_clear Hrest as [|? ? [Hnz' Hlo] Hrest'].
      rewrite u16_small, u32_small by lia.
      destruct ((0xDC00 <=? lo) && (lo <=? 0xDFFF)) eqn:Epair; zbool_hyps.
      * rewrite (proj2 (Z.ltb_ge lo 0xDC00)), (proj2 (Z.ltb_ge 0xDFFF lo)) by lia.
        cbn [orb].
        rewrite (u32_small (u - _)), (u32_small (lo - _)) by lia.
        rewrite (u32_small (_ ≪ 10)) by (rewrite Z.shiftl_mul_pow2; lia).
        rewrite lor_shiftl by lia. change (2 ^ 10) with 1024.
        apply encode_then_continue; try lia.
        { intros. destruct fuel; [simpl in Hfuel; lia|]. done. }
        intros. apply IH; first [done | simpl in *; lia].
      * assert (Hnot : (lo <? 0xDC00) || (0xDFFF <? lo) = true).
        { apply orb_true_iff.
          apply andb_false_iff in Epair as [E|E]; zbool_hyps;
            [left | right]; apply Z.ltb_lt; lia. }
        rewrite Hnot.
        apply encode_then_continue; try done; try lia.
        intros. apply IH; first [done | simpl in *; lia | by constructor].
Qed.

(** X10. On a zero-terminated source of nonzero 16-bit elements, with
    [len >= 1] and a destination of at least [len] bytes,
    [PHYSFS_utf8FromUtf16] writes the UTF-8 text of the longest prefix of
    the codepoints of the source ([utf16_codepoints]: surrogates paired or
    replaced by the placeholder) that fits in [len - 1] bytes, then the
    terminator, and nothing else. *)
Theorem utf8FromUtf16_writes_longest_fitting_prefix
    (units src dst : list Z) (len : Z) :
  Forall (fun u => u <> 0 /\ 0 <= u < 2 ^ 16) units ->
  holds_at src 0 (units ++ [0]) ->
  1 <= len < 2 ^ 64 -> len <= Z.of_nat (length dst) ->
  PHYSFS_utf8FromUtf16 src dst len
  = Ok (write_at dst 0
          (utf8_string (fitting (utf16_codepoints units) (len - 1)) ++ [0])).
Proof.
  intros Hunits Hsrc Hlen Hroom. unfold PHYSFS_utf8FromUtf16.
  rewrite (proj2 (Z.eqb_neq len 0)) by lia. cbv zeta.
  rewrite u64_small by lia.
  pose proof (terminated_text_length src units Hsrc) as Hs.
  rewrite (utf8FromUtf16_loop_spec (length units) units) by first [done | lia].
  cbn [mbind result_bind].
  pose proof (fitting_length (utf16_codepoints units) (len - 1)) as Hfit.
  rewrite store_write_at by (rewrite length_write_at; lia).
  by rewrite (write_at_app dst 0) by lia.
Qed.

Lemma utf8FromUtf16_writes_longest_fitting_prefix_witness :
  PHYSFS_utf8FromUtf16 [0xD800; 0x41; 0xD83D; 0xDE00; 0] [7; 7; 7; 7; 7; 7; 7] 7
  = Ok (write_at [7; 7; 7; 7; 7; 7; 7] 0
          (utf8_string
             (fitting (utf16_codepoints [0xD800; 0x41; 0xD83D; 0xDE00]) (7 - 1))
           ++ [0])).
Proof.
  apply (utf8FromUtf16_writes_longest_fitting_prefix
           [0xD800; 0x41; 0xD83D; 0xDE00] [0xD800; 0x41; 0xD83D; 0xDE00; 0]
           [7; 7; 7; 7; 7; 7; 7] 7).
  - repeat (constructor; [cbv beta; lia|]). constructor.
  - reflexivity.
  - lia.
  - simpl. lia.
Defined.

Example utf8FromUtf16_pair_without_offset :
  PHYSFS_utf8FromUtf16 [0xD800; 0x41; 0xD83D; 0xDE00; 0] [7; 7; 7; 7; 7; 7; 7] 7
  = Ok ([0x3F; 0x41] ++ utf8_bytes 0xF600 ++ [0; 7]).
Proof. reflexivity. Qed.

(** ** From UTF-8 to UTF-16 and back *)






Example utf8_utf16_utf8_changes_supplementary :
  PHYSFS_utf8ToUtf16 [0xF0; 0x9F; 0x98; 0x80; 0] [7; 7; 7] 6
  = Ok [0xD83D; 0xDE00; 0]
  /\ PHYSFS_utf8FromUtf16 [0xD83D; 0xDE00; 0] [7; 7; 7; 7; 7] 5
     = Ok [0xEF; 0x98; 0x80; 0; 7].
Proof. split; reflexivity. Qed.

(** ** ASCII-only comparison *)

Lemma char_value_range (char_signed : bool) (x : Z) :
  -128 <= char_value char_signed x <= 255.
Proof.
  pose proof (u8_range x). unfold char_value, s8. cbv zeta.
  destruct char_signed; [destruct (u8 x <? 128) eqn:E; zbool_hyps|]; lia.
Qed.

Lemma char_value_zero (char_signed : bool) (x : Z) :
  char_value char_signed x = 0 <-> u8 x = 0.
Proof.
  pose proof (u8_range x). unfold char_value, s8. cbv zeta.
  destruct char_signed; [destruct (u8 x <? 128) eqn:E; zbool_hyps|]; lia.
Qed.

Lemma ascii_lower_letter (char_signed : bool) (ch : Z) :
  65 <= ch <= 90 -> ascii_lower char_signed ch = ch + 32.
Proof.
  intros H. unfold ascii_lower, char_value, s8. ztest. cbv zeta.
  rewrite u8_small by lia. ztest. by destruct char_signed.
Qed.

Lemma ascii_lower_zero (char_signed : bool) (ch : Z) :
  ascii_lower char_signed ch = 0 <-> ch = 0.
Proof.
  destruct (decide (65 <= ch <= 90)) as [H|H].
  - rewrite ascii_lower_letter by done. lia.
  - unfold ascii_lower.
    destruct ((65 <=? ch) && (ch <=? 90)) eqn:E; zbool_hyps; [lia|done].
Qed.

Lemma lowered_char_zero (char_signed : bool) (c : Z) :
  ascii_lower char_signed (char_value char_signed c) = 0 <-> u8 c = 0.
Proof. by rewrite ascii_lower_zero, char_value_zero. Qed.

Lemma lowered_text_drop (char_signed : bool) (s : list Z) (p : nat) (c : Z) :
  s !! p = Some c ->
  lowered_text char_signed (drop p s)
  = if u8 c =? 0 then []
    else ascii_lower char_signed (char_value char_signed c)
         :: lowered_text char_signed (drop (S p) s).
Proof. intros H. by rewrite (drop_S _ _ _ H). Qed.

(** One turn of either ASCII loop on two strings with their terminators
    ahead: the result when it returns, or equal nonzero characters and both
    cursors still before the terminators. *)
Lemma ascii_turn (char_signed : bool) (str1 : list Z) (z1 p1 : nat)
    (str2 : list Z) (z2 p2 : nat) (k : result Z) :
  terminator_at str1 z1 -> (p1 <= z1)%nat ->
  terminator_at str2 z2 -> (p2 <= z2)%nat ->
  let xs := lowered_text char_signed (drop p1 str1) in
  let ys := lowered_text char_signed (drop p2 str2) in
  exists c1 c2 : Z,
    load str1 p1 = Ok c1 /\ load str2 p2 = Ok c2
    /\ let cp1 := ascii_lower char_signed (char_value char_signed c1) in
       let cp2 := ascii_lower char_signed (char_value char_signed c2) in
       ((if cp1 <? cp2 then Ok (-1)
         else if cp2 <? cp1 then Ok 1
         else if cp1 =? 0 then Ok 0 else k) = Ok (text_order xs ys)
        /\ settled_at_head xs ys)
       \/ (cp1 = cp2 /\ (p1 < z1)%nat /\ (p2 < z2)%nat
           /\ xs = cp1 :: lowered_text char_signed (drop (S p1) str1)
           /\ ys = cp1 :: lowered_text char_signed (drop (S p2) str2)
           /\ (if cp1 <? cp2 then Ok (-1)
               else if cp2 <? cp1 then Ok 1
               else if cp1 =? 0 then Ok 0 else k) = k).
Proof.
  intros Ht1 Hp1 Ht2 Hp2 xs ys.
  destruct (lookup_before_terminator str1 z1 p1 Ht1 Hp1) as (c1 & Hl1 & Hz1).
  destruct (lookup_before_terminator str2 z2 p2 Ht2 Hp2) as (c2 & Hl2 & Hz2).
  exists c1, c2. split; [by apply load_Some|]. split; [by apply load_Some|].
  subst xs ys.
  rewrite (lowered_text_drop _ _ _ _ Hl1), (lowered_text_drop _ _ _ _ Hl2).
  cbv zeta.
  pose proof (lowered_char_zero char_signed c1) as H1.
  pose proof (lowered_char_zero char_signed c2) as H2.
  set (cp1 := ascii_lower char_signed (char_value char_signed c1)) in *.
  set (cp2 := ascii_lower char_signed (char_value char_signed c2)) in *.
  destruct (u8 c1 =? 0) eqn:E1, (u8 c2 =? 0) eqn:E2; zbool_hyps.
  - left. split; [|done].
    replace cp1 with 0 by (symmetry; tauto).
    replace cp2 with 0 by (symmetry; tauto). done.
  - left. split; [|done].
    replace cp1 with 0 by (symmetry; tauto). cbn [text_order].
    assert (cp2 <> 0) by tauto.
    destruct (0 <? cp2) eqn:E; zbool_hyps; [done|].
    by rewrite (proj2 (Z.ltb_lt cp2 0)) by lia.
  - left. split; [|done].
    replace cp2 with 0 by (symmetry; tauto). cbn [text_order].
    assert (cp1 <> 0) by tauto.
    destruct (cp1 <? 0) eqn:E; zbool_hyps; [done|].
    by rewrite (proj2 (Z.ltb_lt 0 cp1)) by lia.
  - assert (cp1 <> 0) by tauto.
    destruct (decide (cp1 = cp2)) as [Heq|Hne].
    + right. rewrite <- Heq.
      rewrite Z.ltb_irrefl, (proj2 (Z.eqb_neq cp1 0)) by done.
      repeat split; try done.
      * destruct (decide (p1 = z1)) as [->|]; [tauto|lia].
      * destruct (decide (p2 = z2)) as [->|]; [tauto|lia].
    + left. split; [|done]. cbn [text_order].
      destruct (cp1 <? cp2) eqn:E; zbool_hyps; [done|].
      rewrite (proj2 (Z.ltb_lt cp2 cp1)) by lia. done.
Qed.

Lemma stricmpASCII_loop_spec (char_signed : bool) (str1 : list Z) (z1 : nat)
    (str2 : list Z) (z2 : nat) :
  terminator_at str1 z1 -> terminator_at str2 z2 ->
  forall (fuel p1 p2 : nat),
    (p1 <= z1)%nat -> (p2 <= z2)%nat -> (z1 - p1 < fuel)%nat ->
    stricmpASCII_loop char_signed fuel str1 p1 str2 p2
    = Ok (text_order (lowered_text char_signed (drop p1 str1))
            (lowered_text char_signed (drop p2 str2))).
Proof.
  intros Ht1 Ht2. induction fuel as [|fuel IH]; intros p1 p2 Hp1 Hp2 Hfuel;
    [lia|].
  cbn [stricmpASCII_loop].
  destruct (ascii_turn char_signed str1 z1 p1 str2 z2 p2
              (stricmpASCII_loop char_signed fuel str1 (S p1) str2 (S p2))
              Ht1 Hp1 Ht2 Hp2)
    as (c1 & c2 & -> & -> & [[Hret _] | (Heq & Hlt1 & Hlt2 & -> & -> & Hgo)]);
    cbn [mbind result_bind]; cbv zeta.
  - exact Hret.
  - cbv zeta in Hgo. rewrite Hgo, IH by lia.
    cbn [text_order]. by rewrite Z.ltb_irrefl.
Qed.

Lemma text_order_take_settled (n : nat) (xs ys : list Z) :
  settled_at_head xs ys ->
  text_order (take (S n) xs) (take (S n) ys) = text_order xs ys.
Proof.
  destruct xs as [|x xs], ys as [|y ys]; try done. cbn [take text_order settled_at_head].
  intros Hne. destruct (x <? y) eqn:E1; [done|].
  destruct (y <? x) eqn:E2; [done|]. zbool_hyps. lia.
Qed.

Lemma strnicmpASCII_loop_spec (char_signed : bool) (str1 : list Z) (z1 : nat)
    (str2 : list Z) (z2 : nat) :
  terminator_at str1 z1 -> terminator_at str2 z2 ->
  forall (n p1 p2 : nat),
    (p1 <= z1)%nat -> (p2 <= z2)%nat ->
    strnicmpASCII_loop char_signed n str1 p1 str2 p2
    = Ok (text_order (take n (lowered_text char_signed (drop p1 str1)))
            (take n (lowered_text char_signed (drop p2 str2)))).
Proof.
  intros Ht1 Ht2. induction n as [|n IH]; intros p1 p2 Hp1 Hp2.
  { cbn [strnicmpASCII_loop]. by rewrite !take_0. }
  cbn [strnicmpASCII_loop].
  destruct (ascii_turn char_signed str1 z1 p1 str2 z2 p2
              (strnicmpASCII_loop char_signed n str1 (S p1) str2 (S p2))
              Ht1 Hp1 Ht2 Hp2)
    as (c1 & c2 & -> & -> & [[Hret Hwhy] | (Heq & Hlt1 & Hlt2 & -> & -> & Hgo)]);
    cbn [mbind result_bind]; cbv zeta.
  - cbv zeta in Hret. rewrite Hret. f_equal. symmetry.
    by apply text_order_take_settled.
  - cbv zeta in Hgo. rewrite Hgo, IH by lia.
    cbn [take text_order]. by rewrite Z.ltb_irrefl.
Qed.

Lemma lowered_text_nonzero (char_signed : bool) (s : list Z) :
  Forall (fun x => x <> 0) (lowered_text char_signed s).
Proof.
  induction s as [|c s IH]; cbn [lowered_text]; [constructor|].
  destruct (u8 c =? 0) eqn:E; zbool_hyps; constructor; [|done].
  by rewrite lowered_char_zero.
Qed.

Lemma text_order_zero (xs ys : list Z) :
  Forall (fun x => x <> 0) xs -> Forall (fun y => y <> 0) ys ->
  text_order xs ys = 0 <-> xs = ys.
Proof.
  intros Hxs. revert ys. induction Hxs as [|x xs Hx _ IH]; intros ys Hys.
  - destruct Hys as [|y ys Hy _]; [done|]. cbn [text_order].
    destruct (0 <? y); split; discriminate.
  - destruct Hys as [|y ys Hy Hys]; cbn [text_order].
    + destruct (x <? 0); split; discriminate.
    + destruct (x <? y) eqn:E1; zbool_hyps.
      { split; [discriminate|]. intros [= -> _]. lia. }
      destruct (y <? x) eqn:E2; zbool_hyps.
      { split; [discriminate|]. intros [= -> _]. lia. }
      rewrite (IH ys Hys). assert (x = y) as -> by lia.
      split; [by intros ->|by intros [= ->]].
Qed.

Lemma text_order_antisym (xs ys : list Z) :
  Forall (fun x => x <> 0) xs -> Forall (fun y => y <> 0) ys ->
  text_order xs ys = - text_order ys xs.
Proof.
  intros Hxs. revert ys. induction Hxs as [|x xs Hx _ IH]; intros ys Hys.
  - destruct Hys as [|y ys Hy _]; [done|]. cbn [text_order].
    destruct (0 <? y) eqn:E1, (y <? 0) eqn:E2; zbool_hyps; first [done | lia].
  - destruct Hys as [|y ys Hy Hys]; cbn [text_order].
    + destruct (0 <? x) eqn:E1, (x <? 0) eqn:E2; zbool_hyps; first [done | lia].
    + destruct (x <? y) eqn:E1, (y <? x) eqn:E2; zbool_hyps;
        first [done | lia | by apply IH].
Qed.

(** X12. On two zero-terminated strings [__PHYSFS_stricmpASCII] never
    reads past a terminator and returns the order of the two texts with
    the letters A to Z lowered: it returns 0 exactly when the lowered texts
    are the same, and exchanging the operands negates the result. *)
Theorem stricmpASCII_orders_lowered_texts (char_signed : bool)
    (str1 str2 : list Z) (z1 z2 : nat) :
  terminator_at str1 z1 -> terminator_at str2 z2 ->
  let xs := lowered_text char_signed str1 in
  let ys := lowered_text char_signed str2 in
  __PHYSFS_stricmpASCII char_signed str1 str2 = Ok (text_order xs ys)
  /\ (__PHYSFS_stricmpASCII char_signed str1 str2 = Ok 0 <-> xs = ys)
  /\ __PHYSFS_stricmpASCII char_signed str1 str2
     = Z.opp <$> __PHYSFS_stricmpASCII char_signed str2 str1.
Proof.
  intros Ht1 Ht2 xs ys.
  assert (H12 : __PHYSFS_stricmpASCII char_signed str1 str2
                = Ok (text_order xs ys)).
  { unfold __PHYSFS_stricmpASCII.
    rewrite (stricmpASCII_loop_spec char_signed str1 z1 str2 z2) by
      first [done | lia | destruct Ht1 as (c & Hc & _);
                          apply lookup_lt_Some in Hc; lia].
    by rewrite !drop_0. }
  assert (H21 : __PHYSFS_stricmpASCII char_signed str2 str1
                = Ok (text_order ys xs)).
  { unfold __PHYSFS_stricmpASCII.
    rewrite (stricmpASCII_loop_spec char_signed str2 z2 str1 z1) by
      first [done | lia | destruct Ht2 as (c & Hc & _);
                          apply lookup_lt_Some in Hc; lia].
    by rewrite !drop_0. }
  pose proof (lowered_text_nonzero char_signed str1) as Hxs.
  pose proof (lowered_text_nonzero char_signed str2) as Hys.
  split; [done|split].
  - rewrite H12. rewrite <- (text_order_zero xs ys) by done.
    split; [by intros [= ->]|by intros ->].
  - rewrite H12, H21. cbn. f_equal. by apply text_order_antisym.
Qed.

Lemma stricmpASCII_orders_lowered_texts_witness :
  let xs := lowered_text true [0x48; 0x69; 0] in
  let ys := lowered_text true [0x68; 0x49; 0; 0x7A] in
  __PHYSFS_stricmpASCII true [0x48; 0x69; 0] [0x68; 0x49; 0; 0x7A]
  = Ok (text_order xs ys)
  /\ (__PHYSFS_stricmpASCII true [0x48; 0x69; 0] [0x68; 0x49; 0; 0x7A] = Ok 0
      <-> xs = ys)
  /\ __PHYSFS_stricmpASCII true [0x48; 0x69; 0] [0x68; 0x49; 0; 0x7A]
     = Z.opp <$> __PHYSFS_stricmpASCII true [0x68; 0x49; 0; 0x7A] [0x48; 0x69; 0].
Proof.
  apply (stricmpASCII_orders_lowered_texts true [0x48; 0x69; 0]
           [0x68; 0x49; 0; 0x7A] 2 2).
  - exists 0. split; reflexivity.
  - exists 0. split; reflexivity.
Defined.

(** X13. On two zero-terminated strings [__PHYSFS_strnicmpASCII] never
    reads past a terminator and returns the order of the first [n]
    characters of the two lowered texts: 0 exactly when those prefixes are
    the same. *)
Theorem strnicmpASCII_orders_prefixes (char_signed : bool)
    (str1 str2 : list Z) (z1 z2 : nat) (n : Z) :
  terminator_at str1 z1 -> terminator_at str2 z2 ->
  let xs := take (Z.to_nat (u32 n)) (lowered_text char_signed str1) in
  let ys := take (Z.to_nat (u32 n)) (lowered_text char_signed str2) in
  __PHYSFS_strnicmpASCII char_signed str1 str2 n = Ok (text_order xs ys)
  /\ (__PHYSFS_strnicmpASCII char_signed str1 str2 n = Ok 0 <-> xs = ys).
Proof.
  intros Ht1 Ht2 xs ys.
  assert (H12 : __PHYSFS_strnicmpASCII char_signed str1 str2 n
                = Ok (text_order xs ys)).
  { unfold __PHYSFS_strnicmpASCII.
    rewrite (strnicmpASCII_loop_spec char_signed str1 z1 str2 z2)
      by first [done | lia].
    by rewrite !drop_0. }
  split; [done|]. rewrite H12.
  rewrite <- (text_order_zero xs ys)
    by (apply Forall_take, lowered_text_nonzero).
  split; [by intros [= ->]|by intros ->].
Qed.

Lemma strnicmpASCII_orders_prefixes_witness :
  let xs := take (Z.to_nat (u32 3)) (lowered_text false [0x48; 0x65; 0x6C; 0x6C; 0x6F; 0]) in
  let ys := take (Z.to_nat (u32 3)) (lowered_text false [0x48; 0x45; 0x4C; 0x50; 0]) in
  __PHYSFS_strnicmpASCII false [0x48; 0x65; 0x6C; 0x6C; 0x6F; 0]
    [0x48; 0x45; 0x4C; 0x50; 0] 3
  = Ok (text_order xs ys)
  /\ (__PHYSFS_strnicmpASCII false [0x48; 0x65; 0x6C; 0x6C; 0x6F; 0]
        [0x48; 0x45; 0x4C; 0x50; 0] 3 = Ok 0
      <-> xs = ys).
Proof.
  apply (strnicmpASCII_orders_prefixes false [0x48; 0x65; 0x6C; 0x6C; 0x6F; 0]
           [0x48; 0x45; 0x4C; 0x50; 0] 5 4 3).
  - exists 0. split; reflexivity.
  - exists 0. split; reflexivity.
Defined.

Example strnicmpASCII_Hello_HELP :
  __PHYSFS_strnicmpASCII false [0x48; 0x65; 0x6C; 0x6C; 0x6F; 0]
    [0x48; 0x45; 0x4C; 0x50; 0] 3 = Ok 0
  /\ __PHYSFS_stricmpASCII false [0x48; 0x65; 0x6C; 0x6C; 0x6F; 0]
       [0x48; 0x45; 0x4C; 0x50; 0] = Ok (-1).
Proof. split; reflexivity. Qed.

(** ** More on the Unicode comparators *)

(** Without a six-octet lead byte at the cursor, the decoder leaves the
    cursor inside the string. *)
Lemma utf8codepoint_stays_in_string (s : list Z) (z p : nat) :
  terminator_at s z -> (p <= z)%nat ->
  (forall c, s !! p = Some c -> u8 c < 0xFC) ->
  exists cp p', utf8codepoint s p = Ok (cp, p') /\ (p <= p' <= z)%nat.
Proof.
  intros Hterm Hp Hlead. unfold utf8codepoint.
  walk_string Hterm z.
  all: eexists _, _; split; [reflexivity|].
  all: try lia.
  specialize (Hlead _ Hl). zbool_hyps. lia.
Qed.

Lemma no_six_octet_lead_at (s : list Z) (p : nat) :
  Forall (fun c => u8 c < 0xFC) s -> forall c, s !! p = Some c -> u8 c < 0xFC.
Proof.
  intros H c Hc. apply (proj1 (Forall_lookup _ _) H p c Hc).
Qed.

Lemma utf8codepointcmp_refl (case_fold_hash : Z -> CaseFoldHashBucket) (cp : Z) :
  utf8codepointcmp case_fold_hash cp cp = 0.
Proof. unfold utf8codepointcmp. by rewrite Z.eqb_refl. Qed.

Lemma utf8stricmp_loop_refl (case_fold_hash : Z -> CaseFoldHashBucket)
    (s : list Z) (z : nat) :
  terminator_at s z -> Forall (fun c => u8 c < 0xFC) s ->
  forall fuel p : nat,
    (p <= z)%nat -> (z - p < fuel)%nat ->
    utf8stricmp_loop case_fold_hash fuel s p s p = Ok 0.
Proof.
  intros Hterm Hlead. induction fuel as [|fuel IH]; intros p Hp Hfuel; [lia|].
  cbn [utf8stricmp_loop].
  destruct (utf8codepoint_stays_in_string s z p Hterm Hp
              (no_six_octet_lead_at s p Hlead)) as (cp & p' & Hd & Hp').
  rewrite Hd. cbn [mbind result_bind].
  rewrite utf8codepointcmp_refl. cbn [Z.eqb negb].
  destruct (cp =? 0) eqn:E0; zbool_hyps; [done|].
  apply utf8codepoint_progress in Hd as [_ [[? ?]|[_ Hq]]]; [done|].
  apply IH; lia.
Qed.

Lemma utf8strnicmp_loop_refl (case_fold_hash : Z -> CaseFoldHashBucket)
    (s : list Z) (z : nat) :
  terminator_at s z -> Forall (fun c => u8 c < 0xFC) s ->
  forall n p : nat,
    (p <= z)%nat -> utf8strnicmp_loop case_fold_hash n s p s p = Ok 0.
Proof.
  intros Hterm Hlead. induction n as [|n IH]; intros p Hp; [done|].
  cbn [utf8strnicmp_loop].
  destruct (utf8codepoint_stays_in_string s z p Hterm Hp
              (no_six_octet_lead_at s p Hlead)) as (cp & p' & Hd & Hp').
  rewrite Hd. cbn [mbind result_bind].
  rewrite utf8codepointcmp_refl. cbn [Z.eqb negb].
  destruct (cp =? 0) eqn:E0; zbool_hyps; [done|].
  apply IH; lia.
Qed.

(** X14. Whatever the fold table, a zero-terminated string without the
    bytes FC to FF compares equal to itself, well-formed UTF-8 or not: the
    comparators return 0 and never read past the terminator. *)
Theorem utf8stricmp_reflexive (case_fold_hash : Z -> CaseFoldHashBucket)
    (s : list Z) (z : nat) (n : Z) :
  terminator_at s z -> Forall (fun c => u8 c < 0xFC) s ->
  __PHYSFS_utf8stricmp case_fold_hash s s = Ok 0
  /\ __PHYSFS_utf8strnicmp case_fold_hash s s n = Ok 0.
Proof.
  intros Hterm Hlead. split.
  - apply (utf8stricmp_loop_refl case_fold_hash s z Hterm Hlead); [lia|].
    destruct Hterm as (c & Hc & _). apply lookup_lt_Some in Hc. lia.
  - apply (utf8strnicmp_loop_refl case_fold_hash s z Hterm Hlead). lia.
Qed.

Lemma utf8stricmp_reflexive_witness :
  __PHYSFS_utf8stricmp sample_fold_hash [0x41; 0xC3; 0x28; 0x80; 0]
    [0x41; 0xC3; 0x28; 0x80; 0] = Ok 0
  /\ __PHYSFS_utf8strnicmp sample_fold_hash [0x41; 0xC3; 0x28; 0x80; 0]
       [0x41; 0xC3; 0x28; 0x80; 0] 3 = Ok 0.
Proof.
  apply (utf8stricmp_reflexive sample_fold_hash [0x41; 0xC3; 0x28; 0x80; 0] 4 3).
  - exists 0. split; reflexivity.
  - repeat (constructor; [by vm_compute|]). constructor.
Defined.

Lemma utf8strnicmp_loop_swap (case_fold_hash : Z -> CaseFoldHashBucket)
    (n : nat) (str1 : list Z) (p1 : nat) (str2 : list Z) (p2 : nat) :
  nul_free_table case_fold_hash ->
  utf8strnicmp_loop case_fold_hash n str1 p1 str2 p2
  = Z.opp <$> utf8strnicmp_loop case_fold_hash n str2 p2 str1 p1.
Proof.
  intros Hnul. revert p1 p2.
  induction n as [|n IH]; intros p1 p2; [done|].
  cbn [utf8strnicmp_loop].
  destruct (utf8codepoint str1 p1) as [[cp1 q1]| |] eqn:E1;
    [| |by apply utf8codepoint_not_OutOfFuel in E1];
  (destruct (utf8codepoint str2 p2) as [[cp2 q2]| |] eqn:E2;
    [| |by apply utf8codepoint_not_OutOfFuel in E2]);
  cbn [mbind result_bind]; try done.
  rewrite (utf8codepointcmp_antisym case_fold_hash cp2 cp1).
  destruct (utf8codepointcmp case_fold_hash cp1 cp2 =? 0) eqn:Erc; zbool_hyps.
  - rewrite Erc. simpl.
    pose proof (utf8codepointcmp_zero_terminator case_fold_hash cp1 cp2 Hnul Erc)
      as Hz.
    destruct (cp1 =? 0) eqn:E10, (cp2 =? 0) eqn:E20; zbool_hyps;
      [done | tauto | tauto | apply IH].
  - rewrite (proj2 (Z.eqb_neq (- utf8codepointcmp case_fold_hash cp1 cp2) 0))
      by lia.
    simpl. by rewrite Z.opp_involutive.
Qed.

Lemma utf8stricmp_zero_strnicmp_zero (case_fold_hash : Z -> CaseFoldHashBucket)
    (str1 str2 : list Z) (n : nat) :
  forall (fuel p1 p2 : nat),
    utf8stricmp_loop case_fold_hash fuel str1 p1 str2 p2 = Ok 0 ->
    utf8strnicmp_loop case_fold_hash n str1 p1 str2 p2 = Ok 0.
Proof.
  induction n as [|n IH]; intros fuel p1 p2 H; [done|].
  destruct fuel as [|fuel]; [discriminate|].
  cbn [utf8stricmp_loop utf8strnicmp_loop] in *.
  destruct (utf8codepoint str1 p1) as [[cp1 q1]| |]; [|discriminate..].
  destruct (utf8codepoint str2 p2) as [[cp2 q2]| |]; [|discriminate..].
  cbn [mbind result_bind] in *.
  destruct (negb _); [done|]. destruct (cp1 =? 0); [done|]. by eapply IH.
Qed.

(** X15. The bounded comparator agrees with the unbounded one: when
    [__PHYSFS_utf8stricmp] finds two strings equal, so does
    [__PHYSFS_utf8strnicmp] for every bound; and, on a fold table without
    mappings from or to the terminator, exchanging the operands of
    [__PHYSFS_utf8strnicmp] negates its result. *)
Theorem utf8strnicmp_consistent (case_fold_hash : Z -> CaseFoldHashBucket)
    (str1 str2 : list Z) (n : Z) :
  (__PHYSFS_utf8stricmp case_fold_hash str1 str2 = Ok 0 ->
   __PHYSFS_utf8strnicmp case_fold_hash str1 str2 n = Ok 0)
  /\ (nul_free_table case_fold_hash ->
      __PHYSFS_utf8strnicmp case_fold_hash str1 str2 n
      = Z.opp <$> __PHYSFS_utf8strnicmp case_fold_hash str2 str1 n).
Proof.
  split.
  - unfold __PHYSFS_utf8stricmp, __PHYSFS_utf8strnicmp. intros H.
    by eapply utf8stricmp_zero_strnicmp_zero.
  - intros Hnul. unfold __PHYSFS_utf8strnicmp.
    by apply utf8strnicmp_loop_swap.
Qed.

Lemma utf8strnicmp_consistent_witness :
  (__PHYSFS_utf8stricmp sample_fold_hash [0x41; 0x62; 0] [0x61; 0x62; 0] = Ok 0 ->
   __PHYSFS_utf8strnicmp sample_fold_hash [0x41; 0x62; 0] [0x61; 0x62; 0] 1 = Ok 0)
  /\ __PHYSFS_utf8strnicmp sample_fold_hash [0x41; 0x62; 0] [0x61; 0x43; 0] 2
     = Z.opp <$>
       __PHYSFS_utf8strnicmp sample_fold_hash [0x61; 0x43; 0] [0x41; 0x62; 0] 2.
Proof.
  split.
  - apply (proj1 (utf8strnicmp_consistent sample_fold_hash
                    [0x41; 0x62; 0] [0x61; 0x62; 0] 1)).
  - apply (proj2 (utf8strnicmp_consistent sample_fold_hash
                    [0x41; 0x62; 0] [0x61; 0x43; 0] 2)).
    exact sample_fold_hash_nul_free.
Defined.

(** X16. Two codepoints compare equal exactly when they are the same or
    fold to the same three codepoints: a codepoint that folds to two
    codepoints is not equal to one that folds to the first of them only. *)
Theorem utf8codepointcmp_zero_iff (case_fold_hash : Z -> CaseFoldHashBucket)
    (cp1 cp2 : Z) :
  utf8codepointcmp case_fold_hash cp1 cp2 = 0
  <-> cp1 = cp2
      \/ locate_case_fold_mapping case_fold_hash cp1
         = locate_case_fold_mapping case_fold_hash cp2.
Proof.
  unfold utf8codepointcmp.
  destruct (cp1 =? cp2) eqn:E; zbool_hyps; [by split; [left|]|].
  destruct (locate_case_fold_mapping case_fold_hash cp1) as [[a0 a1] a2].
  destruct (locate_case_fold_mapping case_fold_hash cp2) as [[b0 b1] b2].
  repeat match goal with
  | |- context [?x <? ?y] => destruct (x <? y) eqn:?
  end; zbool_hyps; (split; [try discriminate|]).
  all: try (intros [?|[= ? ? ?]]; first [done | lia]).
  intros _. right. repeat f_equal; lia.
Qed.

Example utf8codepointcmp_sharp_s :
  utf8codepointcmp sample_fold_hash 0xDF 0x73 = 1
  /\ utf8codepointcmp sample_fold_hash 0x41 0x61 = 0.
Proof. split; reflexivity. Qed.

(** ** The destination of the transcoders from UTF-8, on any input *)

Lemma loop_written_stop (dst : list Z) (dp : nat) (room : Z) :
  0 <= room -> loop_written dst dp room (Ok (dst, dp)).
Proof. intros H. exists dst, dp. repeat split; first [done | lia]. Qed.

Lemma loop_written_store (dst : list Z) (dp : nat) (room room' : Z) (v : Z)
    (k : list Z -> result (list Z * nat)) :
  (dp < length dst)%nat -> 1 + room' <= room ->
  (forall dst1, length dst1 = length dst -> loop_written dst1 (S dp) room' (k dst1)) ->
  loop_written dst dp room (dst1 ← store dst dp v; k dst1).
Proof.
  intros Hdp Hroom Hk. rewrite store_lt by done. cbn [mbind result_bind].
  destruct (Hk (<[dp:=v]> dst) (length_insert _ _ _))
    as (dst' & dp' & -> & Hlen & Hle & Hup & Hframe).
  exists dst', dp'. rewrite length_insert in Hlen.
  repeat split; try done; try lia.
  intros i Hi. rewrite Hframe by done. apply list_lookup_insert_ne. lia.
Qed.

Lemma utf8ToUcs4_loop_written (src : list Z) (z : nat) :
  terminator_at src z -> Forall (fun c => u8 c < 0xFC) src ->
  forall (fuel sp : nat) (dst : list Z) (dp : nat) (len : Z),
    (sp <= z)%nat -> (z - sp < fuel)%nat -> 0 <= len < 2 ^ 64 ->
    4 * Z.of_nat dp + len + 4 <= 4 * Z.of_nat (length dst) ->
    loop_written dst dp (len / 4) (utf8ToUcs4_loop fuel src sp dst dp len).
Proof.
  intros Hterm Hlead.
  induction fuel as [|fuel IH]; intros sp dst dp len Hsp Hfuel Hlen Hroom; [lia|].
  cbn [utf8ToUcs4_loop].
  destruct (4 <=? len) eqn:E; zbool_hyps;
    [|apply loop_written_stop; lia_div].
  destruct (utf8codepoint_stays_in_string src z sp Hterm Hsp
              (no_six_octet_lead_at src sp Hlead)) as (cp & sp' & Hd & Hsp').
  rewrite Hd. cbn [mbind result_bind].
  destruct (cp =? 0) eqn:E0; zbool_hyps; [apply loop_written_stop; lia_div|].
  apply utf8codepoint_progress in Hd as [_ [[? ?]|[_ Hq]]]; [done|].
  apply (loop_written_store dst dp (len / 4) ((len - 4) / 4));
    [lia | lia_div |].
  intros dst1 Hlen1. rewrite u64_small by lia. apply IH; lia.
Qed.

Lemma utf8ToUcs2_loop_written (src : list Z) (z : nat) :
  terminator_at src z -> Forall (fun c => u8 c < 0xFC) src ->
  forall (fuel sp : nat) (dst : list Z) (dp : nat) (len : Z),
    (sp <= z)%nat -> (z - sp < fuel)%nat -> 0 <= len < 2 ^ 64 ->
    2 * Z.of_nat dp + len + 2 <= 2 * Z.of_nat (length dst) ->
    loop_written dst dp (len / 2) (utf8ToUcs2_loop fuel src sp dst dp len).
Proof.
  intros Hterm Hlead.
  induction fuel as [|fuel IH]; intros sp dst dp len Hsp Hfuel Hlen Hroom; [lia|].
  cbn [utf8ToUcs2_loop].
  destruct (2 <=? len) eqn:E; zbool_hyps;
    [|apply loop_written_stop; lia_div].
  destruct (utf8codepoint_stays_in_string src z sp Hterm Hsp
              (no_six_octet_lead_at src sp Hlead)) as (cp & sp' & Hd & Hsp').
  rewrite Hd. cbn [mbind result_bind].
  destruct (cp =? 0) eqn:E0; zbool_hyps; [apply loop_written_stop; lia_div|].
  apply utf8codepoint_progress in Hd as [_ [[? ?]|[_ Hq]]]; [done|].
  cbv zeta.
  apply (loop_written_store dst dp (len / 2) ((len - 2) / 2));
    [lia | lia_div |].
  intros dst1 Hlen1. rewrite u64_small by lia. apply IH; lia.
Qed.

Lemma utf8ToUtf16_loop_written (src : list Z) (z : nat) :
  terminator_at src z -> Forall (fun c => u8 c < 0xFC) src ->
  forall (fuel sp : nat) (dst : list Z) (dp : nat) (len : Z),
    (sp <= z)%nat -> (z - sp < fuel)%nat -> 0 <= len < 2 ^ 64 ->
    2 * Z.of_nat dp + len + 2 <= 2 * Z.of_nat (length dst) ->
    loop_written dst dp (len / 2) (utf8ToUtf16_loop fuel src sp dst dp len).
Proof.
  intros Hterm Hlead.
  induction fuel as [|fuel IH]; intros sp dst dp len Hsp Hfuel Hlen Hroom; [lia|].
  cbn [utf8ToUtf16_loop].
  destruct (2 <=? len) eqn:E; zbool_hyps;
    [|apply loop_written_stop; lia_div].
  destruct (utf8codepoint_stays_in_string src z sp Hterm Hsp
              (no_six_octet_lead_at src sp Hlead)) as (cp & sp' & Hd & Hsp').
  rewrite Hd. cbn [mbind result_bind].
  destruct (cp =? 0) eqn:E0; zbool_hyps; [apply loop_written_stop; lia_div|].
  apply utf8codepoint_progress in Hd as [_ [[? ?]|[_ Hq]]]; [done|].
  cbv zeta. destruct (0xFFFF <? _).
  - destruct (len <? 2 * 2) eqn:E4; zbool_hyps;
      [apply loop_written_stop; lia_div|].
    apply (loop_written_store dst dp (len / 2) ((len - 2) / 2));
      [lia | lia_div |].
    intros dst1 Hlen1.
    apply (loop_written_store dst1 (S dp) ((len - 2) / 2) ((len - 4) / 2));
      [lia | lia_div |].
    intros dst2 Hlen2. rewrite (u64_small (len - 2)), u64_small by lia.
    replace (len - 2 - 2) with (len - 4) by lia. apply IH; lia.
  - apply (loop_written_store dst dp (len / 2) ((len - 2) / 2));
      [lia | lia_div |].
    intros dst1 Hlen1. rewrite u64_small by lia. apply IH; lia.
Qed.

Lemma terminate_written (dst : list Z) (cap : nat)
    (r : result (list Z * nat)) :
  (cap <= length dst)%nat ->
  loop_written dst 0 (Z.of_nat cap - 1) r ->
  exists out, ('(dst', dp') ← r; store dst' dp' 0) = Ok out
              /\ string_written_within dst out cap.
Proof.
  intros Hcap (dst' & dp' & -> & Hlen & _ & Hup & Hframe).
  cbn [mbind result_bind]. rewrite store_lt by lia.
  eexists. split; [reflexivity|]. split; [|split].
  - by rewrite length_insert.
  - intros i Hi. rewrite list_lookup_insert_ne by lia. apply Hframe. lia.
  - exists dp'. split; [lia|]. apply list_lookup_insert_eq. lia.
Qed.

(** X17. On any zero-terminated source without the bytes FC to FF,
    well-formed UTF-8 or not, with [len] at least one element and a
    destination of at least [len] bytes, the transcoders from UTF-8 return
    normally, write a zero-terminated string within the first [len / 4]
    (UCS-4) or [len / 2] (UCS-2, UTF-16) elements of the destination, and
    change nothing beyond. *)
Theorem utf8To_stays_within_capacity (src dst : list Z) (z : nat) (len : Z) :
  terminator_at src z -> Forall (fun c => u8 c < 0xFC) src ->
  len < 2 ^ 64 ->
  (4 <= len -> len <= 4 * Z.of_nat (length dst) ->
   exists out, PHYSFS_utf8ToUcs4 src dst len = Ok out
               /\ string_written_within dst out (Z.to_nat (len / 4)))
  /\ (2 <= len -> len <= 2 * Z.of_nat (length dst) ->
      exists out, PHYSFS_utf8ToUcs2 src dst len = Ok out
                  /\ string_written_within dst out (Z.to_nat (len / 2)))
  /\ (2 <= len -> len <= 2 * Z.of_nat (length dst) ->
      exists out, PHYSFS_utf8ToUtf16 src dst len = Ok out
                  /\ string_written_within dst out (Z.to_nat (len / 2))).
Proof.
  intros Hterm Hlead Hmax.
  assert (Hz : (z < length src)%nat).
  { destruct Hterm as (c & Hc & _). by apply lookup_lt_Some in Hc. }
  repeat split; intros Hmin Hroom.
  - unfold PHYSFS_utf8ToUcs4. cbv zeta. rewrite u64_small by lia.
    apply terminate_written; [lia_div|].
    replace (Z.of_nat (Z.to_nat (len / 4)) - 1) with ((len - 4) / 4) by lia_div.
    apply (utf8ToUcs4_loop_written src z Hterm Hlead); lia.
  - unfold PHYSFS_utf8ToUcs2. cbv zeta. rewrite u64_small by lia.
    apply terminate_written; [lia_div|].
    replace (Z.of_nat (Z.to_nat (len / 2)) - 1) with ((len - 2) / 2) by lia_div.
    apply (utf8ToUcs2_loop_written src z Hterm Hlead); lia.
  - unfold PHYSFS_utf8ToUtf16. cbv zeta. rewrite u64_small by lia.
    apply terminate_written; [lia_div|].
    replace (Z.of_nat (Z.to_nat (len / 2)) - 1) with ((len - 2) / 2) by lia_div.
    apply (utf8ToUtf16_loop_written src z Hterm Hlead); lia.
Qed.

Lemma utf8To_stays_within_capacity_witness :
  exists out,
    PHYSFS_utf8ToUtf16 [0xF0; 0x9F; 0x41; 0xE2; 0] [7; 7; 7; 7; 7] 6 = Ok out
    /\ string_written_within [7; 7; 7; 7; 7] out (Z.to_nat (6 / 2)).
Proof.
  apply (proj2 (proj2 (utf8To_stays_within_capacity
                         [0xF0; 0x9F; 0x41; 0xE2; 0] [7; 7; 7; 7; 7] 4 6
                         (ex_intro _ 0 (conj eq_refl eq_refl))
                         ltac:(repeat (constructor; [by vm_compute|]); constructor)
                         ltac:(lia)))).
  - lia.
  - simpl. lia.
Defined.

(** ** The bytes behind an accepted value *)

Lemma load_Ok_lookup (s : list Z) (p : nat) (c : Z) :
  load s p = Ok c -> s !! p = Some c.
Proof. unfold load. destruct (s !! p); [by intros [= ->]|discriminate]. Qed.

Lemma holds_at_loads (s : list Z) (p : nat) (bs : list Z) :
  (forall i b, bs !! i = Some b -> load s (i + p) = Ok b) -> holds_at s p bs.
Proof.
  intros H. apply holds_at_intro. intros i b Hi.
  rewrite Nat.add_comm. apply load_Ok_lookup. by apply H.
Qed.

(** Collects the loads of a run of the decoder into [holds_at]. *)
Ltac gather_loads :=
  apply holds_at_loads;
  let i := fresh "i" in
  let b := fresh "b" in
  let Hi := fresh "Hi" in
  intros i b Hi;
  repeat (destruct i as [|i]; [injection Hi as <-; simpl Nat.add; assumption|]);
  discriminate Hi.

Lemma canonical_two (l c1 : Z) :
  0xC0 <= l <= 0xDF -> 0x80 <= c1 <= 0xBF ->
  0x80 <= payload2 l c1 <= 0x7FF -> utf8_bytes (payload2 l c1) = [l; c1].
Proof.
  intros Hl H1 Hv. unfold utf8_bytes. ztest.
  unfold payload2 in *. f_equal; [|f_equal]; lia_div.
Qed.

Lemma canonical_three (l c1 c2 : Z) :
  0xE0 <= l <= 0xEF -> 0x80 <= c1 <= 0xBF -> 0x80 <= c2 <= 0xBF ->
  0x800 <= payload3 l c1 c2 <= 0xFFFD ->
  utf8_bytes (payload3 l c1 c2) = [l; c1; c2].
Proof.
  intros Hl H1 H2 Hv. unfold utf8_bytes. ztest.
  unfold payload3 in *. f_equal; [|f_equal; [|f_equal]]; lia_div.
Qed.

Lemma canonical_four (l c1 c2 c3 : Z) :
  0xF0 <= l <= 0xF7 ->
  0x80 <= c1 <= 0xBF -> 0x80 <= c2 <= 0xBF -> 0x80 <= c3 <= 0xBF ->
  0x10000 <= payload4 l c1 c2 c3 <= 0x10FFFF ->
  utf8_bytes (payload4 l c1 c2 c3) = [l; c1; c2; c3].
Proof.
  intros Hl H1 H2 H3 Hv. unfold utf8_bytes. ztest.
  unfold payload4 in *. f_equal; [|f_equal; [|f_equal; [|f_equal]]]; lia_div.
Qed.

(** X18. In a buffer of bytes, the bytes the decoder consumes for a value
    it accepts (neither 0 nor the sentinel) are exactly the canonical UTF-8
    form of that value: two different byte sequences never decode to the
    same accepted value, and encoding the value again gives the bytes
    back. *)
Theorem utf8codepoint_consumes_canonical_form
    (s : list Z) (p : nat) (cp : Z) (p' : nat) :
  Forall (fun b => 0 <= b < 256) s ->
  utf8codepoint s p = Ok (cp, p') ->
  cp <> 0 -> cp <> UNICODE_BOGUS_CHAR_VALUE ->
  holds_at s p (utf8_bytes cp) /\ p' = (p + length (utf8_bytes cp))%nat.
Proof.
  intros Hbytes H Hnz Hnb.
  split; [|rewrite utf8_bytes_length;
           by destruct (utf8codepoint_accepts_canonical_aux s p cp p' H Hnz Hnb)].
  pose proof H as H0. unfold utf8codepoint in H.
  destruct (load s p) as [c| |] eqn:E0; cbn [mbind result_bind] in H;
    try discriminate H.
  decoder_paths H; injection H as <- <-; try congruence.
  all: repeat match goal with
       | E : load _ _ = Ok ?x |- _ =>
         lazymatch goal with
         | _ : 0 <= x < 256 |- _ => fail
         | _ => assert (0 <= x < 256)
                  by exact (proj1 (Forall_lookup _ _) Hbytes _ _
                              (load_Ok_lookup _ _ _ E))
         end
       end.
  all: rewrite ?u8_small in * by lia.
  all: repeat match goal with
       | E : not_continuation ?x = false |- _ =>
         rewrite byte_continuation in E by lia
       end; zbool_hyps.
  - assert (utf8_bytes c = [c]) as -> by (unfold utf8_bytes; by ztest).
    gather_loads.
  - assert (Hh : holds_at s p [c; a]) by gather_loads.
    rewrite (utf8codepoint_two_octets s p c a Hh) in H0 by lia.
    cbv zeta in H0. destruct (_ && _) eqn:Ev in H0; [|congruence].
    injection H0 as H0. rewrite <- H0 in *. zbool_hyps.
    by rewrite canonical_two by lia.
  - assert (Hh : holds_at s p [c; a; a0]) by gather_loads.
    rewrite (utf8codepoint_three_octets s p c a a0 Hh) in H0 by lia.
    cbv zeta in H0. destruct (surrogate_case _) in H0; [congruence|].
    destruct (_ && _) eqn:Ev in H0; [|congruence].
    injection H0 as H0. rewrite <- H0 in *. zbool_hyps.
    by rewrite canonical_three by lia.
  - assert (Hh : holds_at s p [c; a; a0; a1]) by gather_loads.
    rewrite (utf8codepoint_four_octets s p c a a0 a1 Hh) in H0 by lia.
    cbv zeta in H0. destruct (_ && _) eqn:Ev in H0; [|congruence].
    injection H0 as H0. rewrite <- H0 in *. zbool_hyps.
    by rewrite canonical_four by lia.
Qed.

Lemma utf8codepoint_consumes_canonical_form_witness :
  holds_at [0x41; 0xE2; 0x82; 0xAC; 0] 1 (utf8_bytes 0x20AC)
  /\ 4%nat = (1 + length (utf8_bytes 0x20AC))%nat.
Proof.
  apply (utf8codepoint_consumes_canonical_form [0x41; 0xE2; 0x82; 0xAC; 0] 1
           0x20AC 4).
  - repeat (constructor; [cbv beta; lia|]). constructor.
  - reflexivity.
  - lia.
  - discriminate.
Defined.

(** ** A destination that always suffices *)

Lemma encoded_width_le (c : Z) :
  (utf8_width (encoded_codepoint c) <= utf8_width c)%nat.
Proof.
  unfold encoded_codepoint. destruct (_ || _); [|lia].
  pose proof (utf8_width_pos c). change (1 <= utf8_width c)%nat. lia.
Qed.

Lemma utf8_string_length_le (k : nat) (bound : Z) (cps : list Z) :
  (forall c, 0 <= c < bound -> (utf8_width c <= k)%nat) ->
  Forall (fun c => 0 <= c < bound) cps ->
  (length (utf8_string cps) <= k * length cps)%nat.
Proof.
  intros Hk. induction 1 as [|c cps Hc _ IH]; simpl; [lia|].
  rewrite length_app, utf8_bytes_length.
  pose proof (encoded_width_le c). specialize (Hk c Hc). lia.
Qed.

(** X19. With room for twice (Latin-1), three times (UCS-2) or four times
    (UCS-4) the number of source elements, plus one byte, nothing is cut:
    the whole text and its terminator are written. *)
Theorem utf8From_destination_always_sufficient
    (cps src dst : list Z) (len : Z) :
  holds_at src 0 (cps ++ [0]) ->
  Forall (fun c => c <> 0) cps ->
  len < 2 ^ 64 -> len <= Z.of_nat (length dst) ->
  let out := write_at dst 0 (utf8_string cps ++ [0]) in
  (Forall (fun c => 0 <= c < 2 ^ 8) cps ->
   2 * Z.of_nat (length cps) + 1 <= len ->
   PHYSFS_utf8FromLatin1 src dst len = Ok out)
  /\ (Forall (fun c => 0 <= c < 2 ^ 16) cps ->
      3 * Z.of_nat (length cps) + 1 <= len ->
      PHYSFS_utf8FromUcs2 src dst len = Ok out)
  /\ (Forall (fun c => 0 <= c < 2 ^ 32) cps ->
      4 * Z.of_nat (length cps) + 1 <= len ->
      PHYSFS_utf8FromUcs4 src dst len = Ok out).
Proof.
  intros Hsrc Hnz Hmax Hroom out. subst out.
  assert (Helems : forall (typ : Z -> Z) (bound : Z),
            (forall c, 0 <= c < bound -> u32 (typ c) = c) ->
            Forall (fun c => 0 <= c < bound) cps ->
            Forall (fun c => c <> 0 /\ 0 <= c /\ u32 (typ c) = c) cps).
  { intros typ bound Htyp Hr. apply Forall_forall. intros c Hc.
    pose proof (proj1 (Forall_forall _ _) Hnz c Hc) as H1.
    pose proof (proj1 (Forall_forall _ _) Hr c Hc) as H2. cbv beta in *.
    repeat split; [done | lia | by apply Htyp]. }
  repeat split; intros Hrange Hlen.
  - unfold PHYSFS_utf8FromLatin1.
    rewrite (UTF8FROMTYPE_spec u8 cps) by first [done | lia |
      apply (Helems u8 (2 ^ 8)); [|done]; intros c Hc;
      by rewrite u8_small, u32_small by lia].
    rewrite fitting_all; [done|].
    assert ((length (utf8_string cps) <= 2 * length cps)%nat); [|lia].
    apply (utf8_string_length_le 2 (2 ^ 8)); [|done].
    intros c Hc. unfold utf8_width.
    repeat match goal with |- context [?a <? ?b] => destruct (a <? b) eqn:? end;
      zbool_hyps; lia.
  - unfold PHYSFS_utf8FromUcs2.
    rewrite (UTF8FROMTYPE_spec u64 cps) by first [done | lia |
      apply (Helems u64 (2 ^ 16)); [|done]; intros c Hc;
      by rewrite u64_small, u32_small by lia].
    rewrite fitting_all; [done|].
    assert ((length (utf8_string cps) <= 3 * length cps)%nat); [|lia].
    apply (utf8_string_length_le 3 (2 ^ 16)); [|done].
    intros c Hc. unfold utf8_width.
    repeat match goal with |- context [?a <? ?b] => destruct (a <? b) eqn:? end;
      zbool_hyps; lia.
  - unfold PHYSFS_utf8FromUcs4.
    rewrite (UTF8FROMTYPE_spec u32 cps) by first [done | lia |
      apply (Helems u32 (2 ^ 32)); [|done]; intros c Hc;
      by rewrite !(u32_small c) by lia].
    rewrite fitting_all; [done|].
    assert ((length (utf8_string cps) <= 4 * length cps)%nat); [|lia].
    apply (utf8_string_length_le 4 (2 ^ 32)); [|done].
    intros c Hc. pose proof (utf8_width_pos c). lia.
Qed.

Lemma utf8From_destination_always_sufficient_witness :
  PHYSFS_utf8FromLatin1 [0x41; 0xE9; 0] [7; 7; 7; 7; 7; 7] 5
  = Ok (write_at [7; 7; 7; 7; 7; 7] 0 (utf8_string [0x41; 0xE9] ++ [0])).
Proof.
  apply (proj1 (utf8From_destination_always_sufficient [0x41; 0xE9]
                  [0x41; 0xE9; 0] [7; 7; 7; 7; 7; 7] 5
                  eq_refl
                  ltac:(repeat (constructor; [lia|]); constructor)
                  ltac:(lia) ltac:(simpl; lia))).
  - repeat (constructor; [cbv beta; lia|]). constructor.
  - simpl. lia.
Defined.
